(** * Synthetic stroke data pipeline (Acorn_Archimedes_Stroke_Synth.py)

    A shallow embedding of the script's data preparation steps: SMOTE
    oversampling ([make_synthetic_data_smote]), repair of the raw synthetic
    rows ([make_one_hot], integer rounding, binary clip-and-round), the
    nearest-real-neighbour quality filter, the per-class rebalancing sample
    and the standardisation that precedes model fitting.

    Floating point cells are modelled by exact rationals [Q]; every
    operation of the script that produces a new cell value returns its
    canonical representative, so that equal numbers are equal terms.
    NaN, infinities and the limits of memory are outside the model. *)

From Stdlib Require Import QArith Qround Qabs Lqa Permutation Sorted.
From stdpp Require Import gmap strings list fin_maps.

Open Scope Q_scope.
Open Scope Z_scope.
Open Scope nat_scope.

(** ** Python exceptions and the error monad *)

Inductive exn : Type :=
| ValueError
| KeyError
| IndexError.

Inductive result (A : Type) : Type :=
| Ok (a : A)
| Raise (e : exn).
Arguments Ok {A} a.
Arguments Raise {A} e.

#[global] Instance result_ret : MRet result := fun A a => Ok a.
#[global] Instance result_bind : MBind result :=
  fun A B f m => match m with Ok a => f a | Raise e => Raise e end.

Definition is_Ok {A} (r : result A) : Prop := ∃ a, r = Ok a.

Fixpoint mapM_result {A B} (f : A → result B) (l : list A) : result (list B) :=
  match l with
  | [] => Ok []
  | a :: l' => b ← f a; bs ← mapM_result f l'; Ok (b :: bs)
  end.

Fixpoint foldM_result {A S} (f : S → A → result S) (s : S) (l : list A) : result S :=
  match l with
  | [] => Ok s
  | a :: l' => s' ← f s a; foldM_result f s' l'
  end.

(** ** Cell arithmetic *)

(** Product of two cells, as the exact value in lowest terms. *)
Definition fmul (a b : Q) : Q := Qred (a * b).

(** [numpy.round(x, 0)]: nearest integer, halves to the even neighbour. *)
Definition round0 (q : Q) : Q :=
  let f := Qfloor q in
  match (q - inject_Z f ?= 1 # 2)%Q with
  | Lt => inject_Z f
  | Gt => inject_Z (f + 1)
  | Eq => if Z.even f then inject_Z f else inject_Z (f + 1)
  end.

(** [numpy.clip(x, 0, 1)]. *)
Definition clip01 (q : Q) : Q :=
  match (q ?= 0)%Q with
  | Lt => 0%Q
  | _ => match (q ?= 1)%Q with Gt => 1%Q | _ => q end
  end.

(** ** make_one_hot *)

(** [numpy.argmax]: position of the first occurrence of the maximum. *)
Fixpoint argmax_from (best : Q) (besti i : nat) (l : list Q) : nat :=
  match l with
  | [] => besti
  | v :: l' =>
      match (best ?= v)%Q with
      | Lt => argmax_from v i (S i) l'
      | _ => argmax_from best besti (S i) l'
      end
  end.

Definition argmax (x : list Q) : result nat :=
  match x with
  | [] => Raise ValueError
  | v :: l => Ok (argmax_from v 0 1 l)
  end.

Definition make_one_hot (x : list Q) : result (list Q) :=
  highest ← argmax x;
  let x := map (fun v => fmul v 0) x in
  let x := <[highest := 1%Q]> x in
  Ok x.


(** ** Rows and data frames

    A pandas row (a [Series] indexed by column name) is a finite map from
    column names to cells; a [DataFrame] is its list of column names and
    its rows in order.  Row labels (the pandas index) are never used to
    align data in the script and are left out. *)

Record DataFrame : Type := mkDataFrame {
  columns : list string;
  rows : list (gmap string Q)
}.

(** Every row has a cell for every column of the frame. *)
Definition df_wf (df : DataFrame) : Prop :=
  Forall (λ r : gmap string Q, Forall (λ c, is_Some (r !! c)) (columns df)) (rows df).

(** [row[key]] *)
Definition getitem (row : gmap string Q) (key : string) : result Q :=
  match row !! key with
  | Some v => Ok v
  | None => Raise KeyError
  end.

(** [row[keys]] for a list of labels: the cells in the order of [keys]. *)
Definition row_getitems (row : gmap string Q) (keys : list string) : result (list Q) :=
  mapM_result (getitem row) keys.

(** [row[keys] = vals] *)
Definition row_setitems (row : gmap string Q) (keys : list string) (vals : list Q)
  : gmap string Q :=
  list_to_map (zip keys vals) ∪ row.

(** [df[col]] *)
Definition df_getcol (df : DataFrame) (col : string) : result (list Q) :=
  if decide (col ∈ columns df)
  then mapM_result (λ r, getitem r col) (rows df)
  else Raise KeyError.

(** [df[col] = vals] for a Python list [vals]: positional, one cell per
    row, a new column being appended on the right. *)
Definition df_setcol (df : DataFrame) (col : string) (vals : list Q) : result DataFrame :=
  if decide (length vals = length (rows df))
  then Ok {| columns := if decide (col ∈ columns df) then columns df
                        else columns df ++ [col];
             rows := zip_with (λ r v, <[col := v]> r) (rows df) vals |}
  else Raise ValueError.

(** [df[col] = f(df[col])] for a cell-wise [f]. *)
Definition df_map_col (f : Q → Q) (df : DataFrame) (col : string) : result DataFrame :=
  vals ← df_getcol df col;
  df_setcol df col (map f vals).

(** [df.drop(col, axis=1)] *)
Definition df_drop (df : DataFrame) (col : string) : result DataFrame :=
  if decide (col ∈ columns df)
  then Ok {| columns := filter (λ c, c ≠ col) (columns df);
             rows := delete col <$> rows df |}
  else Raise KeyError.

(** [df[cols]] for a list of column names. *)
Definition df_select (df : DataFrame) (cols : list string) : result DataFrame :=
  if decide (cols ⊆ columns df)
  then Ok {| columns := cols;
             rows := (λ r : gmap string Q,
                        filter (λ kv : string * Q, kv.1 ∈ cols) r) <$> rows df |}
  else Raise KeyError.

(** The numeric matrix behind a frame, row by row in column order. *)
Definition to_numpy (df : DataFrame) : list (list Q) :=
  (λ r : gmap string Q, (λ c, default 0%Q (r !! c)) <$> columns df) <$> rows df.

(** [np.sum(y == c)] *)
Definition count_eq (c : Q) (y : list Q) : nat :=
  length (List.filter (λ v, Qeq_bool v c) y).

(** [seq[i]] on a Python list. *)
Definition list_getitem {A} (l : list A) (i : nat) : result A :=
  match l !! i with
  | Some a => Ok a
  | None => Raise IndexError
  end.

(** ** Randomness

    The script draws from numpy's global generator.  Each shuffling call
    receives the draws it consumes as a list of naturals; whatever the
    draws are, the result is a permutation of the input. *)

Definition insert_at {A} (i : nat) (x : A) (l : list A) : list A :=
  take i l ++ x :: drop i l.

Fixpoint shuffle {A} (keys : list nat) (l : list A) : list A :=
  match l with
  | [] => []
  | x :: l' =>
      let r := shuffle (tail keys) l' in
      insert_at (hd 0 keys `mod` S (length r)) x r
  end.

(** [df.sample(frac=1.0)] *)
Definition df_sample_frac (keys : list nat) (df : DataFrame) : DataFrame :=
  {| columns := columns df; rows := shuffle keys (rows df) |}.

(** [df.sample(n)]: [n] rows drawn without replacement. *)
Definition df_sample (keys : list nat) (n : nat) (df : DataFrame) : result DataFrame :=
  if decide (length (rows df) < n)
  then Raise ValueError
  else Ok {| columns := columns df; rows := take n (shuffle keys (rows df)) |}.

(** ** External collaborators (scikit-learn, imbalanced-learn)

    Their numerics are not part of the script.  The script is embedded
    over any implementation of the three interfaces below. *)

(** [StandardScaler]: [fit] computes the statistics of a matrix and
    refuses an empty one; [transform] then maps each row on its own. *)
Class StandardScaler : Type := {
  scaler : Type;
  sc_fit : list (list Q) → result scaler;
  sc_transform_row : scaler → list Q → list Q
}.

Definition sc_transform `{StandardScaler} (sc : scaler) (X : list (list Q))
  : list (list Q) :=
  sc_transform_row sc <$> X.

(** [NearestNeighbors(n_neighbors=1).fit(ref).kneighbors(q)] for one query
    row: distance to, and position of, the nearest fitted row. *)
Class NearestNeighbors : Type := {
  nn_nearest : list (list Q) → list Q → Q * nat
}.

(** SMOTE's interpolation: the [i]-th new row drawn for a class, given the
    rows of that class. *)
Class SmoteSampler : Type := {
  smote_make_sample : list (gmap string Q) → nat → gmap string Q
}.

(** ** standardise_data *)

(** [sc.transform(X)] of a fitted scaler refuses, with [ValueError], a
    matrix without rows and a matrix whose rows do not have the width of
    the rows the scaler was fitted on. *)
Definition transform_accepts (X_fit X : list (list Q)) : Prop :=
  0 < length X ∧ Forall (λ r, Forall (λ t, length r = length t) X_fit) X.

#[global] Instance transform_accepts_dec (X_fit X : list (list Q)) :
  Decision (transform_accepts X_fit X) := and_dec _ _.

Definition transform `{StandardScaler} (sc : scaler) (X_fit X : list (list Q))
  : result (list (list Q)) :=
  if decide (transform_accepts X_fit X) then Ok (sc_transform sc X)
  else Raise ValueError.

(** The training matrix has been accepted by [fit], so its own
    transformation goes through; the test matrix is checked. *)
Definition standardise_data `{StandardScaler} (X_train X_test : list (list Q))
  : result (list (list Q) * list (list Q)) :=
  sc ← sc_fit X_train;
  let train_std := sc_transform sc X_train in
  test_std ← transform sc X_train X_test;
  Ok (train_std, test_std).

(** ** SMOTE.fit_resample

    imbalanced-learn's over-sampler for a dictionary [sampling_strategy] of
    final class sizes, at the level the script depends on: which calls are
    refused, how many rows are added to each class and where they are put.
    The labels must be class labels: a float vector with a label that is
    not a whole number is refused ([check_classification_targets]).
    Every requested class must occur in [y] and may not be asked to shrink;
    a class that needs no new row is skipped; otherwise the class needs
    more than [k_neighbors] members for the neighbour search.  The new rows
    follow the original ones, class by class.  Every refusal is a
    [ValueError]. *)

Definition is_class_label (v : Q) : bool := Qeq_bool (inject_Z (Qfloor v)) v.

Definition k_neighbors : nat := 5.

Definition rows_of_class {A} (c : Q) (X : list A) (y : list Q) : list A :=
  fst <$> List.filter (λ p : A * Q, Qeq_bool p.2 c) (zip X y).

Definition smote_samples_needed (y : list Q) (entry : Q * Z) : result (Q * nat) :=
  let '(c, n) := entry in
  let existing := count_eq c y in
  if decide (existing = 0) then Raise ValueError
  else if decide (n < Z.of_nat existing)%Z then Raise ValueError
  else Ok (c, Z.to_nat (n - Z.of_nat existing)).

Definition smote_oversample_class `{SmoteSampler}
    (X : list (gmap string Q)) (y : list Q) (entry : Q * nat)
  : result (list (gmap string Q) * list Q) :=
  let '(c, n) := entry in
  if decide (n = 0) then Ok ([], [])
  else
    let X_class := rows_of_class c X y in
    if decide (length X_class ≤ k_neighbors) then Raise ValueError
    else Ok (smote_make_sample X_class <$> seq 0 n, replicate n c).

Definition fit_resample `{SmoteSampler}
    (sampling_strategy : list (Q * Z)) (X : list (gmap string Q)) (y : list Q)
  : result (list (gmap string Q) * list Q) :=
  if forallb is_class_label y then
    if decide (length X = length y) then
      needed ← mapM_result (smote_samples_needed y) sampling_strategy;
      new ← mapM_result (smote_oversample_class X y) needed;
      Ok (X ++ concat (fst <$> new), y ++ concat (snd <$> new))
    else Raise ValueError
  else Raise ValueError.

(** ** make_synthetic_data_smote

    [np.sum(y == c)] is an [np.int64], and so is its sum with an entry of
    [number_of_samples], a 64-bit integer itself (the script passes
    [list(original_frequency * 2)]): the sum wraps around silently. *)

Definition wrap64 (z : Z) : Z := ((z + 2 ^ 63) `mod` 2 ^ 64 - 2 ^ 63)%Z.

Definition make_synthetic_data_smote `{SmoteSampler}
    (X : list (gmap string Q)) (y : list Q) (number_of_samples : list Z)
  : result (list (gmap string Q) * list Q) :=
  let count_label_0 := Z.of_nat (count_eq 0 y) in
  let count_label_1 := Z.of_nat (count_eq 1 y) in
  ns0 ← list_getitem number_of_samples 0;
  let n_class_0 := wrap64 (ns0 + count_label_0) in
  ns1 ← list_getitem number_of_samples 1;
  let n_class_1 := wrap64 (ns1 + count_label_1) in
  '(X_resampled, y_resampled) ←
    fit_resample [(0%Q, n_class_0); (1%Q, n_class_1)] X y;
  let X_synthetic := drop (length X) X_resampled in
  let y_synthetic := drop (length y) y_resampled in
  Ok (X_synthetic, y_synthetic).

(** ** The schema of the stroke table *)

Definition categorical : list string :=
  ["gender_"; "work_type_"; "residence_type_"; "smoking_status_"]%string.

(** [x[0:len(col)] == col] *)
Definition has_prefix (col x : string) : Prop :=
  String.substring 0 (String.length col) x = col.

#[global] Instance has_prefix_dec col x : Decision (has_prefix col x).
Proof. unfold has_prefix. apply _. Defined.

Definition one_hot_cols (X_col_names : list string) : list (list string) :=
  (λ col, filter (has_prefix col) X_col_names) <$> categorical.

Definition integer_cols : list string := ["age"; "bmi"]%string.

Definition binary_cols : list string :=
  ["hypertension"; "heart_disease"; "ever_married"]%string.

Definition y_label : string := "stroke".

#[global] Arguments one_hot_cols : simpl never.
#[global] Arguments integer_cols : simpl never.
#[global] Arguments binary_cols : simpl never.

(** ** Constraint repair of the raw synthetic rows

    [iterrows] hands out each row as a view of the frame (the frame is a
    single block of floats), so the assignment to [row] in the loop body
    updates the frame itself. *)

Definition one_hot_row (one_hot_list : list string) (row : gmap string Q)
  : result (gmap string Q) :=
  x ← row_getitems row one_hot_list;
  x_one_hot ← make_one_hot x;
  Ok (row_setitems row one_hot_list x_one_hot).

Definition repair_one_hot (groups : list (list string)) (df : DataFrame)
  : result DataFrame :=
  rows' ← foldM_result
            (λ rs one_hot_list, mapM_result (one_hot_row one_hot_list) rs)
            (rows df) groups;
  Ok {| columns := columns df; rows := rows' |}.

Definition repair_integer (cols : list string) (df : DataFrame) : result DataFrame :=
  foldM_result (df_map_col round0) df cols.

Definition repair_binary (cols : list string) (df : DataFrame) : result DataFrame :=
  foldM_result (df_map_col (λ v, round0 (clip01 v))) df cols.

(** Lines 165 to 181, with [X_col_names] the columns of the frame. *)
Definition repair (df : DataFrame) : result DataFrame :=
  df ← repair_one_hot (one_hot_cols (columns df)) df;
  df ← repair_integer integer_cols df;
  repair_binary binary_cols df.

(** ** train_test_split(X, y, test_size = 0.20) *)

Definition test_size : Q := 1 # 5.

Definition train_test_split {A B} (keys : list nat) (X : list A) (y : list B)
  : result (list A * list A * list B * list B) :=
  if decide (length X = length y) then
    let n_samples := length X in
    let n_test := Z.to_nat (Qceiling (test_size * inject_Z (Z.of_nat n_samples))) in
    let n_train := n_samples - n_test in
    if decide (n_train = 0) then Raise ValueError
    else
      let X_perm := shuffle keys X in
      let y_perm := shuffle keys y in
      Ok (drop n_test X_perm, take n_test X_perm,
          drop n_test y_perm, take n_test y_perm)
  else Raise ValueError.

(** ** np.unique(y, return_counts=True): the counts, by ascending value *)

Fixpoint unique_insert (v : Q) (acc : list (Q * Z)) : list (Q * Z) :=
  match acc with
  | [] => [(v, 1%Z)]
  | (u, c) :: acc' =>
      match (v ?= u)%Q with
      | Eq => (u, (c + 1)%Z) :: acc'
      | Lt => (v, 1%Z) :: (u, c) :: acc'
      | Gt => (u, c) :: unique_insert v acc'
      end
  end.

Definition unique_counts (y : list Q) : list Z :=
  snd <$> foldr unique_insert [] y.

(** ** Nearest real neighbour, duplicate removal and trimming *)

Definition kneighbors `{NearestNeighbors} (X_real X_query : list (list Q))
  : list (Q * nat) :=
  nn_nearest X_real <$> X_query.

(** Lines 223 and 224: the two result lists are stored as new columns. *)
Definition store_neighbours (synth_df : DataFrame) (found : list (Q * nat))
  : result DataFrame :=
  synth_df ← df_setcol synth_df "distance_to_closest_real" (fst <$> found);
  df_setcol synth_df "closest_X_real_row_index"
    ((λ p : Q * nat, inject_Z (Z.of_nat p.2)) <$> found).

Definition duplicate_threshold : Q := 1 # 1000.

Definition Qlt_bool (a b : Q) : bool :=
  match (a ?= b)%Q with Lt => true | _ => false end.

(** Lines 227 and 229. *)
Definition remove_identical (synth_df : DataFrame) : result DataFrame :=
  d ← df_getcol synth_df "distance_to_closest_real";
  let identical := (λ v, Qlt_bool v duplicate_threshold) <$> d in
  Ok {| columns := columns synth_df;
        rows := fst <$> List.filter (λ p : gmap string Q * bool, negb p.2)
                          (zip (rows synth_df) identical) |}.

Definition proportion_to_remove : Q := 1 # 10.

(** Python's [int()] of a number: truncation towards zero. *)
Definition int_of (q : Q) : Z := Z.quot (Qnum q) (Z.pos (Qden q)).

(** [sort_values(col, ascending=False)]: rows by decreasing key.  Rows
    with equal keys keep their relative order here; pandas leaves their
    order open. *)
Fixpoint insert_desc {A} (x : Q * A) (l : list (Q * A)) : list (Q * A) :=
  match l with
  | [] => [x]
  | y :: l' =>
      match (x.1 ?= y.1)%Q with
      | Lt => y :: insert_desc x l'
      | _ => x :: y :: l'
      end
  end.

Definition sort_desc {A} (l : list (Q * A)) : list (Q * A) :=
  foldr insert_desc [] l.

Definition sort_values_desc (df : DataFrame) (col : string) : result DataFrame :=
  keys ← df_getcol df col;
  Ok {| columns := columns df; rows := snd <$> sort_desc (zip keys (rows df)) |}.

Definition df_head (n : Z) (df : DataFrame) : DataFrame :=
  {| columns := columns df; rows := take (Z.to_nat n) (rows df) |}.

(** Lines 232 to 241. *)
Definition trim_closest (synth_df : DataFrame) : result DataFrame :=
  synth_by_distance ← sort_values_desc synth_df "distance_to_closest_real";
  let number_to_keep :=
    int_of (inject_Z (Z.of_nat (length (rows synth_by_distance)))
            * (1 - proportion_to_remove)) in
  Ok (df_head number_to_keep synth_by_distance).

(** ** Rebalancing to the size of the real data *)

(** [df[df[col] == c]] *)
Definition df_where_eq (df : DataFrame) (col : string) (c : Q) : result DataFrame :=
  vals ← df_getcol df col;
  Ok {| columns := columns df;
        rows := fst <$> List.filter (λ p : gmap string Q * Q, Qeq_bool p.2 c)
                          (zip (rows df) vals) |}.

(** [pd.concat([a, b], axis=0)] of two frames with the same columns. *)
Definition df_concat (a b : DataFrame) : DataFrame :=
  {| columns := columns a; rows := rows a ++ rows b |}.

(** Lines 248 to 257. *)
Definition rebalance (keys_died keys_survived keys_shuffle : list nat)
    (number_died number_survived : nat) (synth_df : DataFrame) : result DataFrame :=
  masked ← df_where_eq synth_df "stroke" 0;
  synth_died ← df_sample keys_died number_died masked;
  masked ← df_where_eq synth_df "stroke" 1;
  synth_survived ← df_sample keys_survived number_survived masked;
  let synth_df := df_concat synth_died synth_survived in
  Ok (df_sample_frac keys_shuffle synth_df).

(** ** Row-wise view of the repair, and the constraints of the schema *)

(** [row[col] = f(row[col])] *)
Definition update_cell (f : Q → Q) (row : gmap string Q) (col : string)
  : result (gmap string Q) :=
  v ← getitem row col;
  Ok (<[col := f v]> row).

(** What [repair] does to a single row of a frame with columns [cols]. *)
Definition repair_row (cols : list string) (row : gmap string Q)
  : result (gmap string Q) :=
  r ← foldM_result (λ r g, one_hot_row g r) row (one_hot_cols cols);
  r ← foldM_result (update_cell round0) r integer_cols;
  foldM_result (update_cell (λ v, round0 (clip01 v))) r binary_cols.

Definition cells_sum (l : list Q) : Q := foldr Qplus 0%Q l.

(** The list of length [n] holding 1 at position [h] and 0 elsewhere. *)
Definition one_hot_at (h n : nat) : list Q := <[h := 1%Q]> (replicate n 0%Q).

(** In [row] exactly one member of the group [g] is 1, the others are 0. *)
Definition group_ok (g : list string) (row : gmap string Q) : Prop :=
  ∃ h, h < length g ∧ row_getitems row g = Ok (one_hot_at h (length g)).

Definition integer_ok (c : string) (row : gmap string Q) : Prop :=
  ∃ z, row !! c = Some (inject_Z z).

Definition binary_ok (c : string) (row : gmap string Q) : Prop :=
  row !! c = Some 0%Q ∨ row !! c = Some 1%Q.

(** The structural constraints of the schema on one row. *)
Definition row_ok (cols : list string) (row : gmap string Q) : Prop :=
  Forall (λ g, group_ok g row) (one_hot_cols cols) ∧
  Forall (λ c, integer_ok c row) integer_cols ∧
  Forall (λ c, binary_ok c row) binary_cols.

Fixpoint pairwise_disjoint (gs : list (list string)) : Prop :=
  match gs with
  | [] => True
  | g :: gs' => Forall (λ g', g ## g') gs' ∧ pairwise_disjoint gs'
  end.

(** ** Conditions of the SMOTE call *)

(** The class [c] can receive [n] new rows: it occurs in [y], [n] is not
    negative and, unless [n] is zero, the class has more than
    [k_neighbors] members. *)
Definition smote_accepts (y : list Q) (c : Q) (n : Z) : Prop :=
  0 < count_eq c y ∧ (0 ≤ n)%Z ∧ (n = 0%Z ∨ k_neighbors < count_eq c y).

(** The range of an [np.int64]. *)
Definition int64 (z : Z) : Prop := (- 2 ^ 63 ≤ z < 2 ^ 63)%Z.

(** Every label is a whole number. *)
Definition class_labels (y : list Q) : Prop :=
  Forall (λ v, is_class_label v = true) y.

(** The request of [n] new rows for the class [c] goes through: SMOTE
    accepts it and the final class size [n + count] is an [np.int64]. *)
Definition request_accepted (y : list Q) (c : Q) (n : Z) : Prop :=
  smote_accepts y c n ∧ int64 (n + Z.of_nat (count_eq c y)).

(** ** Order of the trimmed table *)

(** Keys never increase from [a] to [b]. *)
Definition desc {A} (a b : Q * A) : Prop := (b.1 <= a.1)%Q.

(** The cell [col] of [r'] is not larger than that of [r]. *)
Definition row_desc (col : string) (r r' : gmap string Q) : Prop :=
  ∀ d d', r !! col = Some d → r' !! col = Some d' → (d' <= d)%Q.

(** ** The script, from the loaded table to the two model fits *)

(** The draws consumed by the six shuffling calls, in program order. *)
Record Randomness : Type := mkRandomness {
  rnd_split : list nat;
  rnd_shuffle_synth : list nat;
  rnd_shuffle_kept : list nat;
  rnd_died : list nat;
  rnd_survived : list nat;
  rnd_shuffle_final : list nat
}.

(** Lines 156 to 229: the synthetic frame is built from the raw SMOTE
    rows, repaired, labelled and shuffled; the raw rows [X_synthetic] are
    standardised on the real training data and searched for their nearest
    real row; the distances are stored in the frame and rows whose stored
    distance is below the threshold are removed. *)
Definition checked_synth_df `{StandardScaler, NearestNeighbors}
    (keys : list nat) (X_train : DataFrame) (X_test_std : list (list Q))
    (X_synthetic : DataFrame) (y_synthetic : list Q) : result DataFrame :=
  let X_col_names := columns X_train in
  let synth_df := {| columns := X_col_names; rows := rows X_synthetic |} in
  synth_df ← repair synth_df;
  synth_df ← df_setcol synth_df y_label y_synthetic;
  let synth_df := df_sample_frac keys synth_df in
  '(X_train_std, X_synth_std) ←
    standardise_data (to_numpy X_train) (to_numpy X_synthetic);
  let X_real_std := X_train_std ++ X_test_std in
  let found := kneighbors X_real_std X_synth_std in
  synth_df ← store_neighbours synth_df found;
  remove_identical synth_df.

(** Lines 265 to 271: what [model_synth.fit] receives, and the test matrix
    it then predicts. *)
Definition fit_model_synth `{StandardScaler}
    (X_col_names : list string) (synth_df X_test : DataFrame)
  : result (list (list Q) * list Q * list (list Q)) :=
  X_synth ← df_select synth_df X_col_names;
  y_synth ← df_getcol synth_df "stroke";
  '(X_synth_std, X_test_std) ←
    standardise_data (to_numpy X_synth) (to_numpy X_test);
  Ok (X_synth_std, y_synth, X_test_std).

Record Outcome : Type := mkOutcome {
  out_synth_df : DataFrame;
  out_model_fit : list (list Q) * list Q;
  out_model_synth_fit : list (list Q) * list Q;
  out_X_test_std : list (list Q)
}.

Definition pipeline `{StandardScaler, NearestNeighbors, SmoteSampler}
    (rnd : Randomness) (data : DataFrame) : result Outcome :=
  stroke ← df_getcol data "stroke";
  let number_died := count_eq 0 stroke in
  let number_survived := count_eq 1 stroke in
  X ← df_drop data "stroke";
  y ← df_getcol data "stroke";
  '(X_train_rows, X_test_rows, y_train, y_test) ←
    train_test_split (rnd_split rnd) (rows X) y;
  let X_train := {| columns := columns X; rows := X_train_rows |} in
  let X_test := {| columns := columns X; rows := X_test_rows |} in
  '(X_train_std, X_test_std) ←
    standardise_data (to_numpy X_train) (to_numpy X_test);
  let original_frequency := unique_counts y_train in
  let required_smote_count := (λ c, c * 2)%Z <$> original_frequency in
  '(X_synthetic_rows, y_synthetic) ←
    make_synthetic_data_smote (rows X_train) y_train required_smote_count;
  let X_synthetic := {| columns := columns X_train; rows := X_synthetic_rows |} in
  let X_col_names := columns X_train in
  synth_df ←
    checked_synth_df (rnd_shuffle_synth rnd) X_train X_test_std X_synthetic y_synthetic;
  synth_by_distance ← trim_closest synth_df;
  let synth_df := df_sample_frac (rnd_shuffle_kept rnd) synth_by_distance in
  synth_df ←
    rebalance (rnd_died rnd) (rnd_survived rnd) (rnd_shuffle_final rnd)
      number_died number_survived synth_df;
  '(X_synth_std, y_synth, X_test_std') ← fit_model_synth X_col_names synth_df X_test;
  Ok {| out_synth_df := synth_df;
        out_model_fit := (X_train_std, y_train);
        out_model_synth_fit := (X_synth_std, y_synth);
        out_X_test_std := X_test_std' |}.

(** Lines 126 to 245 on their own: the synthetic table as it reaches the
    rebalancing, generated from the training partition, checked against
    the real rows, trimmed and shuffled. *)
Definition synthetic_pool `{StandardScaler, NearestNeighbors, SmoteSampler}
    (rnd : Randomness) (X_train X_test : DataFrame) (y_train : list Q)
  : result DataFrame :=
  '(X_train_std, X_test_std) ←
    standardise_data (to_numpy X_train) (to_numpy X_test);
  let original_frequency := unique_counts y_train in
  let required_smote_count := (λ c, c * 2)%Z <$> original_frequency in
  '(X_synthetic_rows, y_synthetic) ←
    make_synthetic_data_smote (rows X_train) y_train required_smote_count;
  let X_synthetic := {| columns := columns X_train; rows := X_synthetic_rows |} in
  synth_df ←
    checked_synth_df (rnd_shuffle_synth rnd) X_train X_test_std X_synthetic y_synthetic;
  synth_by_distance ← trim_closest synth_df;
  Ok (df_sample_frac (rnd_shuffle_kept rnd) synth_by_distance).

(** The cells of a row in the order of [cols]. *)
Definition row_values (cols : list string) (r : gmap string Q) : list Q :=
  (λ c, default 0%Q (r !! c)) <$> cols.

(** The nearest real row of a record: its features are standardised with
    the scaler fitted on the real training data and looked up among the
    standardised real rows, training rows first. *)
Definition nearest_real `{StandardScaler, NearestNeighbors}
    (sc : scaler) (X_train : DataFrame) (X_test_std : list (list Q))
    (r : gmap string Q) : Q * nat :=
  nn_nearest (sc_transform sc (to_numpy X_train) ++ X_test_std)
    (sc_transform_row sc (row_values (columns X_train) r)).

(** The distance from a record to its nearest real row. *)
Definition distance_to_real `{StandardScaler, NearestNeighbors}
    (sc : scaler) (X_train : DataFrame) (X_test_std : list (list Q))
    (r : gmap string Q) : Q :=
  (nearest_real sc X_train X_test_std r).1.

(** ** Reference collaborators

    Computable instances of the three interfaces, used to run the script
    on small tables.  The square root is exact on squares of rationals and
    rounds down in the seventh decimal elsewhere; the SMOTE draw is not
    random: the [i]-th new row of a class lies half-way between its [i]-th
    row and the next one. *)

Module Reference.

Definition sqrt_cell (q : Q) : Q :=
  let r := Qred q in
  Qred (Z.sqrt (Qnum r * Z.pos (Qden r) * 10 ^ 12) # Qden r * 10 ^ 6).

Definition column (j : nat) (X : list (list Q)) : list Q :=
  (λ r : list Q, default 0%Q (r !! j)) <$> X.

Definition mean (l : list Q) : Q :=
  Qred (cells_sum l / inject_Z (Z.of_nat (length l))).

Definition variance (l : list Q) : Q :=
  let m := mean l in
  Qred (cells_sum ((λ x, (x - m) * (x - m))%Q <$> l) / inject_Z (Z.of_nat (length l))).

(** A column without spread is left unscaled. *)
Definition scale_of (l : list Q) : Q :=
  let s := sqrt_cell (variance l) in
  if Qeq_bool s 0 then 1%Q else s.

Record fitted : Type := mkFitted { mean_ : list Q; scale_ : list Q }.

Definition fit (X : list (list Q)) : result fitted :=
  match X with
  | [] => Raise ValueError
  | r :: _ =>
      let js := seq 0 (length r) in
      Ok {| mean_ := (λ j, mean (column j X)) <$> js;
            scale_ := (λ j, scale_of (column j X)) <$> js |}
  end.

Definition transform_row (sc : fitted) (r : list Q) : list Q :=
  zip_with (λ x ms, Qred ((x - ms.1) / ms.2)) r (zip (mean_ sc) (scale_ sc)).

#[global] Instance standard_scaler : StandardScaler :=
  {| scaler := fitted; sc_fit := fit; sc_transform_row := transform_row |}.

Definition euclidean (a b : list Q) : Q :=
  sqrt_cell (cells_sum (zip_with (λ x y, (x - y) * (x - y))%Q a b)).

Fixpoint nearest_from (q : list Q) (best : Q * nat) (i : nat) (ref : list (list Q))
  : Q * nat :=
  match ref with
  | [] => best
  | p :: ref' =>
      let d := euclidean q p in
      nearest_from q (if Qlt_bool d best.1 then (d, i) else best) (S i) ref'
  end.

Definition nearest (ref : list (list Q)) (q : list Q) : Q * nat :=
  match ref with
  | [] => (0%Q, 0)
  | p :: ref' => nearest_from q (euclidean q p, 0) 1 ref'
  end.

#[global] Instance nearest_neighbors : NearestNeighbors :=
  {| nn_nearest := nearest |}.

Definition midpoint (a b : gmap string Q) : gmap string Q :=
  map_zip_with (λ x y, Qred (x + (1 # 2) * (y - x))) a b.

Definition make_sample (X_class : list (gmap string Q)) (i : nat) : gmap string Q :=
  let n := length X_class in
  midpoint (default ∅ (X_class !! (i `mod` n)))
           (default ∅ (X_class !! (S i `mod` n))).

#[global] Instance smote_sampler : SmoteSampler :=
  {| smote_make_sample := make_sample |}.

End Reference.

(** ** Small tables *)

Module Tables.

Definition X_col_names : list string :=
  ["gender_female"; "gender_male"; "age"; "hypertension"; "heart_disease";
   "ever_married"; "work_type_private"; "work_type_self"; "residence_type_rural";
   "residence_type_urban"; "avg_glucose_level"; "bmi"; "smoking_status_never";
   "smoking_status_smokes"]%string.

Definition mk_row (cols : list string) (vals : list Q) : gmap string Q :=
  list_to_map (zip cols vals).

Definition mk_frame (cols : list string) (cells : list (list Q)) : DataFrame :=
  {| columns := cols; rows := mk_row cols <$> cells |}.

(** A raw interpolated row: fractional one-hot members, age, bmi and
    binary cells. *)
Definition raw_cells : list Q :=
  [3 # 10; 7 # 10; 123 # 2; 1 # 2; 3 # 4; -1 # 5; 1 # 2; 1 # 2; 11 # 10;
   -1 # 10; 917 # 10; 57 # 2; 0; 0]%Q.

Definition repaired_cells : list Q :=
  [0; 1; 62; 0; 1; 0; 1; 0; 1; 0; 917 # 10; 28; 1; 0]%Q.

(** A real record of class [label]: the class decides the bmi, all other
    features but the age are those of [repaired_cells]. *)
Definition patient (age : Z) (label : Z) : list Q :=
  [0; 1; inject_Z age; 0; 1; 0; 1; 0; 1; 0; 917 # 10;
   inject_Z (28 + 3 * label); 1; 0; inject_Z label]%Q.

(** Twenty real records, alternating between class 0 and class 1, with
    ages 40, 44, ..., 76 in either class. *)
Definition data : DataFrame :=
  mk_frame (X_col_names ++ ["stroke"%string])
    ((λ i, patient (40 + 4 * Z.of_nat (i / 2)) (Z.of_nat (i `mod` 2))) <$> seq 0 20).

Definition no_draws : Randomness :=
  {| rnd_split := []; rnd_shuffle_synth := []; rnd_shuffle_kept := [];
     rnd_died := []; rnd_survived := []; rnd_shuffle_final := [] |}.

(** Labels of 700 class-0 and 300 class-1 records, and as many rows. *)
Definition y_700_300 : list Q := replicate 700 0%Q ++ replicate 300 1%Q.
Definition X_700_300 : list (gmap string Q) := replicate 1000 (mk_row X_col_names raw_cells).

(** Six records of class 0 and a single record of class 1. *)
Definition y_6_1 : list Q := replicate 6 0%Q ++ [1%Q].
Definition X_6_1 : list (gmap string Q) := replicate 7 (mk_row X_col_names raw_cells).

(** One feature only: two real training records, one real test record
    and a labelled synthetic table. *)
Definition train_age : DataFrame := mk_frame ["age"%string] [[40]; [44]]%Q.
Definition test_age : DataFrame := mk_frame ["age"%string] [[48]]%Q.
Definition synth_age : DataFrame :=
  mk_frame ["age"; "stroke"]%string [[50; 0]; [54; 1]]%Q.

(** The features of a [patient]. *)
Definition features (age : Z) (label : Z) : list Q := take 14 (patient age label).

(** Three real training records of ages 40, 44 and 48, and two raw
    synthetic rows that already satisfy the schema: the first is a copy of
    the real record of age 44, the second lies between two real records. *)
Definition train_3 : DataFrame :=
  mk_frame X_col_names [features 40 0; features 44 0; features 48 0].
Definition synth_copy : gmap string Q := mk_row X_col_names (features 44 0).
Definition synth_new : gmap string Q := mk_row X_col_names (features 46 0).
Definition synth_pair : DataFrame :=
  {| columns := columns train_3; rows := [synth_copy; synth_new] |}.

(** Two raw synthetic rows that are no copies: the first, of age 45, is
    closer to the real records than the second, of age 46. *)
Definition synth_near : gmap string Q := mk_row X_col_names (features 45 0).
Definition synth_two : DataFrame :=
  {| columns := columns train_3; rows := [synth_near; synth_new] |}.

(** The reference scaler fitted on [train_3]. *)
Definition scaler_3 : Reference.fitted :=
  match Reference.fit (to_numpy train_3) with
  | Ok sc => sc
  | Raise _ => {| Reference.mean_ := []; Reference.scale_ := [] |}
  end.

(** A table of 1000 rows whose stored distances are 1, 2, ..., 1000
    thousandths. *)
Definition distances_1000 : DataFrame :=
  mk_frame ["distance_to_closest_real"%string]
    ((λ i, [Qred (inject_Z (Z.of_nat (S i)) / 1000)]) <$> seq 0 1000).

(** A filtered synthetic pool: three rows of class 0 and two of class 1. *)
Definition pool_3_2 : DataFrame :=
  mk_frame ["age"; "stroke"]%string [[50; 0]; [54; 1]; [58; 0]; [62; 1]; [66; 0]]%Q.

End Tables.
(** ** Facts about cells *)

Lemma fmul_0_r (v : Q) : fmul v 0 = 0%Q.
Proof.
  unfold fmul. rewrite (Qred_complete (v * 0) 0); [reflexivity | ring].
Qed.

Lemma Qfloor_inject_Z (z : Z) : Qfloor (inject_Z z) = z.
Proof. unfold Qfloor, inject_Z. simpl. apply Z.div_1_r. Qed.

Lemma round0_inject_Z (z : Z) : round0 (inject_Z z) = inject_Z z.
Proof.
  unfold round0. rewrite Qfloor_inject_Z.
  assert (H : (inject_Z z - inject_Z z ?= 1 # 2)%Q = Lt).
  { rewrite <- Qlt_alt. unfold Qlt, Qminus, Qplus, Qopp, inject_Z. cbn [Qnum Qden Z.opp]. lia. }
  now rewrite H.
Qed.

Lemma round0_is_integer (q : Q) : ∃ z, round0 q = inject_Z z.
Proof.
  unfold round0. destruct (_ ?= _)%Q; [destruct (Z.even _)| |]; eauto.
Qed.

Lemma round0_idem (q : Q) : round0 (round0 q) = round0 q.
Proof. destruct (round0_is_integer q) as [z ->]. apply round0_inject_Z. Qed.

Lemma clip01_range (q : Q) : (0 <= clip01 q <= 1)%Q.
Proof.
  unfold clip01.
  destruct (q ?= 0)%Q eqn:H0; [| split; discriminate |];
    (destruct (q ?= 1)%Q eqn:H1; [| | split; discriminate]);
    (split; [rewrite Qle_alt, <- Qcompare_antisym, H0 | rewrite Qle_alt, H1]);
    discriminate.
Qed.

Lemma round0_clip01 (q : Q) :
  round0 (clip01 q) = 0%Q ∨ round0 (clip01 q) = 1%Q.
Proof.
  destruct (clip01_range q) as [H0 H1]. set (c := clip01 q) in *.
  assert (Hf : (Qfloor c = 0 ∨ Qfloor c = 1)%Z).
  { apply Qfloor_resp_le in H0, H1. change (Qfloor 0) with 0%Z in H0.
    change (Qfloor 1) with 1%Z in H1. lia. }
  unfold round0. destruct Hf as [-> | ->].
  - destruct (_ ?= _)%Q; simpl; auto.
  - assert (H : (c - inject_Z 1 ?= 1 # 2)%Q = Lt).
    { rewrite <- Qlt_alt. apply Qle_lt_trans with 0%Q; [|reflexivity].
      unfold Qle, Qminus, Qplus, Qopp, inject_Z in *. cbn [Qnum Qden Z.opp] in *. lia. }
    rewrite H. auto.
Qed.

(** ** Facts about [argmax] and [make_one_hot] *)

Lemma argmax_from_spec (l : list Q) : ∀ best besti i,
  let h := argmax_from best besti i l in
  (h = besti ∧ Forall (λ v, (v <= best)%Q) l) ∨
  (∃ k m, h = i + k ∧ l !! k = Some m ∧ (best < m)%Q ∧
          Forall (λ v, (v <= m)%Q) l ∧
          ∀ j v, j < k → l !! j = Some v → (v < m)%Q).
Proof.
  induction l as [|v l IH]; intros best besti i; simpl.
  - left. split; [reflexivity | constructor].
  - destruct (best ?= v)%Q eqn:Hc.
    + apply Qeq_alt in Hc.
      destruct (IH best besti (S i)) as [[-> Hall] | (k & m & -> & Hk & Hlt & Hall & Hfirst)].
      * left. split; [reflexivity|]. constructor; [rewrite Hc; apply Qle_refl | exact Hall].
      * right. exists (S k), m. repeat split; [lia | exact Hk | exact Hlt | |].
        -- constructor; [rewrite <- Hc; now apply Qlt_le_weak | exact Hall].
        -- intros [|j] w Hj Hw; simpl in Hw.
           ++ injection Hw as <-. now rewrite <- Hc.
           ++ apply (Hfirst j); [lia | exact Hw].
    + apply Qlt_alt in Hc.
      destruct (IH v i (S i)) as [[-> Hall] | (k & m & -> & Hk & Hlt & Hall & Hfirst)].
      * right. exists 0, v. repeat split; [lia | exact Hc | | intros; lia].
        constructor; [apply Qle_refl | exact Hall].
      * right. exists (S k), m. repeat split; [lia | exact Hk | | |].
        -- now apply Qlt_trans with v.
        -- constructor; [now apply Qlt_le_weak | exact Hall].
        -- intros [|j] w Hj Hw; simpl in Hw.
           ++ now injection Hw as <-.
           ++ apply (Hfirst j); [lia | exact Hw].
    + apply Qgt_alt in Hc.
      destruct (IH best besti (S i)) as [[-> Hall] | (k & m & -> & Hk & Hlt & Hall & Hfirst)].
      * left. split; [reflexivity|]. constructor; [now apply Qlt_le_weak | exact Hall].
      * right. exists (S k), m. repeat split; [lia | exact Hk | exact Hlt | |].
        -- constructor; [apply Qlt_le_weak; now apply Qlt_trans with best | exact Hall].
        -- intros [|j] w Hj Hw; simpl in Hw.
           ++ injection Hw as <-. now apply Qlt_trans with best.
           ++ apply (Hfirst j); [lia | exact Hw].
Qed.

(** [argmax] returns the first position holding the largest value. *)
Lemma argmax_spec (x : list Q) (h : nat) :
  argmax x = Ok h →
  ∃ m, x !! h = Some m ∧
       (∀ j v, x !! j = Some v → (v <= m)%Q) ∧
       (∀ j v, j < h → x !! j = Some v → (v < m)%Q).
Proof.
  destruct x as [|v l]; simpl; [discriminate|]. intros [= <-].
  destruct (argmax_from_spec l v 0 1) as [[-> Hall] | (k & m & -> & Hk & Hlt & Hall & Hfirst)].
  - exists v. repeat split; [| intros; lia].
    intros [|j] w Hw; simpl in Hw; [injection Hw as <-; apply Qle_refl|].
    rewrite Forall_forall in Hall. apply Hall. eapply list_elem_of_lookup_2, Hw.
  - exists m. repeat split; [exact Hk | |].
    + intros [|j] w Hw; simpl in Hw; [injection Hw as <-; now apply Qlt_le_weak|].
      rewrite Forall_forall in Hall. apply Hall. eapply list_elem_of_lookup_2, Hw.
    + intros [|j] w Hj Hw; simpl in Hw; [now injection Hw as <-|].
      apply (Hfirst j); [lia | exact Hw].
Qed.

Lemma argmax_nonempty (x : list Q) : x ≠ [] → ∃ h, argmax x = Ok h.
Proof. destruct x; [congruence | simpl; eauto]. Qed.

Lemma argmax_empty : argmax [] = Raise ValueError.
Proof. reflexivity. Qed.

Lemma make_one_hot_unfold (x : list Q) (h : nat) :
  argmax x = Ok h →
  make_one_hot x = Ok (<[h := 1%Q]> (replicate (length x) 0%Q)).
Proof.
  intros Hh. unfold make_one_hot. rewrite Hh. simpl. do 2 f_equal.
  clear Hh. induction x as [|v x IH]; simpl; [reflexivity|].
  now rewrite fmul_0_r, IH.
Qed.

Example make_one_hot_ex :
  make_one_hot [(-3 # 2); (7 # 10); (-1 # 5); (7 # 10)]%Q = Ok [0; 1; 0; 0]%Q.
Proof. reflexivity. Qed.


(** ** The error monad *)

Lemma bind_Ok {A B} (m : result A) (f : A → result B) (b : B) :
  (m ≫= f) = Ok b → ∃ a, m = Ok a ∧ f a = Ok b.
Proof. destruct m as [a|e]; simpl; [eauto | discriminate]. Qed.

(** Splits a successful run of a sequence of binds into its steps. *)
Ltac inv_bind H :=
  let a := fresh "a" in
  let Ha := fresh "Hstep" in
  apply bind_Ok in H as (a & Ha & H).

Lemma mapM_result_Ok {A B} (f : A → result B) (l : list A) (l' : list B) :
  mapM_result f l = Ok l' → Forall2 (λ a b, f a = Ok b) l l'.
Proof.
  revert l'. induction l as [|a l IH]; simpl; intros l' H.
  - injection H as <-. constructor.
  - inv_bind H. inv_bind H. injection H as <-. constructor; auto.
Qed.

Lemma Forall2_mapM_result {A B} (f : A → result B) (l : list A) (l' : list B) :
  Forall2 (λ a b, f a = Ok b) l l' → mapM_result f l = Ok l'.
Proof. induction 1 as [|a b l l' Hab _ IH]; simpl; [done|]. now rewrite Hab, IH. Qed.

Lemma mapM_result_id {A} (f : A → result A) (l : list A) :
  Forall (λ a, f a = Ok a) l → mapM_result f l = Ok l.
Proof. induction 1 as [|a l Ha _ IH]; simpl; [done|]. now rewrite Ha, IH. Qed.

Lemma Forall2_compose {A B C} (R : A → B → Prop) (S : B → C → Prop) l1 l2 l3 :
  Forall2 R l1 l2 → Forall2 S l2 l3 → Forall2 (λ a c, ∃ b, R a b ∧ S b c) l1 l3.
Proof.
  intros H. revert l3. induction H; intros l3 H3; inversion H3; subst;
    constructor; eauto.
Qed.

(** A fold of row-wise passes acts on each row by the fold of the passes. *)
Lemma foldM_mapM_rows {A P} (f : P → A → result A) (ps : list P) :
  ∀ rs rs',
    foldM_result (λ rs p, mapM_result (f p) rs) rs ps = Ok rs' →
    Forall2 (λ r r', foldM_result (λ r p, f p r) r ps = Ok r') rs rs'.
Proof.
  induction ps as [|p ps IH]; simpl; intros rs rs' H.
  - injection H as <-. induction rs; constructor; auto.
  - inv_bind H. apply mapM_result_Ok in Hstep. apply IH in H.
    eapply Forall2_impl; [exact (Forall2_compose _ _ _ _ _ Hstep H)|].
    simpl. intros r r' (b & -> & Hb). exact Hb.
Qed.

(** ** Rows *)

Lemma getitem_Ok (row : gmap string Q) k v : getitem row k = Ok v ↔ row !! k = Some v.
Proof. unfold getitem. destruct (row !! k); split; congruence. Qed.

Lemma row_getitems_Ok (row : gmap string Q) keys vals :
  row_getitems row keys = Ok vals ↔ Forall2 (λ k v, row !! k = Some v) keys vals.
Proof.
  unfold row_getitems. split.
  - intros H. apply mapM_result_Ok in H.
    eapply Forall2_impl; [exact H|]. intros k v. apply getitem_Ok.
  - intros H. apply Forall2_mapM_result.
    eapply Forall2_impl; [exact H|]. intros k v. apply getitem_Ok.
Qed.

Lemma row_getitems_length (row : gmap string Q) keys vals :
  row_getitems row keys = Ok vals → length vals = length keys.
Proof. rewrite row_getitems_Ok. intros H. symmetry. eapply Forall2_length, H. Qed.

Lemma row_setitems_notin (row : gmap string Q) keys vals k :
  k ∉ keys → row_setitems row keys vals !! k = row !! k.
Proof.
  intros Hk. unfold row_setitems. rewrite lookup_union_r; [done|].
  apply not_elem_of_list_to_map_1. intros Hin. apply Hk.
  apply list_elem_of_fmap in Hin as ([k' v] & -> & Hin). simpl.
  apply elem_of_zip_l in Hin. exact Hin.
Qed.

Lemma NoDup_fst_zip {A B} (l : list A) (k : list B) : NoDup l → NoDup (zip l k).*1.
Proof.
  intros H. revert k. induction H as [|x l Hx _ IH]; intros [|y k]; simpl;
    try constructor; [|apply IH].
  intros Hin. apply Hx. apply list_elem_of_fmap in Hin as ([x' y'] & -> & Hin).
  eapply elem_of_zip_l, Hin.
Qed.

Lemma row_setitems_in (row : gmap string Q) keys vals i k v :
  NoDup keys → keys !! i = Some k → vals !! i = Some v →
  row_setitems row keys vals !! k = Some v.
Proof.
  intros Hnd Hk Hv. unfold row_setitems. apply lookup_union_Some_l.
  apply elem_of_list_to_map_1.
  - now apply NoDup_fst_zip.
  - apply list_elem_of_lookup. exists i. rewrite lookup_zip_with, Hk. simpl. now rewrite Hv.
Qed.

(** Writing back the cells a row already holds leaves it unchanged. *)
Lemma row_setitems_same (row : gmap string Q) keys vals :
  row_getitems row keys = Ok vals → row_setitems row keys vals = row.
Proof.
  rewrite row_getitems_Ok. intros H. unfold row_setitems. apply map_eq. intros k.
  destruct ((list_to_map (zip keys vals) : gmap string Q) !! k) as [v|] eqn:Hl.
  - rewrite (lookup_union_Some_l _ _ _ _ Hl). symmetry.
    apply elem_of_list_to_map_2 in Hl.
    apply list_elem_of_lookup in Hl as [i Hi].
    rewrite lookup_zip_with in Hi.
    destruct (keys !! i) as [k'|] eqn:Hk; simpl in Hi; [|discriminate].
    destruct (vals !! i) as [v'|] eqn:Hv; simpl in Hi; [|discriminate].
    injection Hi as -> ->.
    eapply Forall2_lookup_lr in H; eauto.
  - now rewrite lookup_union_r.
Qed.

(** ** One-hot lists *)

Lemma one_hot_at_length h n : length (one_hot_at h n) = n.
Proof. unfold one_hot_at. now rewrite length_insert, length_replicate. Qed.

Lemma one_hot_at_lookup h n j :
  j < n → one_hot_at h n !! j = Some (if decide (j = h) then 1%Q else 0%Q).
Proof.
  intros Hj. unfold one_hot_at. destruct (decide (j = h)) as [->|Hne].
  - apply list_lookup_insert_eq. now rewrite length_replicate.
  - rewrite list_lookup_insert_ne by congruence. now apply lookup_replicate_2.
Qed.

Lemma one_hot_at_cases h n j v :
  one_hot_at h n !! j = Some v → v = 0%Q ∨ v = 1%Q.
Proof.
  intros Hv. assert (Hj : j < n).
  { apply lookup_lt_Some in Hv. now rewrite one_hot_at_length in Hv. }
  rewrite one_hot_at_lookup in Hv by exact Hj.
  destruct (decide (j = h)); injection Hv as <-; auto.
Qed.

Lemma make_one_hot_is_one_hot (x x' : list Q) :
  make_one_hot x = Ok x' → ∃ h, h < length x ∧ x' = one_hot_at h (length x).
Proof.
  intros H. destruct x as [|v l] eqn:Hx; [discriminate|]. rewrite <- Hx in *.
  destruct (argmax_nonempty x) as [h Hh]; [now rewrite Hx|].
  rewrite (make_one_hot_unfold _ _ Hh) in H. injection H as <-.
  exists h. split; [|reflexivity].
  destruct (argmax_spec _ _ Hh) as (m & Hm & _). now apply lookup_lt_Some in Hm.
Qed.

Lemma argmax_one_hot_at h n : h < n → argmax (one_hot_at h n) = Ok h.
Proof.
  intros Hh. destruct (argmax_nonempty (one_hot_at h n)) as [h' Hh'].
  { intros Hnil. apply (f_equal length) in Hnil.
    rewrite one_hot_at_length in Hnil. simpl in Hnil. lia. }
  rewrite Hh'. f_equal.
  destruct (argmax_spec _ _ Hh') as (m & Hm & Hmax & _).
  assert (Hlt : h' < n).
  { apply lookup_lt_Some in Hm. now rewrite one_hot_at_length in Hm. }
  rewrite one_hot_at_lookup in Hm by exact Hlt.
  destruct (decide (h' = h)) as [|Hne]; [assumption|]. injection Hm as <-.
  specialize (Hmax h 1%Q). rewrite one_hot_at_lookup in Hmax by exact Hh.
  destruct (decide (h = h)); [|congruence].
  specialize (Hmax eq_refl). exfalso. apply Qle_not_lt in Hmax. now apply Hmax.
Qed.

Lemma make_one_hot_one_hot_at h n :
  h < n → make_one_hot (one_hot_at h n) = Ok (one_hot_at h n).
Proof.
  intros Hh. rewrite (make_one_hot_unfold _ h) by now apply argmax_one_hot_at.
  now rewrite one_hot_at_length.
Qed.

Lemma cells_sum_replicate_0 n : cells_sum (replicate n 0%Q) = 0%Q.
Proof.
  unfold cells_sum. induction n as [|n IH]; [reflexivity|].
  change (replicate (S n) 0%Q) with (0%Q :: replicate n 0%Q).
  cbn [foldr]. now rewrite IH.
Qed.

Lemma cells_sum_one_hot_at h n : h < n → cells_sum (one_hot_at h n) = 1%Q.
Proof.
  unfold one_hot_at. revert h. induction n as [|n IH]; intros h Hh; [lia|].
  change (replicate (S n) 0%Q) with (0%Q :: replicate n 0%Q).
  destruct h as [|h]; unfold cells_sum in *; cbn [insert list_insert foldr].
  - fold (cells_sum (replicate n 0%Q)). now rewrite cells_sum_replicate_0.
  - rewrite IH by lia. reflexivity.
Qed.

(** ** The one-hot pass on a row *)

Lemma row_getitems_ext (row row' : gmap string Q) g :
  (∀ k, k ∈ g → row' !! k = row !! k) → row_getitems row' g = row_getitems row g.
Proof.
  unfold row_getitems. induction g as [|k g IH]; intros H; simpl; [reflexivity|].
  assert (Hk : getitem row' k = getitem row k).
  { unfold getitem. now rewrite H by apply list_elem_of_here. }
  rewrite Hk, IH; [reflexivity|].
  intros k' Hk'. apply H. now apply list_elem_of_further.
Qed.

Lemma group_ok_cell g row k :
  group_ok g row → k ∈ g → row !! k = Some 0%Q ∨ row !! k = Some 1%Q.
Proof.
  intros (h & Hh & Hg) Hk. apply row_getitems_Ok in Hg.
  apply list_elem_of_lookup in Hk as [i Hi].
  destruct (Forall2_lookup_l _ _ _ _ _ Hg Hi) as (v & Hv & Hrow).
  rewrite Hrow. apply one_hot_at_cases in Hv as [-> | ->]; auto.
Qed.

Lemma group_ok_ext g (row row' : gmap string Q) :
  (∀ k, k ∈ g → row' !! k = row !! k) → group_ok g row → group_ok g row'.
Proof.
  intros Hext (h & Hh & Hg). exists h. split; [exact Hh|].
  now rewrite (row_getitems_ext row row' g Hext).
Qed.

Lemma one_hot_row_group g row row' :
  NoDup g → one_hot_row g row = Ok row' → group_ok g row'.
Proof.
  intros Hnd H. unfold one_hot_row in H. inv_bind H. inv_bind H. injection H as <-.
  rename a into x, a0 into x'.
  pose proof (row_getitems_length _ _ _ Hstep) as Hlen.
  apply make_one_hot_is_one_hot in Hstep0 as (h & Hh & ->). rewrite Hlen in *.
  exists h. split; [exact Hh|]. apply row_getitems_Ok.
  apply Forall2_same_length_lookup_2.
  - now rewrite one_hot_at_length.
  - intros i k v Hk Hv. eapply row_setitems_in; eassumption.
Qed.

Lemma one_hot_row_other g row row' k :
  one_hot_row g row = Ok row' → k ∉ g → row' !! k = row !! k.
Proof.
  intros H Hk. unfold one_hot_row in H. inv_bind H. inv_bind H. injection H as <-.
  now apply row_setitems_notin.
Qed.

Lemma one_hot_row_preserves g g' row row' :
  one_hot_row g' row = Ok row' → g ## g' → group_ok g row → group_ok g row'.
Proof.
  intros H Hdisj. apply group_ok_ext. intros k Hk.
  eapply one_hot_row_other; [exact H|]. intros Hk'. exact (Hdisj k Hk Hk').
Qed.

Lemma one_hot_row_id g row : group_ok g row → one_hot_row g row = Ok row.
Proof.
  intros (h & Hh & Hg). unfold one_hot_row. rewrite Hg. simpl.
  rewrite make_one_hot_one_hot_at by exact Hh. simpl.
  now rewrite (row_setitems_same _ _ _ Hg).
Qed.

(** ** Cell updates on a row *)

Lemma update_cell_Ok f row col row' :
  update_cell f row col = Ok row' ↔ ∃ v, row !! col = Some v ∧ row' = <[col := f v]> row.
Proof.
  unfold update_cell, getitem. destruct (row !! col) as [v|]; simpl; split.
  - intros [= <-]. eauto.
  - intros (v' & [= <-] & ->). reflexivity.
  - discriminate.
  - intros (v' & [=] & _).
Qed.

Lemma update_cell_id f row col v :
  row !! col = Some v → f v = v → update_cell f row col = Ok row.
Proof.
  intros Hv Hf. apply update_cell_Ok. exists v. split; [exact Hv|].
  rewrite Hf. symmetry. now apply insert_id.
Qed.

Lemma update_cell_group f g row col row' :
  f 0%Q = 0%Q → f 1%Q = 1%Q →
  update_cell f row col = Ok row' → group_ok g row → group_ok g row'.
Proof.
  intros H0 H1 H Hg. apply update_cell_Ok in H as (v & Hv & ->).
  apply (group_ok_ext g row); [|exact Hg]. intros k Hk.
  destruct (decide (col = k)) as [->|Hne]; [|now apply lookup_insert_ne].
  rewrite lookup_insert_eq.
  destruct (group_ok_cell _ _ _ Hg Hk) as [Hc | Hc]; rewrite Hc in Hv;
    injection Hv as <-; rewrite Hc; congruence.
Qed.

Lemma update_cell_integer f c row col row' :
  (∀ v, ∃ z, f v = inject_Z z) →
  update_cell f row col = Ok row' → integer_ok c row → integer_ok c row'.
Proof.
  intros Hf H Hc. apply update_cell_Ok in H as (v & Hv & ->). unfold integer_ok.
  destruct (decide (col = c)) as [->|Hne].
  - rewrite lookup_insert_eq. destruct (Hf v) as [z ->]. eauto.
  - now rewrite lookup_insert_ne.
Qed.

Lemma update_cell_binary c row col row' :
  update_cell (λ v, round0 (clip01 v)) row col = Ok row' →
  col = c ∨ binary_ok c row → binary_ok c row'.
Proof.
  intros H Hc. apply update_cell_Ok in H as (v & Hv & ->). unfold binary_ok.
  destruct (decide (col = c)) as [->|Hne].
  - rewrite lookup_insert_eq. destruct (round0_clip01 v) as [-> | ->]; auto.
  - rewrite lookup_insert_ne by exact Hne. destruct Hc; [congruence | assumption].
Qed.

(** ** Folds of passes over one row *)

Lemma fold_one_hot_preserves g gs : ∀ row row',
  foldM_result (λ r g', one_hot_row g' r) row gs = Ok row' →
  Forall (λ g', g ## g') gs → group_ok g row → group_ok g row'.
Proof.
  induction gs as [|g' gs IH]; simpl; intros row row' H Hd Hg.
  - now injection H as <-.
  - inv_bind H. inversion Hd; subst.
    eapply IH; [exact H | assumption |]. eapply one_hot_row_preserves; eassumption.
Qed.

Lemma fold_one_hot_groups gs : ∀ row row',
  foldM_result (λ r g, one_hot_row g r) row gs = Ok row' →
  Forall NoDup gs → pairwise_disjoint gs → Forall (λ g, group_ok g row') gs.
Proof.
  induction gs as [|g gs IH]; simpl; intros row row' H Hnd Hd; [constructor|].
  inv_bind H. inversion Hnd; subst. destruct Hd as [Hg Hd]. constructor.
  - eapply fold_one_hot_preserves; [exact H | exact Hg |].
    eapply one_hot_row_group; eassumption.
  - eapply IH; eassumption.
Qed.

Lemma fold_update_invariant (P : gmap string Q → Prop) f cols :
  (∀ row col row', update_cell f row col = Ok row' → P row → P row') →
  ∀ row row', foldM_result (update_cell f) row cols = Ok row' → P row → P row'.
Proof.
  intros Hstep. induction cols as [|c cols IH]; simpl; intros row row' H HP.
  - now injection H as <-.
  - inv_bind H. eapply IH; [exact H|]. eapply Hstep; eassumption.
Qed.

Lemma fold_update_integer f cols c :
  (∀ v, ∃ z, f v = inject_Z z) →
  ∀ row row', foldM_result (update_cell f) row cols = Ok row' →
              c ∈ cols → integer_ok c row'.
Proof.
  intros Hf. induction cols as [|c' cols IH]; simpl; intros row row' H Hc.
  - now apply elem_of_nil in Hc.
  - inv_bind H. apply elem_of_cons in Hc as [-> | Hc]; [|eapply IH; eassumption].
    eapply (fold_update_invariant (integer_ok c')); [| exact H |].
    + intros r col r'. now apply update_cell_integer.
    + apply update_cell_Ok in Hstep as (v & _ & ->). unfold integer_ok.
      rewrite lookup_insert_eq. destruct (Hf v) as [z ->]. eauto.
Qed.

Lemma fold_update_binary cols c : ∀ row row',
  foldM_result (update_cell (λ v, round0 (clip01 v))) row cols = Ok row' →
  c ∈ cols → binary_ok c row'.
Proof.
  induction cols as [|c' cols IH]; simpl; intros row row' H Hc.
  - now apply elem_of_nil in Hc.
  - inv_bind H. apply elem_of_cons in Hc as [-> | Hc]; [|eapply IH; eassumption].
    eapply (fold_update_invariant (binary_ok c')); [| exact H |].
    + intros r col r' Hr Hb. eapply update_cell_binary; eauto.
    + eapply update_cell_binary; eauto.
Qed.

(** ** The groups of the schema *)

Lemma categorical_prefix_unique p p' c :
  p ∈ categorical → p' ∈ categorical → has_prefix p c → has_prefix p' c → p = p'.
Proof.
  unfold categorical, has_prefix. intros Hp Hp' H H'.
  repeat (apply elem_of_cons in Hp as [-> | Hp]);
    try (now apply elem_of_nil in Hp);
    repeat (apply elem_of_cons in Hp' as [-> | Hp']);
    try (now apply elem_of_nil in Hp');
    try reflexivity;
    destruct c as [|a c]; simpl in H, H'; congruence.
Qed.

Lemma one_hot_cols_NoDup cols : NoDup cols → Forall NoDup (one_hot_cols cols).
Proof.
  intros Hnd. unfold one_hot_cols. apply Forall_fmap, Forall_forall.
  intros p _. simpl. now apply NoDup_filter.
Qed.

Lemma one_hot_cols_disjoint cols : pairwise_disjoint (one_hot_cols cols).
Proof.
  assert (Hd : ∀ p p', p ∈ categorical → p' ∈ categorical → p ≠ p' →
               filter (has_prefix p) cols ## filter (has_prefix p') cols).
  { intros p p' Hp Hp' Hne c Hc Hc'.
    apply list_elem_of_filter in Hc as [Hc _], Hc' as [Hc' _].
    apply Hne. eapply categorical_prefix_unique; eassumption. }
  unfold one_hot_cols, categorical in *. simpl.
  repeat split; repeat constructor; apply Hd; try discriminate; set_solver.
Qed.

Lemma one_hot_cols_elem cols g :
  g ∈ one_hot_cols cols → ∃ p, p ∈ categorical ∧ g = filter (has_prefix p) cols.
Proof.
  unfold one_hot_cols. intros H. apply list_elem_of_fmap in H as (p & -> & Hp). eauto.
Qed.

(** ** The repair of one row establishes the constraints *)

Lemma round0_clip01_integer (v : Q) : ∃ z, round0 (clip01 v) = inject_Z z.
Proof. apply round0_is_integer. Qed.

Lemma repair_row_ok cols row row' :
  NoDup cols → repair_row cols row = Ok row' → row_ok cols row'.
Proof.
  intros Hnd H. unfold repair_row in H. inv_bind H. inv_bind H.
  rename a into r1, a0 into r2. repeat split.
  - apply fold_one_hot_groups in Hstep;
      [| now apply one_hot_cols_NoDup | apply one_hot_cols_disjoint].
    eapply Forall_impl; [exact Hstep|]. intros g Hg. simpl in Hg.
    eapply (fold_update_invariant (group_ok g)); [| exact H |].
    { intros r c r'. now apply update_cell_group. }
    eapply (fold_update_invariant (group_ok g)); [| exact Hstep0 | exact Hg].
    intros r c r'. now apply update_cell_group.
  - apply Forall_forall. intros c Hc.
    eapply (fold_update_invariant (integer_ok c)); [| exact H |].
    { intros r col r'. apply update_cell_integer, round0_clip01_integer. }
    eapply fold_update_integer; [apply round0_is_integer | exact Hstep0 | exact Hc].
  - apply Forall_forall. intros c Hc. eapply fold_update_binary; eassumption.
Qed.

(** ** Column operations on frames *)

Lemma df_getcol_Ok df col vals :
  df_getcol df col = Ok vals ↔
  col ∈ columns df ∧ Forall2 (λ (r : gmap string Q) v, r !! col = Some v) (rows df) vals.
Proof.
  unfold df_getcol. destruct (decide (col ∈ columns df)) as [Hin|Hout].
  - split.
    + intros H. split; [exact Hin|]. apply mapM_result_Ok in H.
      eapply Forall2_impl; [exact H|]. intros r v. apply getitem_Ok.
    + intros [_ H]. apply Forall2_mapM_result.
      eapply Forall2_impl; [exact H|]. intros r v. apply getitem_Ok.
  - split; [discriminate | tauto].
Qed.

Lemma df_getcol_length df col vals :
  df_getcol df col = Ok vals → length vals = length (rows df).
Proof. rewrite df_getcol_Ok. intros [_ H]. symmetry. eapply Forall2_length, H. Qed.

Lemma df_map_col_rows f df col df' :
  df_map_col f df col = Ok df' →
  col ∈ columns df ∧ columns df' = columns df ∧
  Forall2 (λ r r', update_cell f r col = Ok r') (rows df) (rows df').
Proof.
  unfold df_map_col. intros H. inv_bind H. rename a into vals.
  pose proof (df_getcol_length _ _ _ Hstep) as Hlen.
  apply df_getcol_Ok in Hstep as [Hin Hvals].
  unfold df_setcol in H. rewrite length_map in H.
  destruct (decide (length vals = length (rows df))); [|contradiction].
  injection H as <-. simpl. split; [exact Hin|]. split.
  - now destruct (decide (col ∈ columns df)).
  - clear Hlen e. induction Hvals as [|r v rs vs Hr _ IH]; simpl; constructor; [|exact IH].
    apply update_cell_Ok. eauto.
Qed.

Lemma fold_df_map_col_rows f cols : ∀ df df',
  foldM_result (df_map_col f) df cols = Ok df' →
  columns df' = columns df ∧ Forall (λ c, c ∈ columns df) cols ∧
  Forall2 (λ r r', foldM_result (update_cell f) r cols = Ok r') (rows df) (rows df').
Proof.
  induction cols as [|c cols IH]; simpl; intros df df' H.
  - injection H as <-. repeat split; [constructor|].
    induction (rows df); constructor; auto.
  - inv_bind H. rename a into df1.
    apply df_map_col_rows in Hstep as (Hin & Hcols & Hrows).
    apply IH in H as (Hcols' & Hall & Hrows'). rewrite Hcols in *.
    repeat split; [assumption | now constructor |].
    eapply Forall2_impl; [exact (Forall2_compose _ _ _ _ _ Hrows Hrows')|].
    simpl. intros r r' (b & -> & Hb). exact Hb.
Qed.

(** [repair] acts on each row by [repair_row]. *)
Lemma repair_rows df df' :
  repair df = Ok df' →
  columns df' = columns df ∧
  Forall (λ c, c ∈ columns df) integer_cols ∧
  Forall (λ c, c ∈ columns df) binary_cols ∧
  Forall2 (λ r r', repair_row (columns df) r = Ok r') (rows df) (rows df').
Proof.
  unfold repair. intros H. inv_bind H. inv_bind H. rename a into df1, a0 into df2.
  unfold repair_one_hot in Hstep. inv_bind Hstep. injection Hstep as <-.
  apply foldM_mapM_rows in Hstep1.
  apply fold_df_map_col_rows in Hstep0 as (Hc2 & Hint & Hr2).
  apply fold_df_map_col_rows in H as (Hc3 & Hbin & Hr3).
  cbn [columns rows] in *. rewrite Hc2 in *. repeat split; try assumption.
  pose proof (Forall2_compose _ _ _ _ _ Hstep1
                (Forall2_compose _ _ _ _ _ Hr2 Hr3)) as Hall.
  eapply Forall2_impl; [exact Hall|]. cbv beta.
  intros r r' (r1 & H1 & r2 & H2 & H3). unfold repair_row.
  rewrite H1. cbn [mbind result_bind]. rewrite H2. exact H3.
Qed.

Lemma df_map_col_id f df col :
  col ∈ columns df →
  Forall (λ r : gmap string Q, ∃ v, r !! col = Some v ∧ f v = v) (rows df) →
  df_map_col f df col = Ok df.
Proof.
  intros Hin Hall. destruct df as [cols rs]. simpl in *.
  assert (Hv : ∃ vals, Forall2 (λ (r : gmap string Q) v, r !! col = Some v) rs vals ∧
                       zip_with (λ r v, <[col := v]> r) rs (map f vals) = rs).
  { induction Hall as [|r rs (v & Hv & Hf) _ (vals & IH1 & IH2)].
    - exists []. split; [constructor | reflexivity].
    - exists (v :: vals). split; [now constructor|]. simpl.
      rewrite Hf, IH2. f_equal. now apply insert_id. }
  destruct Hv as (vals & Hvals & Hzip).
  unfold df_map_col.
  assert (Hget : df_getcol {| columns := cols; rows := rs |} col = Ok vals).
  { apply df_getcol_Ok. now split. }
  rewrite Hget. simpl. unfold df_setcol. simpl.
  rewrite length_map, <- (Forall2_length _ _ _ Hvals).
  destruct (decide (length rs = length rs)); [|congruence].
  destruct (decide (col ∈ cols)); [|contradiction].
  now rewrite Hzip.
Qed.

Lemma fold_df_map_col_id f cols df :
  Forall (λ c, c ∈ columns df) cols →
  Forall (λ r : gmap string Q,
            Forall (λ c, ∃ v, r !! c = Some v ∧ f v = v) cols) (rows df) →
  foldM_result (df_map_col f) df cols = Ok df.
Proof.
  induction cols as [|c cols IH]; simpl; intros Hin Hall; [reflexivity|].
  inversion Hin; subst. rewrite df_map_col_id; [simpl; apply IH | assumption |].
  - assumption.
  - eapply Forall_impl; [exact Hall|]. intros r Hr. now inversion Hr.
  - eapply Forall_impl; [exact Hall|]. intros r Hr. now inversion Hr.
Qed.

Lemma repair_one_hot_id gs df :
  Forall (λ r, Forall (λ g, group_ok g r) gs) (rows df) → repair_one_hot gs df = Ok df.
Proof.
  intros Hall. unfold repair_one_hot.
  assert (H : foldM_result (λ rs g, mapM_result (one_hot_row g) rs) (rows df) gs
              = Ok (rows df)).
  { induction gs as [|g gs IH]; simpl; [reflexivity|].
    rewrite mapM_result_id.
    - simpl. apply IH. eapply Forall_impl; [exact Hall|]. intros r Hr. now inversion Hr.
    - eapply Forall_impl; [exact Hall|]. intros r Hr. inversion Hr; subst.
      now apply one_hot_row_id. }
  rewrite H. simpl. now destruct df.
Qed.

(** A frame whose rows satisfy the constraints is left unchanged. *)
Lemma repair_id df :
  Forall (λ c, c ∈ columns df) integer_cols →
  Forall (λ c, c ∈ columns df) binary_cols →
  Forall (row_ok (columns df)) (rows df) →
  repair df = Ok df.
Proof.
  intros Hint Hbin Hok. unfold repair, repair_integer, repair_binary.
  rewrite repair_one_hot_id.
  2:{ eapply Forall_impl; [exact Hok|]. intros r (Hg & _ & _). exact Hg. }
  cbn [mbind result_bind].
  rewrite fold_df_map_col_id; [cbn [mbind result_bind] | exact Hint |].
  2:{ eapply Forall_impl; [exact Hok|]. intros r (_ & Hi & _).
      eapply Forall_impl; [exact Hi|]. intros c [z Hz]. exists (inject_Z z).
      split; [exact Hz | apply round0_inject_Z]. }
  apply fold_df_map_col_id; [exact Hbin|].
  eapply Forall_impl; [exact Hok|]. intros r (_ & _ & Hb).
  eapply Forall_impl; [exact Hb|]. intros c [Hc | Hc]; eauto.
Qed.

(** ** Counting labels *)

Lemma count_eq_app c (l1 l2 : list Q) : count_eq c (l1 ++ l2) = count_eq c l1 + count_eq c l2.
Proof. unfold count_eq. now rewrite List.filter_app, length_app. Qed.

Lemma count_eq_replicate c c' n :
  count_eq c (replicate n c') = if Qeq_bool c' c then n else 0.
Proof.
  unfold count_eq. induction n as [|n IH]; simpl.
  - now destruct (Qeq_bool c' c).
  - destruct (Qeq_bool c' c) eqn:E; simpl; now rewrite IH.
Qed.

Lemma count_eq_Permutation c (l1 l2 : list Q) :
  l1 ≡ₚ l2 → count_eq c l1 = count_eq c l2.
Proof.
  unfold count_eq. induction 1 as [|x l l' _ IH|x x' l|l l' l'' _ IH1 _ IH2]; simpl.
  - reflexivity.
  - destruct (Qeq_bool x c); simpl; now rewrite IH.
  - destruct (Qeq_bool x c), (Qeq_bool x' c); reflexivity.
  - now rewrite IH1.
Qed.

Lemma rows_of_class_length {A} c (X : list A) (y : list Q) :
  length X = length y → length (rows_of_class c X y) = count_eq c y.
Proof.
  unfold rows_of_class, count_eq. rewrite length_fmap. revert y.
  induction X as [|r X IH]; intros [|v y] Hlen; simpl in *; try discriminate.
  - reflexivity.
  - destruct (Qeq_bool v c); simpl; rewrite IH; auto.
Qed.

(** ** The SMOTE call *)

(** ** 64-bit sums *)

Lemma wrap64_int64 (z : Z) : int64 z → wrap64 z = z.
Proof.
  unfold int64, wrap64. intros Hz. rewrite Z.mod_small; lia.
Qed.

Lemma wrap64_overflow (z : Z) :
  (2 ^ 63 ≤ z < 2 ^ 63 + 2 ^ 64)%Z → wrap64 z = (z - 2 ^ 64)%Z.
Proof.
  unfold wrap64. intros Hz.
  replace (z + 2 ^ 63)%Z with ((z - 2 ^ 64 + 2 ^ 63) + 1 * 2 ^ 64)%Z by lia.
  rewrite Z_mod_plus_full, Z.mod_small; lia.
Qed.

Lemma class_labels_forallb (y : list Q) :
  class_labels y ↔ forallb is_class_label y = true.
Proof.
  unfold class_labels. induction y as [|v y IH]; cbn [forallb].
  - split; [reflexivity | constructor].
  - rewrite Forall_cons, andb_true_iff, IH. reflexivity.
Qed.

Lemma class_labels_binary (y : list Q) :
  Forall (λ v, (v == 0)%Q ∨ (v == 1)%Q) y → class_labels y.
Proof.
  unfold class_labels. intros Hy. eapply Forall_impl; [exact Hy|].
  intros v Hv. unfold is_class_label.
  apply Qeq_bool_iff. destruct Hv as [Hv | Hv].
  - rewrite Hv at 2. rewrite (Qfloor_comp _ _ Hv). reflexivity.
  - rewrite Hv at 2. rewrite (Qfloor_comp _ _ Hv). reflexivity.
Qed.

Section Smote.
Context `{SmoteSampler}.

Lemma smote_samples_needed_Ok y c m :
  smote_accepts y c (m - Z.of_nat (count_eq c y)) →
  smote_samples_needed y (c, m) = Ok (c, Z.to_nat (m - Z.of_nat (count_eq c y))).
Proof.
  intros (Hpos & Hn & _). unfold smote_samples_needed.
  destruct (decide (count_eq c y = 0)); [lia|].
  destruct (decide (m < Z.of_nat (count_eq c y))%Z); [lia|]. reflexivity.
Qed.

Lemma smote_oversample_class_Ok X y c n :
  length X = length y → smote_accepts y c n →
  ∃ S, smote_oversample_class X y (c, Z.to_nat n) = Ok (S, replicate (Z.to_nat n) c)
       ∧ length S = Z.to_nat n.
Proof.
  intros Hlen (Hpos & Hn & Hk). unfold smote_oversample_class.
  destruct (decide (Z.to_nat n = 0)) as [->|Hne].
  - exists []. split; reflexivity.
  - rewrite rows_of_class_length by exact Hlen.
    destruct (decide (count_eq c y ≤ k_neighbors)); [lia|].
    eexists. split; [reflexivity|]. now rewrite length_fmap, length_seq.
Qed.

(** What the SMOTE call does with the final sizes [m0] and [m1]. *)
Lemma fit_resample_Ok X y m0 m1 :
  length X = length y → class_labels y →
  smote_accepts y 0 (m0 - Z.of_nat (count_eq 0 y)) →
  smote_accepts y 1 (m1 - Z.of_nat (count_eq 1 y)) →
  ∃ Xs, fit_resample [(0%Q, m0); (1%Q, m1)] X y
        = Ok (X ++ Xs,
              y ++ replicate (Z.to_nat (m0 - Z.of_nat (count_eq 0 y))) 0%Q
                ++ replicate (Z.to_nat (m1 - Z.of_nat (count_eq 1 y))) 1%Q)
        ∧ length Xs = Z.to_nat (m0 - Z.of_nat (count_eq 0 y))
                      + Z.to_nat (m1 - Z.of_nat (count_eq 1 y)).
Proof.
  intros Hlen Hy H0 H1. unfold fit_resample.
  rewrite (proj1 (class_labels_forallb y) Hy).
  destruct (decide (length X = length y)); [|contradiction].
  cbn [mapM_result mbind result_bind].
  rewrite (smote_samples_needed_Ok y 0 m0 H0), (smote_samples_needed_Ok y 1 m1 H1).
  cbn [mapM_result mbind result_bind].
  destruct (smote_oversample_class_Ok X y 0 _ Hlen H0) as (S0 & -> & HS0).
  destruct (smote_oversample_class_Ok X y 1 _ Hlen H1) as (S1 & -> & HS1).
  cbn [mapM_result mbind result_bind fmap list_fmap concat fst snd].
  rewrite !app_nil_r. exists (S0 ++ S1). split; [reflexivity|].
  rewrite length_app. lia.
Qed.

(** Final sizes that SMOTE does not accept, labels that are not class
    labels, or tables of different lengths: the call is refused. *)
Lemma fit_resample_refused X y m0 m1 :
  ¬ (length X = length y ∧ class_labels y ∧
     smote_accepts y 0 (m0 - Z.of_nat (count_eq 0 y)) ∧
     smote_accepts y 1 (m1 - Z.of_nat (count_eq 1 y))) →
  fit_resample [(0%Q, m0); (1%Q, m1)] X y = Raise ValueError.
Proof.
  unfold smote_accepts. intros Hno. unfold fit_resample.
  destruct (forallb is_class_label y) eqn:Hy; [|reflexivity].
  apply class_labels_forallb in Hy.
  destruct (decide (length X = length y)) as [Hlen|]; [|reflexivity].
  cbn [mapM_result mbind result_bind]. unfold smote_samples_needed.
  repeat (case_decide; cbn [mapM_result mbind result_bind]; try reflexivity).
  unfold smote_oversample_class.
  rewrite !rows_of_class_length by exact Hlen.
  repeat (case_decide; cbn [mapM_result mbind result_bind]; try reflexivity);
    exfalso; apply Hno; repeat split; try assumption; lia.
Qed.

Lemma make_synthetic_data_smote_unfold X y n0 n1 rest :
  make_synthetic_data_smote X y (n0 :: n1 :: rest)
  = ('(X_resampled, y_resampled) ←
       fit_resample [(0%Q, wrap64 (n0 + Z.of_nat (count_eq 0 y)));
                     (1%Q, wrap64 (n1 + Z.of_nat (count_eq 1 y)))] X y;
     Ok (drop (length X) X_resampled, drop (length y) y_resampled)).
Proof. reflexivity. Qed.

(** Accepted requests: the function returns exactly the requested number
    of new rows for either class, class 0 first. *)
Lemma make_synthetic_data_smote_Ok X y n0 n1 rest :
  length X = length y → class_labels y →
  request_accepted y 0 n0 → request_accepted y 1 n1 →
  ∃ Xs, make_synthetic_data_smote X y (n0 :: n1 :: rest)
        = Ok (Xs, replicate (Z.to_nat n0) 0%Q ++ replicate (Z.to_nat n1) 1%Q)
        ∧ length Xs = Z.to_nat n0 + Z.to_nat n1.
Proof.
  intros Hlen Hy [H0 Hw0] [H1 Hw1]. rewrite make_synthetic_data_smote_unfold.
  rewrite (wrap64_int64 _ Hw0), (wrap64_int64 _ Hw1).
  destruct (fit_resample_Ok X y (n0 + Z.of_nat (count_eq 0 y))
              (n1 + Z.of_nat (count_eq 1 y)) Hlen Hy) as (Xs & -> & HXs).
  { now replace (n0 + Z.of_nat (count_eq 0 y) - Z.of_nat (count_eq 0 y))%Z with n0 by lia. }
  { now replace (n1 + Z.of_nat (count_eq 1 y) - Z.of_nat (count_eq 1 y))%Z with n1 by lia. }
  replace (n0 + Z.of_nat (count_eq 0 y) - Z.of_nat (count_eq 0 y))%Z with n0 in * by lia.
  replace (n1 + Z.of_nat (count_eq 1 y) - Z.of_nat (count_eq 1 y))%Z with n1 in * by lia.
  cbn [mbind result_bind]. rewrite !drop_app_length.
  exists Xs. split; [reflexivity | exact HXs].
Qed.

(** A request that does not go through for one of the two classes, for
    64-bit requests on a table of fewer than 2^63 rows: the call fails. *)
Lemma make_synthetic_data_smote_refused X y n0 n1 rest :
  int64 n0 → int64 n1 → int64 (Z.of_nat (length y)) →
  ¬ (length X = length y ∧ class_labels y ∧
     request_accepted y 0 n0 ∧ request_accepted y 1 n1) →
  make_synthetic_data_smote X y (n0 :: n1 :: rest) = Raise ValueError.
Proof.
  intros Hn0 Hn1 Hrows Hno. rewrite make_synthetic_data_smote_unfold.
  rewrite fit_resample_refused; [reflexivity|].
  intros (Hlen & Hy & H0 & H1). apply Hno.
  assert (Hc : ∀ c, (0 ≤ Z.of_nat (count_eq c y) < 2 ^ 63)%Z).
  { intros c. unfold int64 in Hrows. unfold count_eq.
    pose proof (List.filter_length_le (λ v, Qeq_bool v c) y). lia. }
  assert (Hreq : ∀ c n, int64 n →
            smote_accepts y c (wrap64 (n + Z.of_nat (count_eq c y))
                               - Z.of_nat (count_eq c y)) →
            request_accepted y c n).
  { intros c n Hn Hacc. specialize (Hc c). unfold int64 in Hn.
    destruct (decide (n + Z.of_nat (count_eq c y) < 2 ^ 63)%Z) as [Hfit|Hover].
    - assert (Hw : int64 (n + Z.of_nat (count_eq c y))) by (unfold int64; lia).
      rewrite (wrap64_int64 _ Hw) in Hacc. split; [|exact Hw].
      now replace (n + Z.of_nat (count_eq c y) - Z.of_nat (count_eq c y))%Z
        with n in Hacc by lia.
    - rewrite wrap64_overflow in Hacc by lia.
      destruct Hacc as (_ & Hneg & _). lia. }
  split; [exact Hlen|]. split; [exact Hy|]. split; apply Hreq; assumption.
Qed.

End Smote.

(** ** Shuffling and sampling *)

Lemma insert_at_Permutation {A} (i : nat) (x : A) (l : list A) :
  insert_at i x l ≡ₚ x :: l.
Proof.
  unfold insert_at. rewrite <- Permutation_middle.
  now rewrite take_drop.
Qed.

Lemma shuffle_Permutation {A} (keys : list nat) (l : list A) : shuffle keys l ≡ₚ l.
Proof.
  revert keys. induction l as [|x l IH]; intros keys; simpl; [reflexivity|].
  rewrite insert_at_Permutation. now rewrite IH.
Qed.

Lemma shuffle_length {A} (keys : list nat) (l : list A) :
  length (shuffle keys l) = length l.
Proof. apply Permutation_length, shuffle_Permutation. Qed.

Lemma take_shuffle_submseteq {A} (keys : list nat) (n : nat) (l : list A) :
  take n (shuffle keys l) ⊆+ l.
Proof.
  rewrite <- (shuffle_Permutation keys l) at 2.
  apply sublist_submseteq, sublist_take.
Qed.

Lemma df_sample_Ok keys n df s :
  df_sample keys n df = Ok s ↔
  n ≤ length (rows df) ∧
  s = {| columns := columns df; rows := take n (shuffle keys (rows df)) |}.
Proof.
  unfold df_sample. destruct (decide (length (rows df) < n)); split.
  - discriminate.
  - intros [Hn _]. lia.
  - intros [= <-]. split; [lia | reflexivity].
  - intros [_ ->]. reflexivity.
Qed.

Lemma df_sample_small keys n df :
  length (rows df) < n → df_sample keys n df = Raise ValueError.
Proof. intros Hn. unfold df_sample. now destruct (decide (length (rows df) < n)). Qed.

(** ** train_test_split *)

Lemma train_test_split_Ok {A B} keys (X : list A) (y : list B) X_train X_test y_train y_test :
  train_test_split keys X y = Ok (X_train, X_test, y_train, y_test) →
  X ≡ₚ X_test ++ X_train ∧ y ≡ₚ y_test ++ y_train ∧
  length X_train = length y_train ∧ length X_test = length y_test ∧
  0 < length X_train.
Proof.
  unfold train_test_split. destruct (decide (length X = length y)) as [Hlen|]; [|discriminate].
  set (n_test := Z.to_nat _). destruct (decide (length X - n_test = 0)); [discriminate|].
  intros [= <- <- <- <-]. rewrite !take_drop.
  repeat split; try (symmetry; apply shuffle_Permutation).
  - rewrite !length_drop, !shuffle_length. lia.
  - rewrite !length_take, !shuffle_length. lia.
  - rewrite length_drop, shuffle_length. lia.
Qed.

(** ** Sorting by decreasing key *)

Lemma insert_desc_Permutation {A} (x : Q * A) (l : list (Q * A)) :
  insert_desc x l ≡ₚ x :: l.
Proof.
  induction l as [|y l IH]; simpl; [reflexivity|].
  destruct (x.1 ?= y.1)%Q; try reflexivity.
  rewrite IH. apply perm_swap.
Qed.

Lemma sort_desc_Permutation {A} (l : list (Q * A)) : sort_desc l ≡ₚ l.
Proof.
  unfold sort_desc. induction l as [|x l IH]; simpl; [reflexivity|].
  rewrite insert_desc_Permutation. now rewrite IH.
Qed.

Lemma insert_desc_sorted {A} (x : Q * A) (l : list (Q * A)) :
  StronglySorted desc l → StronglySorted desc (insert_desc x l).
Proof.
  induction 1 as [|y l Hs IH Hy]; simpl.
  - repeat constructor.
  - destruct (x.1 ?= y.1)%Q eqn:Hc.
    + apply Qeq_alt in Hc. constructor; [now constructor|].
      constructor; [unfold desc; rewrite Hc; apply Qle_refl|].
      eapply Forall_impl; [exact Hy|]. unfold desc. intros z Hz. now rewrite Hc.
    + apply Qlt_alt in Hc. constructor; [exact IH|].
      rewrite insert_desc_Permutation. constructor; [|exact Hy].
      unfold desc. now apply Qlt_le_weak.
    + apply Qgt_alt in Hc. constructor; [now constructor|].
      constructor; [unfold desc; now apply Qlt_le_weak|].
      eapply Forall_impl; [exact Hy|]. unfold desc. intros z Hz.
      apply Qle_trans with y.1; [exact Hz | now apply Qlt_le_weak].
Qed.

Lemma sort_desc_sorted {A} (l : list (Q * A)) : StronglySorted desc (sort_desc l).
Proof.
  unfold sort_desc. induction l as [|x l IH]; simpl; [constructor|].
  now apply insert_desc_sorted.
Qed.

(** In a sorted list every element of a prefix is at least as large as
    every element of the rest. *)
Lemma sorted_take_drop {A} (R : A → A → Prop) (l : list A) (n : nat) a b :
  StronglySorted R l → a ∈ take n l → b ∈ drop n l → R a b.
Proof.
  intros Hs. revert n. induction Hs as [|x l Hs IH Hx]; intros n Ha Hb.
  - rewrite take_nil in Ha. now apply elem_of_nil in Ha.
  - destruct n as [|n]; simpl in *; [now apply elem_of_nil in Ha|].
    apply elem_of_cons in Ha as [-> | Ha].
    + rewrite Forall_forall in Hx. apply Hx. now apply (subseteq_drop n).
    + now apply (IH n).
Qed.

(** ** Reading a column *)

Lemma df_getcol_total df col :
  col ∈ columns df →
  Forall (λ r : gmap string Q, is_Some (r !! col)) (rows df) →
  df_getcol df col = Ok ((λ r : gmap string Q, default 0%Q (r !! col)) <$> rows df).
Proof.
  intros Hin Hall. apply df_getcol_Ok. split; [exact Hin|].
  induction Hall as [|r rs [v Hv] _ IH]; simpl; constructor; [|exact IH].
  now rewrite Hv.
Qed.

Lemma df_wf_column df col :
  df_wf df → col ∈ columns df →
  Forall (λ r : gmap string Q, is_Some (r !! col)) (rows df).
Proof.
  intros Hwf Hin. eapply Forall_impl; [exact Hwf|]. intros r Hr.
  rewrite Forall_forall in Hr. now apply Hr.
Qed.

Lemma df_getcol_is_Some df col vals :
  df_getcol df col = Ok vals →
  Forall (λ r : gmap string Q, is_Some (r !! col)) (rows df).
Proof.
  rewrite df_getcol_Ok. intros [_ H]. induction H as [|r v rs vs Hr _ IH]; constructor; eauto.
Qed.

Lemma df_getcol_unique df col vals :
  df_getcol df col = Ok vals →
  vals = (λ r : gmap string Q, default 0%Q (r !! col)) <$> rows df.
Proof.
  intros H. pose proof H as H'. apply df_getcol_Ok in H' as [Hin _].
  rewrite (df_getcol_total df col Hin (df_getcol_is_Some _ _ _ H)) in H. congruence.
Qed.

(** ** Trimming *)

Lemma number_to_keep_eq (z : Z) :
  int_of (inject_Z z * (1 - proportion_to_remove)) = Z.quot (z * 9) 10.
Proof. reflexivity. Qed.

Lemma sorted_pairs_rows col (ps : list (Q * gmap string Q)) :
  StronglySorted desc ps →
  Forall (λ p, p.2 !! col = Some p.1) ps →
  StronglySorted (row_desc col) (snd <$> ps).
Proof.
  induction 1 as [|p ps Hs IH Hp]; intros Hall; simpl; [constructor|].
  inversion Hall as [|? ? Hp1 Hall']; subst. constructor; [now apply IH|].
  apply Forall_fmap. rewrite Forall_forall in Hp, Hall'. apply Forall_forall.
  intros q Hq d d' Hd Hd'. simpl in *.
  specialize (Hp q Hq). specialize (Hall' q Hq). unfold desc in Hp.
  rewrite Hp1 in Hd. rewrite Hall' in Hd'. injection Hd as <-. injection Hd' as <-.
  exact Hp.
Qed.

Lemma StronglySorted_take {A} (R : A → A → Prop) (l : list A) n :
  StronglySorted R l → StronglySorted R (take n l).
Proof.
  intros Hs. revert n. induction Hs as [|x l Hs IH Hx]; intros [|n]; simpl;
    try constructor; [apply IH|].
  rewrite Forall_forall in Hx. apply Forall_forall. intros y Hy.
  apply Hx. now apply (subseteq_take n).
Qed.

(** The trimmed table, for a table all of whose rows hold a distance. *)
Lemma trim_closest_spec df col_vals :
  df_getcol df "distance_to_closest_real" = Ok col_vals →
  ∃ kept dropped,
    trim_closest df = Ok {| columns := columns df; rows := kept |} ∧
    rows df ≡ₚ kept ++ dropped ∧
    length kept = Z.to_nat (Z.quot (Z.of_nat (length (rows df)) * 9) 10) ∧
    StronglySorted (row_desc "distance_to_closest_real") kept ∧
    (∀ r r', r ∈ kept → r' ∈ dropped → row_desc "distance_to_closest_real" r r').
Proof.
  intros Hget. pose proof (df_getcol_length _ _ _ Hget) as Hlen.
  pose proof Hget as Hcol. apply df_getcol_Ok in Hcol as [_ Hcol].
  set (ps := sort_desc (zip col_vals (rows df))).
  assert (Hperm : ps ≡ₚ zip col_vals (rows df)) by apply sort_desc_Permutation.
  assert (Hsorted : StronglySorted desc ps) by apply sort_desc_sorted.
  assert (Hcells : Forall (λ p : Q * gmap string Q,
                             p.2 !! "distance_to_closest_real" = Some p.1) ps).
  { rewrite Hperm. clear -Hcol. induction Hcol; simpl; constructor; auto. }
  assert (Hn : length ps = length (rows df)).
  { rewrite Hperm, length_zip_with. lia. }
  set (n := Z.to_nat (Z.quot (Z.of_nat (length (rows df)) * 9) 10)).
  assert (Hle : n ≤ length (rows df)).
  { subst n. pose proof (Z.quot_le_upper_bound
      (Z.of_nat (length (rows df)) * 9) 10 (Z.of_nat (length (rows df)))). lia. }
  exists (snd <$> take n ps), (snd <$> drop n ps).
  split; [|split; [|split; [|split]]].
  - unfold trim_closest, sort_values_desc. rewrite Hget.
    cbn [mbind result_bind]. unfold df_head. cbn [columns rows].
    rewrite number_to_keep_eq, length_fmap. fold ps. rewrite Hn. fold n.
    now rewrite fmap_take.
  - rewrite <- fmap_app, take_drop, Hperm. rewrite snd_zip by lia. reflexivity.
  - rewrite length_fmap, length_take. lia.
  - apply sorted_pairs_rows.
    + now apply StronglySorted_take.
    + eapply Forall_forall. intros p Hp. rewrite Forall_forall in Hcells.
      apply Hcells. now apply (subseteq_take n).
  - intros r r' Hr Hr'.
    apply list_elem_of_fmap in Hr as (p & -> & Hp).
    apply list_elem_of_fmap in Hr' as (p' & -> & Hp').
    pose proof (sorted_take_drop _ _ _ _ _ Hsorted Hp Hp') as Hd.
    rewrite Forall_forall in Hcells.
    pose proof (Hcells p (subseteq_take n _ _ Hp)) as Hc.
    pose proof (Hcells p' (subseteq_drop n _ _ Hp')) as Hc'.
    intros d d' Hd1 Hd2. rewrite Hc in Hd1. rewrite Hc' in Hd2.
    injection Hd1 as <-. injection Hd2 as <-. exact Hd.
Qed.

(** ** Selecting the rows of a class *)

Lemma Qeq_bool_0_1 (v : Q) : Qeq_bool v 0 = true → Qeq_bool v 1 = false.
Proof.
  intros H0. destruct (Qeq_bool v 1) eqn:H1; [|reflexivity].
  apply Qeq_bool_eq in H0, H1. rewrite H0 in H1. discriminate.
Qed.

Lemma Qeq_bool_1_0 (v : Q) : Qeq_bool v 1 = true → Qeq_bool v 0 = false.
Proof.
  intros H1. destruct (Qeq_bool v 0) eqn:H0; [|reflexivity].
  now rewrite (Qeq_bool_0_1 v H0) in H1.
Qed.

Lemma class_rows_spec col c (rs : list (gmap string Q)) (vs : list Q) :
  Forall2 (λ (r : gmap string Q) v, r !! col = Some v) rs vs →
  let pool := fst <$> List.filter (λ p : gmap string Q * Q, Qeq_bool p.2 c) (zip rs vs) in
  length pool = count_eq c vs ∧
  Forall (λ r : gmap string Q, ∃ v, r !! col = Some v ∧ Qeq_bool v c = true) pool.
Proof.
  unfold count_eq. induction 1 as [|r v rs vs Hr _ [IH1 IH2]]; simpl.
  - split; [reflexivity | constructor].
  - destruct (Qeq_bool v c) eqn:Hv; simpl; split; auto.
    constructor; eauto.
Qed.

Lemma class_rows_submseteq (rs : list (gmap string Q)) (vs : list Q) :
  (fst <$> List.filter (λ p : gmap string Q * Q, Qeq_bool p.2 0) (zip rs vs)) ++
  (fst <$> List.filter (λ p : gmap string Q * Q, Qeq_bool p.2 1) (zip rs vs)) ⊆+ rs.
Proof.
  revert vs. induction rs as [|r rs IH]; intros [|v vs]; simpl;
    try apply submseteq_nil_l.
  destruct (Qeq_bool v 0) eqn:H0.
  - rewrite (Qeq_bool_0_1 v H0). simpl. apply submseteq_skip, IH.
  - destruct (Qeq_bool v 1) eqn:H1; simpl.
    + rewrite <- Permutation_middle. apply submseteq_skip, IH.
    + apply submseteq_cons, IH.
Qed.

Lemma count_eq_all c (rs : list (gmap string Q)) col :
  Forall (λ r : gmap string Q, ∃ v, r !! col = Some v ∧ Qeq_bool v c = true) rs →
  count_eq c ((λ r : gmap string Q, default 0%Q (r !! col)) <$> rs) = length rs.
Proof.
  unfold count_eq. induction 1 as [|r rs (v & Hv & Hc) _ IH]; [reflexivity|].
  rewrite fmap_cons. cbn [List.filter]. rewrite Hv. change (default 0%Q (Some v)) with v. rewrite Hc.
  cbn [length]. now rewrite IH.
Qed.

Lemma count_eq_none c (rs : list (gmap string Q)) col :
  Forall (λ r : gmap string Q, ∃ v, r !! col = Some v ∧ Qeq_bool v c = false) rs →
  count_eq c ((λ r : gmap string Q, default 0%Q (r !! col)) <$> rs) = 0.
Proof.
  unfold count_eq. induction 1 as [|r rs (v & Hv & Hc) _ IH]; [reflexivity|].
  rewrite fmap_cons. cbn [List.filter]. rewrite Hv. change (default 0%Q (Some v)) with v. rewrite Hc.
  exact IH.
Qed.

(** ** Rebalancing *)

Section Rebalance.
Variables (keys_died keys_survived keys_shuffle : list nat).
Variables (number_died number_survived : nat).
Variables (df : DataFrame) (labels : list Q).
Hypothesis Hget : df_getcol df "stroke" = Ok labels.

Let pool0 := fst <$> List.filter (λ p : gmap string Q * Q, Qeq_bool p.2 0)
                       (zip (rows df) labels).
Let pool1 := fst <$> List.filter (λ p : gmap string Q * Q, Qeq_bool p.2 1)
                       (zip (rows df) labels).

Lemma rebalance_unfold :
  rebalance keys_died keys_survived keys_shuffle number_died number_survived df
  = (synth_died ← df_sample keys_died number_died
                     {| columns := columns df; rows := pool0 |};
     synth_survived ← df_sample keys_survived number_survived
                         {| columns := columns df; rows := pool1 |};
     Ok (df_sample_frac keys_shuffle (df_concat synth_died synth_survived))).
Proof. unfold rebalance, df_where_eq. rewrite Hget. reflexivity. Qed.

(** Both pools are large enough: the targets are met exactly. *)
Lemma rebalance_enough :
  number_died ≤ count_eq 0 labels → number_survived ≤ count_eq 1 labels →
  ∃ out ys,
    rebalance keys_died keys_survived keys_shuffle number_died number_survived df
      = Ok out ∧
    columns out = columns df ∧
    df_getcol out "stroke" = Ok ys ∧
    count_eq 0 ys = number_died ∧ count_eq 1 ys = number_survived ∧
    length (rows out) = number_died + number_survived ∧
    rows out ⊆+ rows df.
Proof.
  intros Hd Hs. pose proof Hget as Hcol. apply df_getcol_Ok in Hcol as [Hin Hcol].
  destruct (class_rows_spec "stroke" 0 _ _ Hcol) as [Hlen0 Hall0].
  destruct (class_rows_spec "stroke" 1 _ _ Hcol) as [Hlen1 Hall1].
  pose proof (class_rows_submseteq (rows df) labels) as Hsub.
  cbv zeta in Hlen0, Hall0, Hlen1, Hall1. fold pool0 in Hlen0, Hall0, Hsub.
  fold pool1 in Hlen1, Hall1, Hsub.
  rewrite rebalance_unfold. unfold df_sample. cbn [rows columns].
  destruct (decide (length pool0 < number_died)); [lia|]. cbn [mbind result_bind].
  destruct (decide (length pool1 < number_survived)); [lia|]. cbn [mbind result_bind].
  set (died := take number_died (shuffle keys_died pool0)).
  set (survived := take number_survived (shuffle keys_survived pool1)).
  assert (Hdied : died ⊆+ pool0) by apply take_shuffle_submseteq.
  assert (Hsurv : survived ⊆+ pool1) by apply take_shuffle_submseteq.
  assert (Hld : length died = number_died).
  { subst died. rewrite length_take, shuffle_length. lia. }
  assert (Hls : length survived = number_survived).
  { subst survived. rewrite length_take, shuffle_length. lia. }
  assert (Hperm : shuffle keys_shuffle (died ++ survived) ≡ₚ died ++ survived)
    by apply shuffle_Permutation.
  assert (Hd0 : Forall (λ r : gmap string Q,
                          ∃ v, r !! "stroke" = Some v ∧ Qeq_bool v 0 = true) died).
  { apply Forall_forall. intros r Hr. rewrite Forall_forall in Hall0.
    apply Hall0. eapply elem_of_submseteq; eassumption. }
  assert (Hs1 : Forall (λ r : gmap string Q,
                          ∃ v, r !! "stroke" = Some v ∧ Qeq_bool v 1 = true) survived).
  { apply Forall_forall. intros r Hr. rewrite Forall_forall in Hall1.
    apply Hall1. eapply elem_of_submseteq; eassumption. }
  eexists. eexists. split; [reflexivity|]. unfold df_sample_frac, df_concat.
  cbn [columns rows]. split; [reflexivity|]. split; [|split; [|split; [|split]]].
  - apply df_getcol_total; cbn [columns rows]; [exact Hin|].
    rewrite Hperm. apply Forall_app. split.
    + eapply Forall_impl; [exact Hd0|]. intros r (v & -> & _). eauto.
    + eapply Forall_impl; [exact Hs1|]. intros r (v & -> & _). eauto.
  - rewrite (count_eq_Permutation _ _ _ (fmap_Permutation _ _ _ Hperm)).
    rewrite fmap_app, count_eq_app, (count_eq_all 0 died), (count_eq_none 0 survived).
    + lia.
    + eapply Forall_impl; [exact Hs1|]. intros r (v & Hv & Hc).
      exists v. split; [exact Hv | now apply Qeq_bool_1_0].
    + exact Hd0.
  - rewrite (count_eq_Permutation _ _ _ (fmap_Permutation _ _ _ Hperm)).
    rewrite fmap_app, count_eq_app, (count_eq_none 1 died), (count_eq_all 1 survived).
    + lia.
    + exact Hs1.
    + eapply Forall_impl; [exact Hd0|]. intros r (v & Hv & Hc).
      exists v. split; [exact Hv | now apply Qeq_bool_0_1].
  - rewrite shuffle_length, length_app. lia.
  - rewrite Hperm. etransitivity; [|exact Hsub]. now apply submseteq_app.
Qed.

(** A pool smaller than its target: [sample] refuses. *)
Lemma rebalance_short :
  count_eq 0 labels < number_died ∨ count_eq 1 labels < number_survived →
  rebalance keys_died keys_survived keys_shuffle number_died number_survived df
    = Raise ValueError.
Proof.
  intros Hshort. pose proof Hget as Hcol. apply df_getcol_Ok in Hcol as [_ Hcol].
  destruct (class_rows_spec "stroke" 0 _ _ Hcol) as [Hlen0 _].
  destruct (class_rows_spec "stroke" 1 _ _ Hcol) as [Hlen1 _].
  cbv zeta in Hlen0, Hlen1. fold pool0 in Hlen0. fold pool1 in Hlen1.
  rewrite rebalance_unfold. unfold df_sample. cbn [rows columns].
  destruct (decide (length pool0 < number_died)); [reflexivity|].
  cbn [mbind result_bind].
  destruct (decide (length pool1 < number_survived)); [reflexivity|]. lia.
Qed.

End Rebalance.

(** ** Storing a column *)

Lemma df_setcol_Ok df col vals :
  length vals = length (rows df) →
  ∃ cols', df_setcol df col vals
             = Ok {| columns := cols';
                     rows := zip_with (λ r v, <[col := v]> r) (rows df) vals |} ∧
           col ∈ cols' ∧ columns df ⊆ cols'.
Proof.
  intros Hlen. unfold df_setcol.
  destruct (decide (length vals = length (rows df))); [|contradiction].
  eexists. split; [reflexivity|].
  destruct (decide (col ∈ columns df)); split; set_solver.
Qed.

Lemma Qlt_bool_true (a b : Q) : (a < b)%Q → Qlt_bool a b = true.
Proof.
  unfold Qlt_bool. intros H. destruct (a ?= b)%Q eqn:Hc; try reflexivity.
  - apply Qeq_alt in Hc. rewrite Hc in H. now apply Qlt_irrefl in H.
  - apply Qgt_alt in Hc. exfalso. apply (Qlt_irrefl a). now apply Qlt_trans with b.
Qed.

Lemma Qlt_bool_false (a b : Q) : (b <= a)%Q → Qlt_bool a b = false.
Proof.
  unfold Qlt_bool. intros H. destruct (a ?= b)%Q eqn:Hc; try reflexivity.
  apply Qlt_alt in Hc. now apply Qle_not_lt in H.
Qed.

(** ** The standardisation before the synthetic fit *)

Section Scaled.
Context `{StandardScaler}.

Lemma standardise_data_Ok X_train X_test train_std test_std :
  standardise_data X_train X_test = Ok (train_std, test_std) ↔
  ∃ sc, sc_fit X_train = Ok sc ∧ transform_accepts X_train X_test ∧
        train_std = sc_transform sc X_train ∧ test_std = sc_transform sc X_test.
Proof.
  unfold standardise_data, transform.
  destruct (sc_fit X_train) as [sc|e]; cbn [mbind result_bind].
  - destruct (decide (transform_accepts X_train X_test)) as [Hacc|Hno];
      cbn [mbind result_bind]; split.
    + intros [= <- <-]. eauto.
    + intros (sc' & [= <-] & _ & -> & ->). reflexivity.
    + discriminate.
    + intros (sc' & _ & Hacc & _). contradiction.
  - split; [discriminate|]. intros (sc' & [=] & _).
Qed.

(** Frames with the same columns give matrices of the same width. *)
Lemma transform_accepts_to_numpy cols rs rs' :
  rs' ≠ [] →
  transform_accepts (to_numpy {| columns := cols; rows := rs |})
                    (to_numpy {| columns := cols; rows := rs' |}).
Proof.
  intros Hne. unfold transform_accepts, to_numpy. cbn [columns rows]. split.
  - rewrite length_fmap. destruct rs'; [contradiction | simpl; lia].
  - apply Forall_fmap, Forall_true. intros r. cbn.
    apply Forall_fmap, Forall_true. intros t. cbn. now rewrite !length_fmap.
Qed.

End Scaled.

(** ** The rebalancing step inside the script *)

Lemma rebalance_Ok_counts keys_died keys_survived keys_shuffle number_died number_survived df out :
  rebalance keys_died keys_survived keys_shuffle number_died number_survived df = Ok out →
  ∃ ys, df_getcol out "stroke" = Ok ys ∧
        count_eq 0 ys = number_died ∧ count_eq 1 ys = number_survived ∧
        rows out ⊆+ rows df.
Proof.
  intros Hrun. pose proof Hrun as Hrun'. unfold rebalance in Hrun'.
  inv_bind Hrun'. unfold df_where_eq in Hstep. inv_bind Hstep. rename a0 into labels.
  destruct (decide (number_died ≤ count_eq 0 labels ∧
                    number_survived ≤ count_eq 1 labels)) as [[Hd Hs]|Hc].
  - destruct (rebalance_enough keys_died keys_survived keys_shuffle
                number_died number_survived df labels Hstep0 Hd Hs)
      as (out' & ys & Hrun2 & _ & Hys & Hc0 & Hc1 & _ & Hsub).
    rewrite Hrun in Hrun2. injection Hrun2 as <-. eauto.
  - rewrite (rebalance_short keys_died keys_survived keys_shuffle
               number_died number_survived df labels Hstep0) in Hrun by lia.
    discriminate.
Qed.

(** ** [repair] is total on well-formed frames *)

Lemma mapM_result_total {A B} (f : A → result B) (P : B → Prop) (l : list A) :
  Forall (λ a, ∃ b, f a = Ok b ∧ P b) l →
  ∃ l', mapM_result f l = Ok l' ∧ Forall P l'.
Proof.
  induction 1 as [|a l (b & Hb & HP) _ (l' & IH & HPl)]; simpl.
  - exists []. split; [reflexivity | constructor].
  - exists (b :: l'). rewrite Hb, IH. split; [reflexivity | now constructor].
Qed.

Lemma row_getitems_total (row : gmap string Q) g :
  Forall (λ c, is_Some (row !! c)) g →
  ∃ vals, row_getitems row g = Ok vals ∧ length vals = length g.
Proof.
  intros Hall.
  assert (H : ∃ vals, Forall2 (λ k v, row !! k = Some v) g vals).
  { induction Hall as [|c g [v Hv] _ [vals IH]]; [exists []; constructor|].
    exists (v :: vals). now constructor. }
  destruct H as [vals H]. exists vals. split; [now apply row_getitems_Ok|].
  symmetry. eapply Forall2_length, H.
Qed.

Lemma one_hot_row_total cols g row :
  g ≠ [] → g ⊆ cols →
  Forall (λ c, is_Some (row !! c)) cols →
  ∃ row', one_hot_row g row = Ok row' ∧ Forall (λ c, is_Some (row' !! c)) cols.
Proof.
  intros Hne Hsub Hall.
  destruct (row_getitems_total row g) as (vals & Hvals & Hlen).
  { rewrite Forall_forall in Hall. apply Forall_forall. intros c Hc. apply Hall, Hsub, Hc. }
  assert (Hv : vals ≠ []).
  { intros ->. destruct g; [congruence | discriminate]. }
  destruct (argmax_nonempty vals Hv) as [h Hh].
  unfold one_hot_row. rewrite Hvals. cbn [mbind result_bind].
  rewrite (make_one_hot_unfold _ _ Hh). cbn [mbind result_bind].
  eexists. split; [reflexivity|].
  eapply Forall_impl; [exact Hall|]. intros c Hc. unfold row_setitems.
  apply lookup_union_is_Some. now right.
Qed.

Lemma update_cell_total f cols row col :
  col ∈ cols →
  Forall (λ c, is_Some (row !! c)) cols →
  ∃ row', update_cell f row col = Ok row' ∧ Forall (λ c, is_Some (row' !! c)) cols.
Proof.
  intros Hin Hall. rewrite Forall_forall in Hall. destruct (Hall col Hin) as [v Hv].
  exists (<[col := f v]> row). split; [apply update_cell_Ok; eauto|].
  apply Forall_forall. intros c Hc. apply lookup_insert_is_Some'. right. now apply Hall.
Qed.

Lemma zip_insert_wf col cols (rs : list (gmap string Q)) (vals : list Q) :
  Forall (λ r : gmap string Q, Forall (λ c, is_Some (r !! c)) cols) rs →
  Forall (λ r : gmap string Q, Forall (λ c, is_Some (r !! c)) cols)
    (zip_with (λ r v, <[col := v]> r) rs vals).
Proof.
  intros Hwf. revert vals. induction Hwf as [|r rs Hr _ IH]; intros [|v vals]; simpl;
    constructor; [|apply IH].
  eapply Forall_impl; [exact Hr|]. intros c Hc.
  apply lookup_insert_is_Some'. now right.
Qed.

Lemma df_map_col_total f df col :
  col ∈ columns df → df_wf df →
  ∃ df', df_map_col f df col = Ok df' ∧ columns df' = columns df ∧ df_wf df'.
Proof.
  intros Hin Hwf.
  unfold df_map_col. rewrite (df_getcol_total df col Hin (df_wf_column df col Hwf Hin)).
  cbn [mbind result_bind]. unfold df_setcol. rewrite length_map, length_fmap.
  destruct (decide (length (rows df) = length (rows df))); [|congruence].
  destruct (decide (col ∈ columns df)); [|contradiction].
  eexists. split; [reflexivity|]. split; [reflexivity|].
  unfold df_wf. cbn [columns rows]. now apply zip_insert_wf.
Qed.

Lemma fold_df_map_col_total f cols : ∀ df,
  Forall (λ c, c ∈ columns df) cols → df_wf df →
  ∃ df', foldM_result (df_map_col f) df cols = Ok df' ∧
         columns df' = columns df ∧ df_wf df'.
Proof.
  induction cols as [|c cols IH]; intros df Hin Hwf; simpl.
  - exists df. auto.
  - inversion Hin; subst.
    destruct (df_map_col_total f df c) as (df1 & -> & Hc1 & Hwf1); try assumption.
    cbn [mbind result_bind]. destruct (IH df1) as (df' & Hrun & Hc' & Hwf'); try assumption.
    + now rewrite Hc1.
    + exists df'. rewrite Hrun. split; [reflexivity|]. split; [congruence | assumption].
Qed.

Lemma repair_one_hot_total gs df :
  Forall (λ g, g ≠ [] ∧ g ⊆ columns df) gs → df_wf df →
  ∃ df', repair_one_hot gs df = Ok df' ∧ columns df' = columns df ∧ df_wf df'.
Proof.
  intros Hgs Hwf. unfold repair_one_hot, df_wf in *.
  set (cols := columns df) in *.
  assert (H : ∃ rs', foldM_result (λ rs g, mapM_result (one_hot_row g) rs) (rows df) gs
                     = Ok rs' ∧
                     Forall (λ r : gmap string Q,
                               Forall (λ c, is_Some (r !! c)) cols) rs').
  { generalize dependent (rows df). induction Hgs as [|g gs [Hne Hsub] _ IH];
      intros rs Hrs; simpl; [eauto|].
    destruct (mapM_result_total (one_hot_row g)
                (λ r : gmap string Q, Forall (λ c, is_Some (r !! c)) cols) rs)
      as (rs1 & -> & Hrs1).
    - eapply Forall_impl; [exact Hrs|]. intros r Hr. now apply one_hot_row_total.
    - cbn [mbind result_bind]. now apply IH. }
  destruct H as (rs' & -> & Hrs'). cbn [mbind result_bind]. eauto.
Qed.

(** On a frame in which every row has a cell for every column, which has
    the integer and binary columns of the schema and at least one column in
    each one-hot group, [repair] returns a frame. *)
Lemma repair_total df :
  df_wf df →
  Forall (λ c, c ∈ columns df) integer_cols →
  Forall (λ c, c ∈ columns df) binary_cols →
  Forall (λ g, g ≠ []) (one_hot_cols (columns df)) →
  ∃ df', repair df = Ok df'.
Proof.
  intros Hwf Hint Hbin Hgs. unfold repair, repair_integer, repair_binary.
  destruct (repair_one_hot_total (one_hot_cols (columns df)) df) as (df1 & -> & Hc1 & Hwf1).
  { apply Forall_forall. intros g Hg. rewrite Forall_forall in Hgs.
    split; [now apply Hgs|]. apply one_hot_cols_elem in Hg as (p & _ & ->).
    intros c Hc. now apply list_elem_of_filter in Hc as [_ Hc]. }
  { exact Hwf. }
  cbn [mbind result_bind].
  destruct (fold_df_map_col_total round0 integer_cols df1) as (df2 & -> & Hc2 & Hwf2);
    [now rewrite Hc1 | exact Hwf1 |].
  cbn [mbind result_bind].
  destruct (fold_df_map_col_total (λ v, round0 (clip01 v)) binary_cols df2)
    as (df3 & -> & _ & _); [now rewrite Hc2, Hc1 | exact Hwf2 |].
  eauto.
Qed.

(** ** Every arrangement is drawn by some draws *)

Lemma insert_at_app_length {A} (x : A) (s1 s2 : list A) :
  insert_at (length s1) x (s1 ++ s2) = s1 ++ x :: s2.
Proof. unfold insert_at. now rewrite take_app_length, drop_app_length. Qed.

Lemma shuffle_reaches {A} (l : list A) : ∀ s, s ≡ₚ l → ∃ keys, shuffle keys l = s.
Proof.
  induction l as [|x l IH]; intros s Hs.
  - symmetry in Hs. apply Permutation_nil in Hs as ->. exists []. reflexivity.
  - assert (Hin : x ∈ s) by (rewrite Hs; left).
    apply list_elem_of_split in Hin as (s1 & s2 & ->).
    rewrite <- Permutation_middle in Hs. apply Permutation_cons_inv in Hs.
    destruct (IH _ Hs) as [keys Hkeys].
    exists (length s1 :: keys). cbn [shuffle hd tail]. rewrite Hkeys.
    rewrite Nat.mod_small by (rewrite length_app; lia).
    apply insert_at_app_length.
Qed.

Lemma sample_reaches {A} (pool sel : list A) :
  sel ⊆+ pool → ∃ keys, take (length sel) (shuffle keys pool) = sel.
Proof.
  intros Hsub. apply submseteq_Permutation in Hsub as [k Hk].
  destruct (shuffle_reaches pool (sel ++ k)) as [keys Hkeys]; [now symmetry|].
  exists keys. rewrite Hkeys. apply take_app_length.
Qed.

(** Every choice of rows from the two class pools is the result of the
    rebalancing for some draws. *)
Lemma rebalance_reaches number_died number_survived df labels died survived :
  df_getcol df "stroke" = Ok labels →
  died ⊆+ rows_of_class 0 (rows df) labels → length died = number_died →
  survived ⊆+ rows_of_class 1 (rows df) labels → length survived = number_survived →
  ∃ draws_died draws_survived draws_shuffle,
    rebalance draws_died draws_survived draws_shuffle number_died number_survived df
      = Ok {| columns := columns df; rows := died ++ survived |}.
Proof.
  intros Hget Hd Hld Hs Hls.
  destruct (sample_reaches _ _ Hd) as [kd Hkd].
  destruct (sample_reaches _ _ Hs) as [ks Hks].
  destruct (shuffle_reaches (died ++ survived) (died ++ survived)) as [ksh Hksh];
    [reflexivity|].
  exists kd, ks, ksh. rewrite (rebalance_unfold kd ks ksh _ _ df labels Hget).
  unfold df_sample, rows_of_class in *. cbn [rows columns].
  apply submseteq_length in Hd, Hs.
  match goal with |- context [decide (?a < ?b)] =>
    destruct (decide (a < b)); [lia|] end.
  cbn [mbind result_bind].
  match goal with |- context [decide (?a < ?b)] =>
    destruct (decide (a < b)); [lia|] end.
  cbn [mbind result_bind]. unfold df_sample_frac, df_concat. cbn [rows columns].
  rewrite <- Hld, <- Hls, Hkd, Hks, Hksh. reflexivity.
Qed.

(** ** Two synthetic rows exchanged by the shuffle *)

Section Swapped.
Context `{StandardScaler, NearestNeighbors}.

(** Two rows that the repair leaves as they are, exchanged by the shuffle
    of line 188: the table handed to the removal of identical points holds
    the second row with the neighbour found for the first, and the first
    row with the neighbour found for the second. *)
Lemma checked_synth_df_swapped
    (X_train : DataFrame) (X_test_std : list (list Q))
    (A B : gmap string Q) (yA yB : Q) (sc : scaler) :
  repair {| columns := columns X_train; rows := [A; B] |}
    = Ok {| columns := columns X_train; rows := [A; B] |} →
  sc_fit (to_numpy X_train) = Ok sc →
  ∃ cols,
    "distance_to_closest_real"%string ∈ cols ∧
    checked_synth_df [1] X_train X_test_std
      {| columns := columns X_train; rows := [A; B] |} [yA; yB]
    = remove_identical
        {| columns := cols;
           rows :=
             [ <["closest_X_real_row_index"%string :=
                   inject_Z (Z.of_nat (nearest_real sc X_train X_test_std A).2)]>
                 (<["distance_to_closest_real"%string :=
                      distance_to_real sc X_train X_test_std A]>
                    (<["stroke"%string := yB]> B));
               <["closest_X_real_row_index"%string :=
                   inject_Z (Z.of_nat (nearest_real sc X_train X_test_std B).2)]>
                 (<["distance_to_closest_real"%string :=
                      distance_to_real sc X_train X_test_std B]>
                    (<["stroke"%string := yA]> A)) ] |}.
Proof.
  intros Hrepair Hfit.
  set (X_synthetic := {| columns := columns X_train; rows := [A; B] |}) in *.
  set (found_A := nearest_real sc X_train X_test_std A).
  set (found_B := nearest_real sc X_train X_test_std B).
  destruct (df_setcol_Ok X_synthetic y_label [yA; yB] eq_refl) as (c1 & Hset1 & Hy & Hc1).
  destruct (df_setcol_Ok
              {| columns := c1; rows := [<[y_label := yB]> B; <[y_label := yA]> A] |}
              "distance_to_closest_real" [found_A.1; found_B.1] eq_refl)
    as (c2 & Hset2 & Hd & Hc2).
  cbn [rows zip_with] in Hset2.
  destruct (df_setcol_Ok
              {| columns := c2;
                 rows := [<["distance_to_closest_real"%string := found_A.1]>
                            (<[y_label := yB]> B);
                          <["distance_to_closest_real"%string := found_B.1]>
                            (<[y_label := yA]> A)] |}
              "closest_X_real_row_index"
              [inject_Z (Z.of_nat found_A.2); inject_Z (Z.of_nat found_B.2)] eq_refl)
    as (c3 & Hset3 & Hi & Hc3).
  cbn [rows zip_with] in Hset3.
  exists c3. split; [now apply Hc3|].
  unfold checked_synth_df.
  change {| columns := columns X_train; rows := rows X_synthetic |} with X_synthetic.
  rewrite Hrepair. cbn [mbind result_bind]. rewrite Hset1. cbn [mbind result_bind].
  unfold standardise_data, transform. rewrite Hfit. cbn [mbind result_bind].
  destruct (decide (transform_accepts (to_numpy X_train) (to_numpy X_synthetic)))
    as [_|Hno]; [|destruct Hno; apply transform_accepts_to_numpy; discriminate].
  cbn [mbind result_bind].
  change (kneighbors _ (sc_transform sc (to_numpy X_synthetic)))
    with [found_A; found_B].
  change (df_sample_frac [1] _)
    with {| columns := c1; rows := [<[y_label := yB]> B; <[y_label := yA]> A] |}.
  unfold store_neighbours.
  change (fst <$> [found_A; found_B]) with [found_A.1; found_B.1]. rewrite Hset2.
  cbn [mbind result_bind fmap list_fmap snd].
  rewrite Hset3. cbn [mbind result_bind]. reflexivity.
Qed.

End Swapped.

(** ** Constraint repair: the claims *)

Import Tables.

(** C4 — For a non-empty group of raw values, [make_one_hot] succeeds and
    returns a list of the same length that holds 1 at the position of the
    maximum raw value and 0 at every other position.  The raw values are
    arbitrary rationals (negative ones and ones outside [0,1] included), and
    among equal maxima the first position in group order is the one set
    to 1: every earlier member is strictly smaller. *)
Theorem make_one_hot_first_maximum (x : list Q) :
  x ≠ [] →
  ∃ highest m x',
    make_one_hot x = Ok x' ∧
    length x' = length x ∧
    x !! highest = Some m ∧
    (∀ j v, x !! j = Some v → (v <= m)%Q) ∧
    (∀ j v, j < highest → x !! j = Some v → (v < m)%Q) ∧
    x' !! highest = Some 1%Q ∧
    (∀ j, j < length x → j ≠ highest → x' !! j = Some 0%Q).
Proof.
  intros Hne. destruct (argmax_nonempty x Hne) as [h Hh].
  destruct (argmax_spec x h Hh) as (m & Hm & Hmax & Hfirst).
  assert (Hlt : h < length x) by now apply lookup_lt_Some in Hm.
  exists h, m, (one_hot_at h (length x)).
  split; [now apply make_one_hot_unfold|].
  split; [apply one_hot_at_length|].
  repeat split; try assumption.
  - rewrite one_hot_at_lookup by exact Hlt. now destruct (decide (h = h)).
  - intros j Hj Hjh. rewrite one_hot_at_lookup by exact Hj.
    now destruct (decide (j = h)).
Qed.

Lemma make_one_hot_first_maximum_witness :
  [(-3 # 2); (7 # 10); (-1 # 5); (7 # 10)]%Q ≠ [] ∧
  ∃ highest m x',
    make_one_hot [(-3 # 2); (7 # 10); (-1 # 5); (7 # 10)]%Q = Ok x' ∧
    length x' = 4 ∧
    [(-3 # 2); (7 # 10); (-1 # 5); (7 # 10)]%Q !! highest = Some m ∧
    (∀ j v, [(-3 # 2); (7 # 10); (-1 # 5); (7 # 10)]%Q !! j = Some v → (v <= m)%Q) ∧
    (∀ j v, j < highest →
            [(-3 # 2); (7 # 10); (-1 # 5); (7 # 10)]%Q !! j = Some v → (v < m)%Q) ∧
    x' !! highest = Some 1%Q ∧
    (∀ j, j < 4 → j ≠ highest → x' !! j = Some 0%Q).
Proof.
  split; [discriminate|].
  apply (make_one_hot_first_maximum [(-3 # 2); (7 # 10); (-1 # 5); (7 # 10)]%Q).
  discriminate.
Defined.

(** C3 — Every row of a frame returned by [repair] satisfies the
    structural constraints of the schema: in each one-hot group exactly one
    member is 1 and all others are 0, so that the group sums to exactly 1,
    and each binary field is 0 or 1. *)
Theorem repair_output_constraints (df df' : DataFrame) :
  NoDup (columns df) →
  repair df = Ok df' →
  ∀ row, row ∈ rows df' →
    (∀ g, g ∈ one_hot_cols (columns df') →
       ∃ h x, h < length g ∧ row_getitems row g = Ok x ∧
              x = one_hot_at h (length g) ∧ cells_sum x = 1%Q) ∧
    (∀ c, c ∈ binary_cols → row !! c = Some 0%Q ∨ row !! c = Some 1%Q).
Proof.
  intros Hnd H row Hrow.
  apply repair_rows in H as (Hcols & _ & _ & Hrows). rewrite Hcols.
  apply list_elem_of_lookup in Hrow as [i Hi].
  destruct (Forall2_lookup_r _ _ _ _ _ Hrows Hi) as (r & _ & Hr).
  apply repair_row_ok in Hr as (Hg & _ & Hb); [|exact Hnd].
  rewrite Forall_forall in Hg. rewrite Forall_forall in Hb. split.
  - intros g Hin. destruct (Hg g Hin) as (h & Hh & Hx).
    exists h, (one_hot_at h (length g)).
    repeat split; [exact Hh | exact Hx | now apply cells_sum_one_hot_at].
  - intros c Hc. exact (Hb c Hc).
Qed.

Lemma repair_output_constraints_witness :
  NoDup (columns (mk_frame X_col_names [raw_cells])) ∧
  repair (mk_frame X_col_names [raw_cells])
    = Ok (mk_frame X_col_names [repaired_cells]) ∧
  ∀ row, row ∈ rows (mk_frame X_col_names [repaired_cells]) →
    (∀ g, g ∈ one_hot_cols (columns (mk_frame X_col_names [repaired_cells])) →
       ∃ h x, h < length g ∧ row_getitems row g = Ok x ∧
              x = one_hot_at h (length g) ∧ cells_sum x = 1%Q) ∧
    (∀ c, c ∈ binary_cols → row !! c = Some 0%Q ∨ row !! c = Some 1%Q).
Proof.
  assert (Hnd : NoDup (columns (mk_frame X_col_names [raw_cells]))).
  { apply (bool_decide_unpack _). vm_compute. exact I. }
  assert (Hrun : repair (mk_frame X_col_names [raw_cells])
                 = Ok (mk_frame X_col_names [repaired_cells])).
  { vm_compute. reflexivity. }
  split; [exact Hnd|]. split; [exact Hrun|].
  exact (repair_output_constraints _ _ Hnd Hrun).
Defined.

(** C5 — [repair] is idempotent: repairing a frame that [repair] returned
    (one-hot projection, integer rounding and binary clip-and-round applied
    a second time) succeeds and changes nothing. *)
Theorem repair_idempotent (df df' : DataFrame) :
  NoDup (columns df) →
  repair df = Ok df' →
  repair df' = Ok df'.
Proof.
  intros Hnd H. apply repair_rows in H as (Hcols & Hint & Hbin & Hrows).
  apply repair_id; rewrite Hcols; try assumption.
  apply Forall_forall. intros r' Hr'.
  apply list_elem_of_lookup in Hr' as [i Hi].
  destruct (Forall2_lookup_r _ _ _ _ _ Hrows Hi) as (r & _ & Hr).
  eapply repair_row_ok; eassumption.
Qed.

Lemma repair_idempotent_witness :
  NoDup (columns (mk_frame X_col_names [raw_cells])) ∧
  repair (mk_frame X_col_names [raw_cells])
    = Ok (mk_frame X_col_names [repaired_cells]) ∧
  repair (mk_frame X_col_names [repaired_cells])
    = Ok (mk_frame X_col_names [repaired_cells]).
Proof.
  assert (Hnd : NoDup (columns (mk_frame X_col_names [raw_cells]))).
  { apply (bool_decide_unpack _). vm_compute. exact I. }
  assert (Hrun : repair (mk_frame X_col_names [raw_cells])
                 = Ok (mk_frame X_col_names [repaired_cells])).
  { vm_compute. reflexivity. }
  split; [exact Hnd|]. split; [exact Hrun|].
  exact (repair_idempotent _ _ Hnd Hrun).
Defined.
(** ** SMOTE oversampling: the claims *)

(** C1 (as amended) — [number_of_samples] holds, per class, the number of
    synthetic rows to create, not the final class size: the function
    itself adds the existing class count to obtain the final size
    [n_class] that it hands to SMOTE.  For labels that are class labels
    and requests that go through, the number of synthetic rows returned
    for class c is therefore [n_class] minus the count of c in the real
    labels, which is [number_of_samples[c]]; it is zero when that number
    is zero, and no row of another class is returned.  When the difference
    is negative the call is refused with [ValueError]; it does not return
    zero rows. *)
Theorem make_synthetic_data_smote_counts `{SmoteSampler}
    (X : list (gmap string Q)) (y : list Q) (n0 n1 : Z) (rest : list Z) :
  length X = length y → class_labels y →
  let n_class_0 := wrap64 (n0 + Z.of_nat (count_eq 0 y)) in
  let n_class_1 := wrap64 (n1 + Z.of_nat (count_eq 1 y)) in
  (request_accepted y 0 n0 → request_accepted y 1 n1 →
   ∃ X_synthetic y_synthetic,
     make_synthetic_data_smote X y (n0 :: n1 :: rest) = Ok (X_synthetic, y_synthetic) ∧
     length X_synthetic = length y_synthetic ∧
     Z.of_nat (count_eq 0 y_synthetic) = (n_class_0 - Z.of_nat (count_eq 0 y))%Z ∧
     Z.of_nat (count_eq 1 y_synthetic) = (n_class_1 - Z.of_nat (count_eq 1 y))%Z ∧
     Z.of_nat (count_eq 0 y_synthetic) = n0 ∧
     Z.of_nat (count_eq 1 y_synthetic) = n1 ∧
     length y_synthetic = count_eq 0 y_synthetic + count_eq 1 y_synthetic) ∧
  (int64 n0 → int64 n1 → int64 (Z.of_nat (length y)) →
   (n0 < 0 ∨ n1 < 0)%Z →
   make_synthetic_data_smote X y (n0 :: n1 :: rest) = Raise ValueError).
Proof.
  intros Hlen Hy n_class_0 n_class_1. split.
  - intros H0 H1.
    destruct (make_synthetic_data_smote_Ok X y n0 n1 rest Hlen Hy H0 H1)
      as (Xs & Hrun & HXs).
    subst n_class_0 n_class_1.
    rewrite (wrap64_int64 _ (proj2 H0)), (wrap64_int64 _ (proj2 H1)).
    destruct H0 as [(_ & Hn0 & _) _], H1 as [(_ & Hn1 & _) _].
    exists Xs, (replicate (Z.to_nat n0) 0%Q ++ replicate (Z.to_nat n1) 1%Q).
    split; [exact Hrun|].
    rewrite length_app, !length_replicate, !count_eq_app, !count_eq_replicate.
    change (Qeq_bool 0 0) with true. change (Qeq_bool 1 0) with false.
    change (Qeq_bool 0 1) with false. change (Qeq_bool 1 1) with true.
    repeat split; lia.
  - intros Hi0 Hi1 Hrows Hneg.
    apply make_synthetic_data_smote_refused; [exact Hi0 | exact Hi1 | exact Hrows |].
    unfold request_accepted, smote_accepts. intros (_ & _ & H0 & H1). lia.
Qed.

(** The scenario of the specification in the terms of the code: 700 and
    300 real records, final sizes 1400 and 600, that is 700 and 300 rows
    to create; and a final size of 600 for the 700 records of class 0. *)
Lemma make_synthetic_data_smote_counts_witness :
  (length X_700_300 = length y_700_300 ∧ class_labels y_700_300 ∧
   request_accepted y_700_300 0 700 ∧ request_accepted y_700_300 1 300 ∧
   ∃ X_synthetic y_synthetic,
     @make_synthetic_data_smote Reference.smote_sampler
       X_700_300 y_700_300 [700; 300]%Z = Ok (X_synthetic, y_synthetic) ∧
     length X_synthetic = length y_synthetic ∧
     Z.of_nat (count_eq 0 y_synthetic)
       = (wrap64 (700 + Z.of_nat (count_eq 0 y_700_300))
          - Z.of_nat (count_eq 0 y_700_300))%Z ∧
     Z.of_nat (count_eq 1 y_synthetic)
       = (wrap64 (300 + Z.of_nat (count_eq 1 y_700_300))
          - Z.of_nat (count_eq 1 y_700_300))%Z ∧
     Z.of_nat (count_eq 0 y_synthetic) = 700%Z ∧
     Z.of_nat (count_eq 1 y_synthetic) = 300%Z ∧
     length y_synthetic = count_eq 0 y_synthetic + count_eq 1 y_synthetic) ∧
  (int64 (-100) ∧ int64 300 ∧ int64 (Z.of_nat (length y_700_300)) ∧
   (-100 < 0 ∨ 300 < 0)%Z ∧
   @make_synthetic_data_smote Reference.smote_sampler
     X_700_300 y_700_300 [-100; 300]%Z = Raise ValueError).
Proof.
  assert (Hlen : length X_700_300 = length y_700_300) by (vm_compute; reflexivity).
  assert (Hy : class_labels y_700_300).
  { apply class_labels_forallb. vm_compute. reflexivity. }
  assert (H0 : request_accepted y_700_300 0 700).
  { unfold request_accepted, smote_accepts, int64.
    apply (bool_decide_unpack _). vm_compute. exact I. }
  assert (H1 : request_accepted y_700_300 1 300).
  { unfold request_accepted, smote_accepts, int64.
    apply (bool_decide_unpack _). vm_compute. exact I. }
  assert (Hi0 : int64 (-100)) by (unfold int64; lia).
  assert (Hi1 : int64 300) by (unfold int64; lia).
  assert (Hrows : int64 (Z.of_nat (length y_700_300))).
  { unfold int64. apply (bool_decide_unpack _). vm_compute. exact I. }
  assert (Hneg : (-100 < 0 ∨ 300 < 0)%Z) by (left; lia).
  split.
  - split; [exact Hlen|]. split; [exact Hy|]. split; [exact H0|]. split; [exact H1|].
    exact (proj1 (@make_synthetic_data_smote_counts Reference.smote_sampler
                    X_700_300 y_700_300 700 300 [] Hlen Hy) H0 H1).
  - split; [exact Hi0|]. split; [exact Hi1|]. split; [exact Hrows|].
    split; [exact Hneg|].
    exact (proj2 (@make_synthetic_data_smote_counts Reference.smote_sampler
                    X_700_300 y_700_300 (-100) 300 [] Hlen Hy) Hi0 Hi1 Hrows Hneg).
Defined.

(** C1, counterexample — with 700 class-0 and 300 class-1 real records and
    the counts 1400 and 600 passed to the function, 1400 and 600 synthetic
    rows come back, not 1400 - 700 and 600 - 300.  And when the final size
    handed to SMOTE for class 0 is 600, below the 700 existing records,
    the call fails; it does not return zero rows for that class. *)
Lemma make_synthetic_data_smote_not_target_minus_existing :
  count_eq 0 y_700_300 = 700 ∧ count_eq 1 y_700_300 = 300 ∧
  (∃ X_synthetic y_synthetic,
     @make_synthetic_data_smote Reference.smote_sampler
       X_700_300 y_700_300 [1400; 600]%Z = Ok (X_synthetic, y_synthetic) ∧
     count_eq 0 y_synthetic = 1400 ∧ count_eq 1 y_synthetic = 600 ∧
     count_eq 0 y_synthetic ≠ 1400 - 700 ∧ count_eq 1 y_synthetic ≠ 600 - 300) ∧
  wrap64 (-100 + Z.of_nat (count_eq 0 y_700_300)) = 600%Z ∧
  @make_synthetic_data_smote Reference.smote_sampler
    X_700_300 y_700_300 [-100; 300]%Z = Raise ValueError.
Proof.
  split; [vm_compute; reflexivity|]. split; [vm_compute; reflexivity|].
  split; [|split; vm_compute; reflexivity].
  destruct (@make_synthetic_data_smote_Ok Reference.smote_sampler
              X_700_300 y_700_300 1400 600 []) as (Xs & Hrun & _).
  - vm_compute; reflexivity.
  - apply class_labels_forallb. vm_compute. reflexivity.
  - unfold request_accepted, smote_accepts, int64.
    apply (bool_decide_unpack _). vm_compute. exact I.
  - unfold request_accepted, smote_accepts, int64.
    apply (bool_decide_unpack _). vm_compute. exact I.
  - exists Xs, (replicate (Z.to_nat 1400) 0%Q ++ replicate (Z.to_nat 600) 1%Q).
    split; [exact Hrun|].
    assert (E0 : count_eq 0 (replicate (Z.to_nat 1400) 0%Q ++ replicate (Z.to_nat 600) 1%Q)
                 = 1400) by (vm_compute; reflexivity).
    assert (E1 : count_eq 1 (replicate (Z.to_nat 1400) 0%Q ++ replicate (Z.to_nat 600) 1%Q)
                 = 600) by (vm_compute; reflexivity).
    rewrite E0, E1. repeat split; lia.
Qed.

(** C9 (as amended) — the function has no check of its own on the size of
    a class and no error of its own; whatever it raises on a list of two
    requests is the [ValueError] of the SMOTE call.  For 64-bit requests
    on a table of fewer than 2^63 rows the call fails exactly when the
    tables differ in length, a label is not a whole number, or for some
    class the request does not go through: the class does not occur in
    the labels, a negative number of rows is requested, rows are requested
    for a class with at most [k_neighbors] = 5 members, or the final size
    overflows 64 bits.  In particular, for a class with exactly one real
    member the call fails when rows are requested for it, and when zero
    rows are requested the class is skipped: the call succeeds and returns
    no synthetic row of that class. *)
Theorem make_synthetic_data_smote_failure `{SmoteSampler}
    (X : list (gmap string Q)) (y : list Q) (n0 n1 : Z) (rest : list Z) :
  int64 n0 → int64 n1 → int64 (Z.of_nat (length y)) →
  (make_synthetic_data_smote X y (n0 :: n1 :: rest) = Raise ValueError ↔
     ¬ (length X = length y ∧ class_labels y ∧
        request_accepted y 0 n0 ∧ request_accepted y 1 n1)) ∧
  (∀ e, make_synthetic_data_smote X y (n0 :: n1 :: rest) = Raise e → e = ValueError) ∧
  (count_eq 1 y = 1 → (0 < n1)%Z →
     make_synthetic_data_smote X y (n0 :: n1 :: rest) = Raise ValueError) ∧
  (length X = length y → class_labels y →
   count_eq 1 y = 1 → n1 = 0%Z → request_accepted y 0 n0 →
     ∃ X_synthetic,
       make_synthetic_data_smote X y (n0 :: n1 :: rest)
         = Ok (X_synthetic, replicate (Z.to_nat n0) 0%Q)).
Proof.
  intros Hi0 Hi1 Hrows.
  assert (Hiff : make_synthetic_data_smote X y (n0 :: n1 :: rest) = Raise ValueError ↔
                 ¬ (length X = length y ∧ class_labels y ∧
                    request_accepted y 0 n0 ∧ request_accepted y 1 n1)).
  { split.
    - intros Hraise (Hlen & Hy & H0 & H1).
      destruct (make_synthetic_data_smote_Ok X y n0 n1 rest Hlen Hy H0 H1)
        as (Xs & Hrun & _).
      congruence.
    - now apply make_synthetic_data_smote_refused. }
  split; [exact Hiff|]. split; [|split].
  - intros e Hraise. destruct e; try reflexivity; exfalso.
    + assert (Hnn : ¬ ¬ (length X = length y ∧ class_labels y ∧
                         request_accepted y 0 n0 ∧ request_accepted y 1 n1)).
      { intros Hno. apply Hiff in Hno. congruence. }
      apply Hnn. intros (Hlen & Hy & H0 & H1).
      destruct (make_synthetic_data_smote_Ok X y n0 n1 rest Hlen Hy H0 H1)
        as (Xs & Hrun & _).
      congruence.
    + assert (Hnn : ¬ ¬ (length X = length y ∧ class_labels y ∧
                         request_accepted y 0 n0 ∧ request_accepted y 1 n1)).
      { intros Hno. apply Hiff in Hno. congruence. }
      apply Hnn. intros (Hlen & Hy & H0 & H1).
      destruct (make_synthetic_data_smote_Ok X y n0 n1 rest Hlen Hy H0 H1)
        as (Xs & Hrun & _).
      congruence.
  - intros Hone Hn1. apply Hiff.
    unfold request_accepted, smote_accepts, k_neighbors. intros (_ & _ & _ & H1). lia.
  - intros Hlen Hy Hone -> H0.
    assert (H1 : request_accepted y 1 0).
    { unfold request_accepted, smote_accepts, int64. lia. }
    destruct (make_synthetic_data_smote_Ok X y n0 0 rest Hlen Hy H0 H1) as (Xs & Hrun & _).
    exists Xs. rewrite Hrun. simpl. now rewrite app_nil_r.
Qed.

Lemma make_synthetic_data_smote_failure_witness :
  int64 2 ∧ int64 1 ∧ int64 0 ∧ int64 (Z.of_nat (length y_6_1)) ∧
  length X_6_1 = length y_6_1 ∧ class_labels y_6_1 ∧
  count_eq 1 y_6_1 = 1 ∧ (0 < 1)%Z ∧ request_accepted y_6_1 0 2 ∧
  (@make_synthetic_data_smote Reference.smote_sampler X_6_1 y_6_1 [2; 1]%Z
     = Raise ValueError ↔
     ¬ (length X_6_1 = length y_6_1 ∧ class_labels y_6_1 ∧
        request_accepted y_6_1 0 2 ∧ request_accepted y_6_1 1 1)) ∧
  (∀ e, @make_synthetic_data_smote Reference.smote_sampler X_6_1 y_6_1 [2; 1]%Z
          = Raise e → e = ValueError) ∧
  @make_synthetic_data_smote Reference.smote_sampler X_6_1 y_6_1 [2; 1]%Z
    = Raise ValueError ∧
  ∃ X_synthetic,
    @make_synthetic_data_smote Reference.smote_sampler X_6_1 y_6_1 [2; 0]%Z
      = Ok (X_synthetic, replicate (Z.to_nat 2) 0%Q).
Proof.
  assert (Hi2 : int64 2) by (unfold int64; lia).
  assert (Hi1 : int64 1) by (unfold int64; lia).
  assert (Hi0 : int64 0) by (unfold int64; lia).
  assert (Hrows : int64 (Z.of_nat (length y_6_1))).
  { unfold int64. apply (bool_decide_unpack _). vm_compute. exact I. }
  assert (Hlen : length X_6_1 = length y_6_1) by (vm_compute; reflexivity).
  assert (Hy : class_labels y_6_1).
  { apply class_labels_forallb. vm_compute. reflexivity. }
  assert (Hone : count_eq 1 y_6_1 = 1) by (vm_compute; reflexivity).
  assert (Hpos : (0 < 1)%Z) by lia.
  assert (H0 : request_accepted y_6_1 0 2).
  { unfold request_accepted, smote_accepts, int64.
    apply (bool_decide_unpack _). vm_compute. exact I. }
  split; [exact Hi2|]. split; [exact Hi1|]. split; [exact Hi0|].
  split; [exact Hrows|]. split; [exact Hlen|]. split; [exact Hy|].
  split; [exact Hone|]. split; [exact Hpos|]. split; [exact H0|].
  split; [|split; [|split]].
  - exact (proj1 (@make_synthetic_data_smote_failure Reference.smote_sampler
                    X_6_1 y_6_1 2 1 [] Hi2 Hi1 Hrows)).
  - exact (proj1 (proj2 (@make_synthetic_data_smote_failure Reference.smote_sampler
                           X_6_1 y_6_1 2 1 [] Hi2 Hi1 Hrows))).
  - exact (proj1 (proj2 (proj2 (@make_synthetic_data_smote_failure
                                  Reference.smote_sampler
                                  X_6_1 y_6_1 2 1 [] Hi2 Hi1 Hrows))) Hone Hpos).
  - exact (proj2 (proj2 (proj2 (@make_synthetic_data_smote_failure
                                  Reference.smote_sampler
                                  X_6_1 y_6_1 2 0 [] Hi2 Hi0 Hrows)))
             Hlen Hy Hone eq_refl H0).
Defined.

(** C9, counterexample — class 1 has exactly one real member and zero rows
    are requested for it: the call returns normally, with two synthetic
    rows of class 0 and none of class 1. *)
Lemma make_synthetic_data_smote_single_member_silent :
  count_eq 1 y_6_1 = 1 ∧
  ∃ X_synthetic,
    @make_synthetic_data_smote Reference.smote_sampler X_6_1 y_6_1 [2; 0]%Z
      = Ok (X_synthetic, [0; 0]%Q) ∧
    count_eq 1 [0; 0]%Q = 0.
Proof.
  split; [vm_compute; reflexivity|].
  destruct (@make_synthetic_data_smote_Ok Reference.smote_sampler
              X_6_1 y_6_1 2 0 []) as (Xs & Hrun & _).
  - vm_compute; reflexivity.
  - apply class_labels_forallb. vm_compute. reflexivity.
  - unfold request_accepted, smote_accepts, int64.
    apply (bool_decide_unpack _). vm_compute. exact I.
  - unfold request_accepted, smote_accepts, int64.
    apply (bool_decide_unpack _). vm_compute. exact I.
  - exists Xs. split; [exact Hrun | reflexivity].
Qed.

(** ** Quality trimming and rebalancing: the claims *)

(** C7 (the code departs from the claim) — two raw synthetic rows [A] and
    [B] that already satisfy the schema, neither closer to its nearest real
    row than the threshold, [A] closer than [B], and a shuffle (line 188)
    that exchanges them.  The distances are computed from the raw rows in
    their original order and stored by position in the shuffled table, so
    [A] is stored with the distance of [B] and [B] with that of [A].  Both
    rows pass the duplicate rejection; the trimming sorts by the stored
    value, keeps [int(2 * (1 - 0.1))] = 1 row and discards the other: the
    row it keeps is [A], the record closer to real data, and the row it
    discards is [B], the record with the largest nearest-real distance. *)
Theorem trim_closest_discards_farthest `{StandardScaler, NearestNeighbors}
    (X_train : DataFrame) (X_test_std : list (list Q))
    (A B : gmap string Q) (yA yB : Q) (sc : scaler) :
  repair {| columns := columns X_train; rows := [A; B] |}
    = Ok {| columns := columns X_train; rows := [A; B] |} →
  sc_fit (to_numpy X_train) = Ok sc →
  (duplicate_threshold <= distance_to_real sc X_train X_test_std A)%Q →
  (distance_to_real sc X_train X_test_std A
     < distance_to_real sc X_train X_test_std B)%Q →
  ∃ df kept,
    checked_synth_df [1] X_train X_test_std
      {| columns := columns X_train; rows := [A; B] |} [yA; yB] = Ok df ∧
    length (rows df) = 2 ∧
    trim_closest df = Ok kept ∧
    rows kept =
      [ <["closest_X_real_row_index"%string :=
            inject_Z (Z.of_nat (nearest_real sc X_train X_test_std B).2)]>
          (<["distance_to_closest_real"%string :=
               distance_to_real sc X_train X_test_std B]>
             (<["stroke"%string := yA]> A)) ].
Proof.
  intros Hrepair Hfit HA HAB.
  destruct (checked_synth_df_swapped X_train X_test_std A B yA yB sc Hrepair Hfit)
    as (cols & Hin & Hrun).
  set (dA := distance_to_real sc X_train X_test_std A) in *.
  set (dB := distance_to_real sc X_train X_test_std B) in *.
  match type of Hrun with _ = remove_identical ?F => set (frame := F) in * end.
  assert (Hget : df_getcol frame "distance_to_closest_real" = Ok [dA; dB]).
  { rewrite df_getcol_total; [| exact Hin |].
    - cbn [frame rows fmap list_fmap].
      repeat (rewrite lookup_insert_ne by discriminate; rewrite lookup_insert_eq).
      reflexivity.
    - cbn [frame rows]. repeat constructor;
        rewrite lookup_insert_ne by discriminate; rewrite lookup_insert_eq; eauto. }
  assert (HB : (duplicate_threshold <= dB)%Q).
  { apply Qle_trans with dA; [exact HA | now apply Qlt_le_weak]. }
  assert (Hkeep : remove_identical frame = Ok frame).
  { unfold remove_identical. rewrite Hget. cbn [mbind result_bind fmap list_fmap].
    rewrite (Qlt_bool_false _ _ HA), (Qlt_bool_false _ _ HB). reflexivity. }
  exists frame. eexists. split; [now rewrite Hrun|]. split; [reflexivity|].
  unfold trim_closest, sort_values_desc. rewrite Hget.
  cbn [mbind result_bind frame rows columns zip zip_with sort_desc foldr insert_desc fst].
  rewrite (proj1 (Qlt_alt dA dB) HAB). split; reflexivity.
Qed.

Lemma trim_closest_discards_farthest_witness :
  repair synth_two = Ok synth_two ∧
  @sc_fit Reference.standard_scaler (to_numpy train_3) = Ok scaler_3 ∧
  (duplicate_threshold <=
     @distance_to_real Reference.standard_scaler Reference.nearest_neighbors
       scaler_3 train_3 [] synth_near)%Q ∧
  (@distance_to_real Reference.standard_scaler Reference.nearest_neighbors
     scaler_3 train_3 [] synth_near
   < @distance_to_real Reference.standard_scaler Reference.nearest_neighbors
       scaler_3 train_3 [] synth_new)%Q ∧
  ∃ df kept,
    @checked_synth_df Reference.standard_scaler Reference.nearest_neighbors
      [1] train_3 [] synth_two [0; 0]%Q = Ok df ∧
    length (rows df) = 2 ∧
    trim_closest df = Ok kept ∧
    rows kept =
      [ <["closest_X_real_row_index"%string :=
            inject_Z (Z.of_nat
              (@nearest_real Reference.standard_scaler Reference.nearest_neighbors
                 scaler_3 train_3 [] synth_new).2)]>
          (<["distance_to_closest_real"%string :=
               @distance_to_real Reference.standard_scaler Reference.nearest_neighbors
                 scaler_3 train_3 [] synth_new]>
             (<["stroke"%string := 0%Q]> synth_near)) ].
Proof.
  assert (H1 : repair synth_two = Ok synth_two) by (vm_compute; reflexivity).
  assert (H2 : @sc_fit Reference.standard_scaler (to_numpy train_3) = Ok scaler_3)
    by (vm_compute; reflexivity).
  assert (H3 : (duplicate_threshold <=
                @distance_to_real Reference.standard_scaler Reference.nearest_neighbors
                  scaler_3 train_3 [] synth_near)%Q)
    by (vm_compute; discriminate).
  assert (H4 : (@distance_to_real Reference.standard_scaler Reference.nearest_neighbors
                  scaler_3 train_3 [] synth_near
                < @distance_to_real Reference.standard_scaler Reference.nearest_neighbors
                    scaler_3 train_3 [] synth_new)%Q)
    by (vm_compute; reflexivity).
  split; [exact H1|]. split; [exact H2|]. split; [exact H3|]. split; [exact H4|].
  exact (@trim_closest_discards_farthest
           Reference.standard_scaler Reference.nearest_neighbors
           train_3 [] synth_near synth_new 0%Q 0%Q scaler_3 H1 H2 H3 H4).
Defined.

(** The same run, evaluated: of the records of ages 45 and 46 the trimming
    keeps the one of age 45, at distance 500000/1632993 (about 0.31) from
    the real record of age 44, and discards the one of age 46, at twice
    that distance from its nearest real record. *)
Example trim_closest_run :
  ((λ df, (λ r : gmap string Q, r !! "age"%string) <$> rows df) <$>
     (match @checked_synth_df Reference.standard_scaler Reference.nearest_neighbors
              [1] train_3 [] synth_two [0; 0]%Q with
      | Ok df => match trim_closest df with Ok kept => Some kept | Raise _ => None end
      | Raise _ => None end),
   @distance_to_real Reference.standard_scaler Reference.nearest_neighbors
     scaler_3 train_3 [] synth_near,
   @distance_to_real Reference.standard_scaler Reference.nearest_neighbors
     scaler_3 train_3 [] synth_new)
  = (Some [Some 45%Q], 500000 # 1632993, 1000000 # 1632993)%Q.
Proof. vm_compute. reflexivity. Qed.

(** The trimming on the stored column: the rows are sorted by the value
    stored under [distance_to_closest_real], largest first, and only the
    first [int(n * (1 - 0.1))] of the [n] rows are kept: the kept rows are
    in decreasing order of the stored value, the kept and the discarded
    rows together are the rows of the table, and no discarded row has a
    larger stored value than a kept one.  Of 1000 rows exactly 900 are
    kept. *)
Lemma trim_closest_stored_column (df : DataFrame) :
  "distance_to_closest_real"%string ∈ columns df →
  df_wf df →
  ∃ kept dropped,
    trim_closest df = Ok {| columns := columns df; rows := kept |} ∧
    rows df ≡ₚ kept ++ dropped ∧
    Z.of_nat (length kept)
      = int_of (inject_Z (Z.of_nat (length (rows df))) * (1 - proportion_to_remove)) ∧
    (length (rows df) = 1000 → length kept = 900 ∧ length dropped = 100) ∧
    StronglySorted (row_desc "distance_to_closest_real") kept ∧
    (∀ r r', r ∈ kept → r' ∈ dropped → row_desc "distance_to_closest_real" r r').
Proof.
  intros Hin Hwf.
  pose proof (df_getcol_total df _ Hin (df_wf_column df _ Hwf Hin)) as Hget.
  destruct (trim_closest_spec df _ Hget) as (kept & dropped & Hrun & Hperm & Hlen & Hs & Hd).
  exists kept, dropped.
  split; [exact Hrun|]. split; [exact Hperm|]. split; [|split; [|split]];
    [| | exact Hs | exact Hd].
  - rewrite number_to_keep_eq, Hlen. apply Z2Nat.id.
    apply Z.quot_pos; lia.
  - intros H1000. apply Permutation_length in Hperm.
    rewrite length_app, Hlen, H1000 in Hperm. rewrite Hlen, H1000.
    change (Z.to_nat (Z.quot (Z.of_nat 1000 * 9) 10)) with 900 in *. lia.
Qed.

Lemma trim_closest_stored_column_run :
  "distance_to_closest_real"%string ∈ columns distances_1000 ∧
  df_wf distances_1000 ∧
  ∃ kept dropped,
    trim_closest distances_1000
      = Ok {| columns := columns distances_1000; rows := kept |} ∧
    rows distances_1000 ≡ₚ kept ++ dropped ∧
    Z.of_nat (length kept)
      = int_of (inject_Z (Z.of_nat (length (rows distances_1000)))
                * (1 - proportion_to_remove)) ∧
    (length (rows distances_1000) = 1000 → length kept = 900 ∧ length dropped = 100) ∧
    StronglySorted (row_desc "distance_to_closest_real") kept ∧
    (∀ r r', r ∈ kept → r' ∈ dropped → row_desc "distance_to_closest_real" r r').
Proof.
  assert (Hin : "distance_to_closest_real"%string ∈ columns distances_1000).
  { apply (bool_decide_unpack _). vm_compute. exact I. }
  assert (Hwf : df_wf distances_1000).
  { unfold df_wf. apply (bool_decide_unpack _). vm_compute. exact I. }
  split; [exact Hin|]. split; [exact Hwf|].
  exact (trim_closest_stored_column distances_1000 Hin Hwf).
Qed.

(** C8 (as amended) — For a filtered table whose rows all carry a label:
    if the pool of class 0 holds at least [number_died] rows and the pool
    of class 1 at least [number_survived], rebalancing succeeds and its
    output holds exactly [number_died] rows of class 0 and exactly
    [number_survived] rows of class 1, no other row, each drawn from the
    table without replacement; if either pool is smaller than its target
    count, rebalancing fails with the [ValueError] raised by [sample]: the
    source defines no error of its own.  Which rows are drawn is left to
    [DataFrame.sample], called without weights: the draws alone decide,
    and every choice of [number_died] rows of the class-0 pool and
    [number_survived] rows of the class-1 pool is the output for some
    draws. *)
Theorem rebalance_exact_counts
    (keys_died keys_survived keys_shuffle : list nat)
    (number_died number_survived : nat) (df : DataFrame) (labels : list Q) :
  df_getcol df "stroke" = Ok labels →
  (number_died ≤ count_eq 0 labels ∧ number_survived ≤ count_eq 1 labels →
     ∃ out ys,
       rebalance keys_died keys_survived keys_shuffle number_died number_survived df
         = Ok out ∧
       columns out = columns df ∧
       df_getcol out "stroke" = Ok ys ∧
       count_eq 0 ys = number_died ∧ count_eq 1 ys = number_survived ∧
       length (rows out) = number_died + number_survived ∧
       rows out ⊆+ rows df) ∧
  (¬ (number_died ≤ count_eq 0 labels ∧ number_survived ≤ count_eq 1 labels) →
     rebalance keys_died keys_survived keys_shuffle number_died number_survived df
       = Raise ValueError) ∧
  (∀ died survived,
     died ⊆+ rows_of_class 0 (rows df) labels → length died = number_died →
     survived ⊆+ rows_of_class 1 (rows df) labels →
     length survived = number_survived →
     ∃ draws_died draws_survived draws_shuffle,
       rebalance draws_died draws_survived draws_shuffle number_died number_survived df
         = Ok {| columns := columns df; rows := died ++ survived |}).
Proof.
  intros Hget. split; [|split].
  - intros [Hd Hs]. now apply rebalance_enough with labels.
  - intros Hshort. apply rebalance_short with labels; [exact Hget|].
    destruct (decide (number_died ≤ count_eq 0 labels)); [|lia].
    destruct (decide (number_survived ≤ count_eq 1 labels)); [|lia].
    tauto.
  - intros died survived Hd Hld Hs Hls.
    now apply rebalance_reaches with labels.
Qed.

(** Two rows of class 0 and one of class 1 from the pool of three and two;
    the last two of the three rows of class 0, in reverse order, and the
    second row of class 1 are the output for some draws. *)
Lemma rebalance_exact_counts_witness :
  df_getcol pool_3_2 "stroke" = Ok [0; 1; 0; 1; 0]%Q ∧
  (2 ≤ count_eq 0 [0; 1; 0; 1; 0]%Q ∧ 1 ≤ count_eq 1 [0; 1; 0; 1; 0]%Q) ∧
  [mk_row ["age"; "stroke"] [66; 0]%Q; mk_row ["age"; "stroke"] [58; 0]%Q]
    ⊆+ rows_of_class 0 (rows pool_3_2) [0; 1; 0; 1; 0]%Q ∧
  [mk_row ["age"; "stroke"] [62; 1]%Q]
    ⊆+ rows_of_class 1 (rows pool_3_2) [0; 1; 0; 1; 0]%Q ∧
  (∃ out ys,
     rebalance [1; 0; 2] [1] [2; 0; 1] 2 1 pool_3_2 = Ok out ∧
     columns out = columns pool_3_2 ∧
     df_getcol out "stroke" = Ok ys ∧
     count_eq 0 ys = 2 ∧ count_eq 1 ys = 1 ∧
     length (rows out) = 2 + 1 ∧
     rows out ⊆+ rows pool_3_2) ∧
  (¬ (4 ≤ count_eq 0 [0; 1; 0; 1; 0]%Q ∧ 1 ≤ count_eq 1 [0; 1; 0; 1; 0]%Q) ∧
   rebalance [1; 0; 2] [1] [2; 0; 1] 4 1 pool_3_2 = Raise ValueError) ∧
  ∃ draws_died draws_survived draws_shuffle,
    rebalance draws_died draws_survived draws_shuffle 2 1 pool_3_2
      = Ok {| columns := columns pool_3_2;
              rows := [mk_row ["age"; "stroke"] [66; 0]%Q;
                       mk_row ["age"; "stroke"] [58; 0]%Q]
                      ++ [mk_row ["age"; "stroke"] [62; 1]%Q] |}.
Proof.
  assert (Hget : df_getcol pool_3_2 "stroke" = Ok [0; 1; 0; 1; 0]%Q)
    by (vm_compute; reflexivity).
  assert (Henough : 2 ≤ count_eq 0 [0; 1; 0; 1; 0]%Q ∧ 1 ≤ count_eq 1 [0; 1; 0; 1; 0]%Q).
  { apply (bool_decide_unpack _). vm_compute. exact I. }
  assert (Hshort : ¬ (4 ≤ count_eq 0 [0; 1; 0; 1; 0]%Q ∧
                      1 ≤ count_eq 1 [0; 1; 0; 1; 0]%Q)).
  { apply (bool_decide_unpack _). vm_compute. exact I. }
  assert (Hd : [mk_row ["age"; "stroke"] [66; 0]%Q; mk_row ["age"; "stroke"] [58; 0]%Q]
               ⊆+ rows_of_class 0 (rows pool_3_2) [0; 1; 0; 1; 0]%Q).
  { change (rows_of_class 0 (rows pool_3_2) [0; 1; 0; 1; 0]%Q)
      with [mk_row ["age"; "stroke"] [50; 0]%Q; mk_row ["age"; "stroke"] [58; 0]%Q;
            mk_row ["age"; "stroke"] [66; 0]%Q].
    apply submseteq_cons. rewrite submseteq_swap. reflexivity. }
  assert (Hs : [mk_row ["age"; "stroke"] [62; 1]%Q]
               ⊆+ rows_of_class 1 (rows pool_3_2) [0; 1; 0; 1; 0]%Q).
  { change (rows_of_class 1 (rows pool_3_2) [0; 1; 0; 1; 0]%Q)
      with [mk_row ["age"; "stroke"] [54; 1]%Q; mk_row ["age"; "stroke"] [62; 1]%Q].
    apply submseteq_cons. reflexivity. }
  split; [exact Hget|]. split; [exact Henough|]. split; [exact Hd|]. split; [exact Hs|].
  split; [|split].
  - exact (proj1 (rebalance_exact_counts [1; 0; 2] [1] [2; 0; 1] 2 1 pool_3_2 _ Hget)
             Henough).
  - split; [exact Hshort|].
    exact (proj1 (proj2 (rebalance_exact_counts [1; 0; 2] [1] [2; 0; 1] 4 1 pool_3_2 _
                           Hget)) Hshort).
  - exact (proj2 (proj2 (rebalance_exact_counts [] [] [] 2 1 pool_3_2 _ Hget))
             _ _ Hd eq_refl Hs eq_refl).
Defined.

(** C8, counterexample — a pool of three class-0 rows cannot supply four:
    the call fails, and what it raises is the [ValueError] of
    [DataFrame.sample], the only error a pool that is too small gives. *)
Lemma rebalance_raises_value_error :
  df_getcol pool_3_2 "stroke" = Ok [0; 1; 0; 1; 0]%Q ∧
  count_eq 0 [0; 1; 0; 1; 0]%Q = 3 ∧
  rebalance [] [] [] 4 1 pool_3_2 = Raise ValueError ∧
  rebalance [] [] [] 4 1 pool_3_2 ≠ Raise KeyError ∧
  rebalance [] [] [] 4 1 pool_3_2 ≠ Raise IndexError.
Proof.
  split; [vm_compute; reflexivity|]. split; [vm_compute; reflexivity|].
  assert (Hrun : rebalance [] [] [] 4 1 pool_3_2 = Raise ValueError)
    by (vm_compute; reflexivity).
  rewrite Hrun. repeat split; discriminate.
Qed.

Example rebalance_runs :
  to_numpy <$> (match rebalance [1; 0; 2] [1] [2; 0; 1] 2 1 pool_3_2 with
                | Ok out => Some out | Raise _ => None end)
  = Some [[50; 0]; [62; 1]; [58; 0]]%Q.
Proof. vm_compute. reflexivity. Qed.

(** ** Standardisation of the synthetic training data: the claim *)

(** C2 (as amended) — the classifier trained on synthetic data is fit on
    the synthetic features standardised with a scaler that is fitted on
    those synthetic features themselves ([standardise_data(X_synth,
    X_test)]); the test features it predicts are transformed by the same
    synthetic-data scaler.  The scaler fitted on the real training
    features is used for the synthetic rows only before the neighbour
    search. *)
Theorem model_synth_fit_on_synthetic_statistics `{StandardScaler}
    (X_col_names : list string) (synth_df X_test : DataFrame)
    (X_synth_std : list (list Q)) (y_synth : list Q) (X_test_std : list (list Q)) :
  fit_model_synth X_col_names synth_df X_test = Ok (X_synth_std, y_synth, X_test_std) →
  ∃ X_synth sc,
    df_select synth_df X_col_names = Ok X_synth ∧
    df_getcol synth_df "stroke" = Ok y_synth ∧
    sc_fit (to_numpy X_synth) = Ok sc ∧
    X_synth_std = sc_transform sc (to_numpy X_synth) ∧
    X_test_std = sc_transform sc (to_numpy X_test).
Proof.
  unfold fit_model_synth. intros Hrun.
  inv_bind Hrun. rename a into X_synth.
  inv_bind Hrun. rename a into y.
  inv_bind Hrun. destruct a as [Xs Xt]. injection Hrun as <- <- <-.
  apply standardise_data_Ok in Hstep1 as (sc & Hfit & _ & -> & ->).
  exists X_synth, sc. auto.
Qed.

Lemma model_synth_fit_on_synthetic_statistics_witness :
  @fit_model_synth Reference.standard_scaler ["age"%string] synth_age test_age
    = Ok ([[-1]; [1]]%Q, [0; 1]%Q, [[-2]]%Q) ∧
  ∃ X_synth sc,
    df_select synth_age ["age"%string] = Ok X_synth ∧
    df_getcol synth_age "stroke" = Ok [0; 1]%Q ∧
    @sc_fit Reference.standard_scaler (to_numpy X_synth) = Ok sc ∧
    [[-1]; [1]]%Q = @sc_transform Reference.standard_scaler sc (to_numpy X_synth) ∧
    [[-2]]%Q = @sc_transform Reference.standard_scaler sc (to_numpy test_age).
Proof.
  assert (Hrun : @fit_model_synth Reference.standard_scaler
                   ["age"%string] synth_age test_age
                 = Ok ([[-1]; [1]]%Q, [0; 1]%Q, [[-2]]%Q)) by (vm_compute; reflexivity).
  split; [exact Hrun|].
  exact (@model_synth_fit_on_synthetic_statistics Reference.standard_scaler
           _ _ _ _ _ _ Hrun).
Defined.

(** C2, counterexample — real training ages 40 and 44, synthetic ages 50
    and 54.  The synthetic model is fit on [[-1]; [1]], the synthetic ages
    standardised by their own mean and deviation; the scaler fitted on the
    real training ages would have given [[4]; [6]]. *)
Lemma model_synth_not_fit_on_real_statistics :
  @fit_model_synth Reference.standard_scaler ["age"%string] synth_age test_age
    = Ok ([[-1]; [1]]%Q, [0; 1]%Q, [[-2]]%Q) ∧
  (∃ sc, @sc_fit Reference.standard_scaler (to_numpy train_age) = Ok sc ∧
         @sc_transform Reference.standard_scaler sc [[50]; [54]]%Q = [[4]; [6]]%Q) ∧
  [[-1]; [1]]%Q ≠ [[4]; [6]]%Q.
Proof.
  split; [vm_compute; reflexivity|]. split; [|discriminate].
  eexists. split; vm_compute; reflexivity.
Qed.

(** ** Duplicate rejection: the claim *)

(** C6 (the code departs from the claim) — two raw synthetic rows [A] and
    [B] that already satisfy the schema, [A] closer to its nearest real row
    than the threshold and [B] not, and a shuffle (line 188) that exchanges
    them.  The distances are computed from the raw rows in their original
    order and stored by position in the shuffled table: the record [A] is
    stored with the distance of [B] and kept, the record [B] is stored with
    the distance of [A] and dropped.  The table returned by the duplicate
    rejection holds exactly the record whose distance to its nearest real
    row is below the threshold. *)
Theorem checked_synth_df_keeps_near_duplicate `{StandardScaler, NearestNeighbors}
    (X_train : DataFrame) (X_test_std : list (list Q))
    (A B : gmap string Q) (yA yB : Q) (sc : scaler) :
  repair {| columns := columns X_train; rows := [A; B] |}
    = Ok {| columns := columns X_train; rows := [A; B] |} →
  sc_fit (to_numpy X_train) = Ok sc →
  (distance_to_real sc X_train X_test_std A < duplicate_threshold)%Q →
  (duplicate_threshold <= distance_to_real sc X_train X_test_std B)%Q →
  ∃ df,
    checked_synth_df [1] X_train X_test_std
      {| columns := columns X_train; rows := [A; B] |} [yA; yB] = Ok df ∧
    rows df =
      [ <["closest_X_real_row_index"%string :=
            inject_Z (Z.of_nat (nearest_real sc X_train X_test_std B).2)]>
          (<["distance_to_closest_real"%string :=
               distance_to_real sc X_train X_test_std B]>
             (<["stroke"%string := yA]> A)) ].
Proof.
  intros Hrepair Hfit HA HB.
  set (X_synthetic := {| columns := columns X_train; rows := [A; B] |}) in *.
  unfold checked_synth_df.
  change {| columns := columns X_train; rows := rows X_synthetic |} with X_synthetic.
  rewrite Hrepair. cbn [mbind result_bind].
  destruct (df_setcol_Ok X_synthetic y_label [yA; yB] eq_refl) as (c1 & -> & Hy & Hc1).
  cbn [mbind result_bind].
  unfold standardise_data, transform. rewrite Hfit. cbn [mbind result_bind].
  destruct (decide (transform_accepts (to_numpy X_train) (to_numpy X_synthetic)))
    as [_|Hno]; [|destruct Hno; apply transform_accepts_to_numpy; discriminate].
  cbn [mbind result_bind].
  set (found_A := nearest_real sc X_train X_test_std A).
  set (found_B := nearest_real sc X_train X_test_std B).
  change (kneighbors _ (sc_transform sc (to_numpy X_synthetic)))
    with [found_A; found_B].
  change (df_sample_frac [1] _)
    with {| columns := c1; rows := [<[y_label := yB]> B; <[y_label := yA]> A] |}.
  unfold store_neighbours.
  destruct (df_setcol_Ok
              {| columns := c1; rows := [<[y_label := yB]> B; <[y_label := yA]> A] |}
              "distance_to_closest_real" [found_A.1; found_B.1] eq_refl)
    as (c2 & Hset & Hd & Hc2).
  change (fst <$> [found_A; found_B]) with [found_A.1; found_B.1]. rewrite Hset.
  cbn [mbind result_bind rows zip_with fmap list_fmap].
  match goal with |- context [df_setcol ?d ?c ?v] =>
    let Hlen := fresh in
    assert (Hlen : length v = length (rows d)) by reflexivity;
    destruct (df_setcol_Ok d c v Hlen) as (c3 & -> & Hi & Hc3) end.
  cbn [mbind result_bind rows columns zip_with fmap list_fmap].
  unfold remove_identical. rewrite df_getcol_total; cbn [rows columns].
  - cbn [mbind result_bind fmap list_fmap].
    repeat (rewrite lookup_insert_ne by discriminate; rewrite lookup_insert_eq).
    cbn [from_option id fst snd].
    change found_A.1 with (distance_to_real sc X_train X_test_std A).
    rewrite (Qlt_bool_true _ _ HA).
    change found_B.1 with (distance_to_real sc X_train X_test_std B).
    rewrite (Qlt_bool_false _ _ HB).
    eexists. split; reflexivity.
  - now apply Hc3.
  - repeat constructor; rewrite lookup_insert_ne by discriminate;
      rewrite lookup_insert_eq; eauto.
Qed.

Lemma checked_synth_df_keeps_near_duplicate_witness :
  repair synth_pair = Ok synth_pair ∧
  @sc_fit Reference.standard_scaler (to_numpy train_3) = Ok scaler_3 ∧
  (@distance_to_real Reference.standard_scaler Reference.nearest_neighbors
     scaler_3 train_3 [] synth_copy < duplicate_threshold)%Q ∧
  (duplicate_threshold <=
     @distance_to_real Reference.standard_scaler Reference.nearest_neighbors
       scaler_3 train_3 [] synth_new)%Q ∧
  ∃ df,
    @checked_synth_df Reference.standard_scaler Reference.nearest_neighbors
      [1] train_3 [] synth_pair [0; 0]%Q = Ok df ∧
    rows df =
      [ <["closest_X_real_row_index"%string :=
            inject_Z (Z.of_nat
              (@nearest_real Reference.standard_scaler Reference.nearest_neighbors
                 scaler_3 train_3 [] synth_new).2)]>
          (<["distance_to_closest_real"%string :=
               @distance_to_real Reference.standard_scaler Reference.nearest_neighbors
                 scaler_3 train_3 [] synth_new]>
             (<["stroke"%string := 0%Q]> synth_copy)) ].
Proof.
  assert (H1 : repair synth_pair = Ok synth_pair) by (vm_compute; reflexivity).
  assert (H2 : @sc_fit Reference.standard_scaler (to_numpy train_3) = Ok scaler_3)
    by (vm_compute; reflexivity).
  assert (H3 : (@distance_to_real Reference.standard_scaler Reference.nearest_neighbors
                  scaler_3 train_3 [] synth_copy < duplicate_threshold)%Q)
    by (vm_compute; reflexivity).
  assert (H4 : (duplicate_threshold <=
                @distance_to_real Reference.standard_scaler Reference.nearest_neighbors
                  scaler_3 train_3 [] synth_new)%Q)
    by (vm_compute; discriminate).
  split; [exact H1|]. split; [exact H2|]. split; [exact H3|]. split; [exact H4|].
  exact (@checked_synth_df_keeps_near_duplicate
           Reference.standard_scaler Reference.nearest_neighbors
           train_3 [] synth_copy synth_new 0%Q 0%Q scaler_3 H1 H2 H3 H4).
Defined.

(** The same run, evaluated: the copy of the real record of age 44 is
    returned, stored with the distance of the other row; the new record of
    age 46 is gone. *)
Example checked_synth_df_run :
  (λ df, (λ r : gmap string Q, r !! "age"%string) <$> rows df) <$>
    (match @checked_synth_df Reference.standard_scaler Reference.nearest_neighbors
             [1] train_3 [] synth_pair [0; 0]%Q with
     | Ok df => Some df | Raise _ => None end)
  = Some [Some 44%Q].
Proof. vm_compute. reflexivity. Qed.
(** ** Targets of the rebalancing: the claim *)

(** C10 — In a successful run the synthetic table that reaches the
    rebalancing is generated from the training partition alone, and the
    rebalancing is called on it with the class counts of the ENTIRE real
    table as targets: the final synthetic table is the result of that
    call, its rows are rows of that pool, and it holds, for each class, as
    many rows as the whole real table has records of that class.  These
    counts are taken before the split and are the sums of the counts of
    the training and of the test partition; they are not the counts of the
    training labels [y_train], from which the synthetic rows are generated
    and on which the real-data model is fit. *)
Theorem pipeline_rebalance_targets `{StandardScaler, NearestNeighbors, SmoteSampler}
    (rnd : Randomness) (data : DataFrame) (out : Outcome) :
  pipeline rnd data = Ok out →
  ∃ stroke X X_train_rows X_test_rows y_train y_test pool ys,
    df_getcol data "stroke" = Ok stroke ∧
    df_drop data "stroke" = Ok X ∧
    train_test_split (rnd_split rnd) (rows X) stroke
      = Ok (X_train_rows, X_test_rows, y_train, y_test) ∧
    (out_model_fit out).2 = y_train ∧
    synthetic_pool rnd {| columns := columns X; rows := X_train_rows |}
      {| columns := columns X; rows := X_test_rows |} y_train = Ok pool ∧
    rebalance (rnd_died rnd) (rnd_survived rnd) (rnd_shuffle_final rnd)
      (count_eq 0 stroke) (count_eq 1 stroke) pool = Ok (out_synth_df out) ∧
    rows (out_synth_df out) ⊆+ rows pool ∧
    df_getcol (out_synth_df out) "stroke" = Ok ys ∧
    count_eq 0 ys = count_eq 0 stroke ∧
    count_eq 1 ys = count_eq 1 stroke ∧
    count_eq 0 stroke = count_eq 0 y_train + count_eq 0 y_test ∧
    count_eq 1 stroke = count_eq 1 y_train + count_eq 1 y_test.
Proof.
  intros Hrun. unfold pipeline in Hrun.
  inv_bind Hrun. rename a into stroke.
  inv_bind Hrun. rename a into X.
  inv_bind Hrun. rename a into y.
  assert (y = stroke) as -> by congruence.
  inv_bind Hrun. destruct a as [[[X_train_rows X_test_rows] y_train] y_test].
  inv_bind Hrun. destruct a as [X_train_std X_test_std].
  inv_bind Hrun. destruct a as [X_synthetic_rows y_synthetic].
  inv_bind Hrun. rename a into checked.
  inv_bind Hrun. rename a into trimmed.
  inv_bind Hrun. rename a into balanced.
  inv_bind Hrun. destruct a as [[X_synth_std y_synth] X_test_std'].
  injection Hrun as <-. cbn [out_model_fit out_synth_df snd].
  match goal with Hr : rebalance _ _ _ _ _ _ = Ok _ |- _ =>
    pose proof Hr as Hcall;
    apply rebalance_Ok_counts in Hr as (ys & Hys & Hcount0 & Hcount1 & Hsub) end.
  match goal with Hs : train_test_split _ _ _ = Ok _ |- _ =>
    destruct (train_test_split_Ok _ _ _ _ _ _ _ Hs) as (_ & Hperm & _) end.
  exists stroke, X, X_train_rows, X_test_rows, y_train, y_test,
    (df_sample_frac (rnd_shuffle_kept rnd) trimmed), ys.
  split; [assumption|]. split; [assumption|]. split; [assumption|].
  split; [reflexivity|]. split.
  { unfold synthetic_pool.
    repeat match goal with
    | Hs : ?t = Ok _ |- context [?t] => rewrite Hs; cbn [mbind result_bind]
    end.
    reflexivity. }
  split; [exact Hcall|]. split; [exact Hsub|]. split; [exact Hys|].
  split; [exact Hcount0|]. split; [exact Hcount1|]. split.
  - rewrite (count_eq_Permutation 0 _ _ Hperm), count_eq_app. lia.
  - rewrite (count_eq_Permutation 1 _ _ Hperm), count_eq_app. lia.
Qed.

Lemma pipeline_rebalance_targets_witness :
  ∃ out,
    @pipeline Reference.standard_scaler Reference.nearest_neighbors
      Reference.smote_sampler no_draws data = Ok out ∧
    ∃ stroke X X_train_rows X_test_rows y_train y_test pool ys,
      df_getcol data "stroke" = Ok stroke ∧
      df_drop data "stroke" = Ok X ∧
      train_test_split (rnd_split no_draws) (rows X) stroke
        = Ok (X_train_rows, X_test_rows, y_train, y_test) ∧
      (out_model_fit out).2 = y_train ∧
      @synthetic_pool Reference.standard_scaler Reference.nearest_neighbors
        Reference.smote_sampler no_draws
        {| columns := columns X; rows := X_train_rows |}
        {| columns := columns X; rows := X_test_rows |} y_train = Ok pool ∧
      rebalance (rnd_died no_draws) (rnd_survived no_draws) (rnd_shuffle_final no_draws)
        (count_eq 0 stroke) (count_eq 1 stroke) pool = Ok (out_synth_df out) ∧
      rows (out_synth_df out) ⊆+ rows pool ∧
      df_getcol (out_synth_df out) "stroke" = Ok ys ∧
      count_eq 0 ys = count_eq 0 stroke ∧
      count_eq 1 ys = count_eq 1 stroke ∧
      count_eq 0 stroke = count_eq 0 y_train + count_eq 0 y_test ∧
      count_eq 1 stroke = count_eq 1 y_train + count_eq 1 y_test.
Proof.
  assert (Hrun : ∃ out,
            @pipeline Reference.standard_scaler Reference.nearest_neighbors
              Reference.smote_sampler no_draws data = Ok out).
  { vm_compute. eexists. reflexivity. }
  destruct Hrun as [out Hrun]. exists out. split; [exact Hrun|].
  exact (@pipeline_rebalance_targets Reference.standard_scaler
           Reference.nearest_neighbors Reference.smote_sampler
           no_draws data out Hrun).
Defined.

(** On the table of twenty records, ten per class, the training partition
    holds eight records of either class; the rebalanced synthetic table
    holds ten. *)
Example pipeline_targets_exceed_training_counts :
  match @pipeline Reference.standard_scaler Reference.nearest_neighbors
          Reference.smote_sampler no_draws data with
  | Ok out =>
      Some (count_eq 0 (out_model_fit out).2, count_eq 1 (out_model_fit out).2,
            match df_getcol (out_synth_df out) "stroke" with
            | Ok ys => Some (count_eq 0 ys, count_eq 1 ys)
            | Raise _ => None
            end)
  | Raise _ => None
  end = Some (8, 8, Some (10, 10)).
Proof. vm_compute. reflexivity. Qed.

(** * Further properties of the script *)

(** ** make_one_hot *)

Lemma argmax_from_map (f : Q → Q) :
  (∀ a b, (f a ?= f b)%Q = (a ?= b)%Q) →
  ∀ l best besti i,
    argmax_from (f best) besti i (map f l) = argmax_from best besti i l.
Proof.
  intros Hf. induction l as [|v l IH]; intros best besti i; simpl; [reflexivity|].
  rewrite Hf. destruct (best ?= v)%Q; apply IH.
Qed.

Lemma Qcompare_shift (c a b : Q) : (a + c ?= b + c)%Q = (a ?= b)%Q.
Proof.
  destruct (a ?= b)%Q eqn:E.
  - apply Qeq_alt in E. apply Qeq_alt. now rewrite E.
  - apply Qlt_alt in E. apply Qlt_alt. now apply Qplus_lt_l.
  - apply Qgt_alt in E. apply Qgt_alt. now apply Qplus_lt_l.
Qed.

(** X1 — [make_one_hot] fails on the empty list, with the [ValueError] of
    [argmax], and on nothing else: any other input yields a list. *)
Theorem make_one_hot_raises_iff_empty (x : list Q) (e : exn) :
  make_one_hot x = Raise e ↔ x = [] ∧ e = ValueError.
Proof.
  split.
  - destruct x as [|v l]; [intros [= <-]; auto|].
    intros H. destruct (argmax_nonempty (v :: l)) as [h Hh]; [discriminate|].
    rewrite (make_one_hot_unfold _ _ Hh) in H. discriminate.
  - intros [-> ->]. reflexivity.
Qed.

(** X2 — the result of [make_one_hot] is a fixed point of [make_one_hot]:
    it has the length of the input, its cells sum to exactly 1, and
    encoding it again returns it unchanged. *)
Theorem make_one_hot_fixed_point (x x' : list Q) :
  make_one_hot x = Ok x' →
  length x' = length x ∧ cells_sum x' = 1%Q ∧ make_one_hot x' = Ok x'.
Proof.
  intros H. apply make_one_hot_is_one_hot in H as (h & Hh & ->).
  split; [apply one_hot_at_length|].
  split; [now apply cells_sum_one_hot_at | now apply make_one_hot_one_hot_at].
Qed.

Lemma make_one_hot_fixed_point_witness :
  make_one_hot [(-3 # 2); (7 # 10); (-1 # 5); (7 # 10)]%Q = Ok [0; 1; 0; 0]%Q ∧
  length [0; 1; 0; 0]%Q = length [(-3 # 2); (7 # 10); (-1 # 5); (7 # 10)]%Q ∧
  cells_sum [0; 1; 0; 0]%Q = 1%Q ∧
  make_one_hot [0; 1; 0; 0]%Q = Ok [0; 1; 0; 0]%Q.
Proof.
  assert (Hrun : make_one_hot [(-3 # 2); (7 # 10); (-1 # 5); (7 # 10)]%Q
                 = Ok [0; 1; 0; 0]%Q) by reflexivity.
  split; [exact Hrun|]. exact (make_one_hot_fixed_point _ _ Hrun).
Defined.

(** X3 — [make_one_hot] looks at the order of the values only: applying
    to every member a function that preserves all comparisons (a shift, a
    positive scaling) does not change the result. *)
Theorem make_one_hot_order_only (f : Q → Q) (x : list Q) :
  (∀ a b, (f a ?= f b)%Q = (a ?= b)%Q) →
  make_one_hot (map f x) = make_one_hot x.
Proof.
  intros Hf. destruct x as [|v l]; [reflexivity|].
  assert (Hh : argmax (map f (v :: l)) = argmax (v :: l)).
  { simpl. f_equal. now apply argmax_from_map. }
  destruct (argmax_nonempty (v :: l)) as [h Hv]; [discriminate|].
  rewrite (make_one_hot_unfold _ h Hv).
  rewrite (make_one_hot_unfold _ h) by now rewrite Hh.
  now rewrite length_map.
Qed.

Lemma make_one_hot_order_only_witness :
  (∀ a b, (a + (7 # 2) ?= b + (7 # 2))%Q = (a ?= b)%Q) ∧
  make_one_hot (map (λ v, v + (7 # 2))%Q [(-3 # 2); (7 # 10); (-1 # 5)]%Q)
    = make_one_hot [(-3 # 2); (7 # 10); (-1 # 5)]%Q.
Proof.
  split; [apply Qcompare_shift|].
  apply (make_one_hot_order_only (λ v, v + (7 # 2))%Q). apply Qcompare_shift.
Defined.

(** ** The schema *)

Lemma categorical_not_typed p c :
  p ∈ categorical → has_prefix p c → (c ∉ integer_cols) ∧ (c ∉ binary_cols).
Proof.
  unfold categorical, integer_cols, binary_cols, has_prefix. intros Hp Hc.
  repeat (apply elem_of_cons in Hp as [-> | Hp]); try (now apply elem_of_nil in Hp);
    split; intros Hin;
    repeat (apply elem_of_cons in Hin as [-> | Hin]);
    try (now apply elem_of_nil in Hin); simpl in Hc; discriminate.
Qed.

Lemma schema_kinds_disjoint_aux c : c ∈ integer_cols → c ∈ binary_cols → False.
Proof.
  unfold integer_cols, binary_cols. intros Hc Hc'.
  repeat (apply elem_of_cons in Hc as [-> | Hc]); try (now apply elem_of_nil in Hc);
    repeat (apply elem_of_cons in Hc' as [Hc' | Hc']);
    try (now apply elem_of_nil in Hc'); discriminate.
Qed.

(** X4 — whatever the column names are, the kinds of the schema do not
    overlap: the four one-hot groups built from the name prefixes are
    pairwise disjoint, each holds columns of the table only, in the order
    of the table, none holds an integer or a binary column, and no column
    is both integer and binary. *)
Theorem schema_kinds_disjoint (X_col_names : list string) :
  pairwise_disjoint (one_hot_cols X_col_names) ∧
  (∀ g, g ∈ one_hot_cols X_col_names →
        (g `sublist_of` X_col_names) ∧ g ## integer_cols ∧ g ## binary_cols) ∧
  integer_cols ## binary_cols.
Proof.
  split; [apply one_hot_cols_disjoint|]. split.
  - intros g Hg. apply one_hot_cols_elem in Hg as (p & Hp & ->).
    split; [apply sublist_filter|].
    split; intros c Hc Hc'; apply list_elem_of_filter in Hc as [Hc _];
      destruct (categorical_not_typed p c Hp Hc); contradiction.
  - intros c Hc Hc'. exact (schema_kinds_disjoint_aux c Hc Hc').
Qed.

(** ** Cells after the repair *)

Lemma fold_one_hot_other gs c : ∀ row row',
  foldM_result (λ r g, one_hot_row g r) row gs = Ok row' →
  Forall (λ g, c ∉ g) gs → row' !! c = row !! c.
Proof.
  induction gs as [|g gs IH]; simpl; intros row row' H Hc.
  - now injection H as <-.
  - inv_bind H. inversion Hc; subst. rewrite (IH _ _ H) by assumption.
    eapply one_hot_row_other; eassumption.
Qed.

Lemma fold_update_other f cols c : ∀ row row',
  foldM_result (update_cell f) row cols = Ok row' → c ∉ cols → row' !! c = row !! c.
Proof.
  induction cols as [|c' cols IH]; simpl; intros row row' H Hc.
  - now injection H as <-.
  - inv_bind H. apply not_elem_of_cons in Hc as [Hne Hc].
    rewrite (IH _ _ H Hc). apply update_cell_Ok in Hstep as (v & _ & ->).
    now apply lookup_insert_ne.
Qed.

Lemma fold_update_this f cols c : ∀ row row',
  foldM_result (update_cell f) row cols = Ok row' → NoDup cols → c ∈ cols →
  row' !! c = f <$> row !! c.
Proof.
  induction cols as [|c' cols IH]; simpl; intros row row' H Hnd Hc.
  - now apply elem_of_nil in Hc.
  - inv_bind H. apply NoDup_cons in Hnd as [Hnot Hnd].
    pose proof Hstep as Hup. apply update_cell_Ok in Hup as (v & Hv & ->).
    apply elem_of_cons in Hc as [-> | Hc].
    + rewrite (fold_update_other _ _ _ _ _ H Hnot), lookup_insert_eq, Hv. reflexivity.
    + rewrite (IH _ _ H Hnd Hc). rewrite lookup_insert_ne; [reflexivity|].
      intros ->. contradiction.
Qed.

(** The cells of a repaired row outside the one-hot groups. *)
Lemma repair_row_cells cols row row' c :
  repair_row cols row = Ok row' →
  Forall (λ g, c ∉ g) (one_hot_cols cols) →
  row' !! c =
    if decide (c ∈ integer_cols) then round0 <$> row !! c
    else if decide (c ∈ binary_cols) then (λ v, round0 (clip01 v)) <$> row !! c
    else row !! c.
Proof.
  intros H Hg. unfold repair_row in H. inv_bind H. inv_bind H.
  rename a into r1, a0 into r2.
  pose proof (fold_one_hot_other _ c _ _ Hstep Hg) as H1.
  assert (Hndi : NoDup integer_cols) by (apply (bool_decide_unpack _); vm_compute; exact I).
  assert (Hndb : NoDup binary_cols) by (apply (bool_decide_unpack _); vm_compute; exact I).
  destruct (decide (c ∈ integer_cols)) as [Hi|Hi].
  - assert (Hb : c ∉ binary_cols).
    { intros Hb. destruct (schema_kinds_disjoint_aux c Hi Hb). }
    rewrite (fold_update_other _ _ _ _ _ H Hb).
    rewrite (fold_update_this _ _ _ _ _ Hstep0 Hndi Hi). now rewrite H1.
  - destruct (decide (c ∈ binary_cols)) as [Hb|Hb].
    + rewrite (fold_update_this _ _ _ _ _ H Hndb Hb).
      rewrite (fold_update_other _ _ _ _ _ Hstep0 Hi). now rewrite H1.
    + rewrite (fold_update_other _ _ _ _ _ H Hb).
      rewrite (fold_update_other _ _ _ _ _ Hstep0 Hi). exact H1.
Qed.

(** ** Rounding of cells *)

(** X5 — [round0], the rounding applied to the integer columns, returns
    an integer at distance at most one half from the cell, and when the
    cell lies half-way between two integers it returns the even one. *)
Theorem round0_nearest_even (q : Q) :
  ∃ z, round0 q = inject_Z z ∧
       (Qabs (q - inject_Z z) <= 1 # 2)%Q ∧
       ((Qabs (q - inject_Z z) == 1 # 2)%Q → Z.even z = true).
Proof.
  pose proof (Qfloor_le q) as Hlo. pose proof (Qlt_floor q) as Hhi.
  rewrite inject_Z_plus in Hhi. change (inject_Z 1) with 1%Q in Hhi.
  unfold round0. set (f := Qfloor q) in *.
  assert (Hsucc : inject_Z (f + 1) = (inject_Z f + 1)%Q) by apply inject_Z_plus.
  destruct (q - inject_Z f ?= 1 # 2)%Q eqn:E.
  - apply Qeq_alt in E. destruct (Z.even f) eqn:Hev.
    + exists f. split; [reflexivity|]. split; [|auto].
      apply Qabs_Qle_condition. split; lra.
    + exists (f + 1)%Z. split; [reflexivity|]. split.
      * apply Qabs_Qle_condition. rewrite Hsucc. split; lra.
      * intros _. rewrite Z.add_1_r, Z.even_succ, <- Z.negb_even, Hev. reflexivity.
  - apply Qlt_alt in E. exists f. split; [reflexivity|]. split.
    + apply Qabs_Qle_condition. split; lra.
    + intros Htie. rewrite Qabs_pos in Htie by lra. lra.
  - apply Qgt_alt in E. exists (f + 1)%Z. split; [reflexivity|]. split.
    + apply Qabs_Qle_condition. rewrite Hsucc. split; lra.
    + intros Htie. rewrite Qabs_neg in Htie by (rewrite Hsucc; lra).
      rewrite Hsucc in Htie. lra.
Qed.

Lemma clip01_cases (v : Q) :
  (clip01 v = 0%Q ∧ (v < 0)%Q) ∨ (clip01 v = 1%Q ∧ (1 < v)%Q) ∨
  (clip01 v = v ∧ (0 <= v <= 1)%Q).
Proof.
  unfold clip01. destruct (v ?= 0)%Q eqn:H0.
  - apply Qeq_alt in H0. destruct (v ?= 1)%Q eqn:H1.
    + apply Qeq_alt in H1. right. right. split; [reflexivity | lra].
    + apply Qlt_alt in H1. right. right. split; [reflexivity | lra].
    + apply Qgt_alt in H1. lra.
  - apply Qlt_alt in H0. left. auto.
  - apply Qgt_alt in H0. destruct (v ?= 1)%Q eqn:H1.
    + apply Qeq_alt in H1. right. right. split; [reflexivity | lra].
    + apply Qlt_alt in H1. right. right. split; [reflexivity | lra].
    + apply Qgt_alt in H1. right. left. auto.
Qed.

Lemma round0_unit_interval (c : Q) :
  (0 <= c <= 1)%Q → round0 c = if Qlt_bool (1 # 2) c then 1%Q else 0%Q.
Proof.
  intros [H0 H1].
  assert (Hf : (Qfloor c = 0 ∨ Qfloor c = 1)%Z).
  { apply Qfloor_resp_le in H0, H1. change (Qfloor 0) with 0%Z in H0.
    change (Qfloor 1) with 1%Z in H1. lia. }
  pose proof (Qfloor_le c) as Hlo. unfold round0. destruct Hf as [Hf | Hf]; rewrite Hf in *.
  - change (inject_Z 0) with 0%Q. change (inject_Z (0 + 1)) with 1%Q.
    cbn [Z.even]. destruct (c - 0 ?= 1 # 2)%Q eqn:E.
    + apply Qeq_alt in E. rewrite Qlt_bool_false; [reflexivity | lra].
    + apply Qlt_alt in E. rewrite Qlt_bool_false; [reflexivity | lra].
    + apply Qgt_alt in E. rewrite Qlt_bool_true; [reflexivity | lra].
  - change (inject_Z 1) with 1%Q in *.
    assert (E : (c - 1 ?= 1 # 2)%Q = Lt) by (rewrite <- Qlt_alt; lra).
    rewrite E. rewrite Qlt_bool_true; [reflexivity | lra].
Qed.

(** X6 — the clip-and-round of the binary columns is a threshold at one
    half: the cell becomes 1 when the raw value is strictly greater than
    1/2 and 0 otherwise; a raw value of exactly 1/2 becomes 0. *)
Theorem binary_cell_threshold (v : Q) :
  round0 (clip01 v) = if Qlt_bool (1 # 2) v then 1%Q else 0%Q.
Proof.
  destruct (clip01_cases v) as [[Hc Hv] | [[Hc Hv] | [Hc Hv]]]; rewrite Hc.
  - rewrite Qlt_bool_false; [reflexivity | lra].
  - rewrite Qlt_bool_true; [reflexivity | lra].
  - apply round0_unit_interval, Hv.
Qed.

(** ** Outcome of the repair *)

Lemma mapM_result_length {A B} (f : A → result B) l l' :
  mapM_result f l = Ok l' → length l' = length l.
Proof. intros H. apply mapM_result_Ok in H. symmetry. eapply Forall2_length, H. Qed.

Lemma one_hot_pass_empty_group (rs : list (gmap string Q)) :
  rs ≠ [] → mapM_result (one_hot_row []) rs = Raise ValueError.
Proof. destruct rs as [|r rs]; [congruence | reflexivity]. Qed.

Lemma fold_one_hot_empty_group cols gs : ∀ rs : list (gmap string Q),
  Forall (λ r : gmap string Q, Forall (λ c, is_Some (r !! c)) cols) rs →
  rs ≠ [] → Forall (λ g, g ⊆ cols) gs → [] ∈ gs →
  foldM_result (λ rs g, mapM_result (one_hot_row g) rs) rs gs = Raise ValueError.
Proof.
  induction gs as [|g gs IH]; intros rs Hwf Hne Hsub Hin.
  - now apply elem_of_nil in Hin.
  - inversion Hsub as [|? ? Hg Hsub']; subst. simpl.
    destruct (decide (g = [])) as [->|Hg'].
    + now rewrite one_hot_pass_empty_group.
    + destruct (mapM_result_total (one_hot_row g)
                  (λ r : gmap string Q, Forall (λ c, is_Some (r !! c)) cols) rs)
        as (rs1 & Hrun & Hwf1).
      { eapply Forall_impl; [exact Hwf|]. intros r Hr. now apply one_hot_row_total. }
      rewrite Hrun. cbn [mbind result_bind]. apply IH; try assumption.
      * apply mapM_result_length in Hrun. destruct rs1; [|discriminate].
        destruct rs; [congruence | discriminate].
      * apply elem_of_cons in Hin as [Hin | Hin]; [congruence | exact Hin].
Qed.

Lemma one_hot_cols_subseteq cols : Forall (λ g, g ⊆ cols) (one_hot_cols cols).
Proof.
  apply Forall_forall. intros g Hg. apply one_hot_cols_elem in Hg as (p & _ & ->).
  intros c Hc. now apply list_elem_of_filter in Hc as [_ Hc].
Qed.

Lemma fold_df_map_col_missing f cols : ∀ df,
  df_wf df → ¬ Forall (λ c, c ∈ columns df) cols →
  foldM_result (df_map_col f) df cols = Raise KeyError.
Proof.
  induction cols as [|c cols IH]; intros df Hwf Hno; simpl.
  - exfalso. apply Hno. constructor.
  - destruct (decide (c ∈ columns df)) as [Hin|Hout].
    + destruct (df_map_col_total f df c Hin Hwf) as (df1 & -> & Hc1 & Hwf1).
      cbn [mbind result_bind]. apply IH; [exact Hwf1|].
      rewrite Hc1. intros Hall. apply Hno. now constructor.
    + unfold df_map_col, df_getcol.
      destruct (decide (c ∈ columns df)); [contradiction | reflexivity].
Qed.

(** The one-hot stage of a frame on which it cannot fail. *)
Lemma repair_one_hot_stage df :
  df_wf df →
  rows df = [] ∨ Forall (λ g, g ≠ []) (one_hot_cols (columns df)) →
  ∃ df1, repair_one_hot (one_hot_cols (columns df)) df = Ok df1 ∧
         columns df1 = columns df ∧ df_wf df1.
Proof.
  intros Hwf [Hnil | Hgs].
  - exists df. split; [|auto]. apply repair_one_hot_id. rewrite Hnil. constructor.
  - apply repair_one_hot_total; [|exact Hwf].
    pose proof (one_hot_cols_subseteq (columns df)) as Hsub.
    rewrite Forall_forall in Hgs, Hsub. apply Forall_forall. intros g Hg. auto.
Qed.

(** X7 — what [repair] raises on a frame whose rows hold a cell for every
    column: [ValueError], from [argmax], when the table has a row and some
    one-hot prefix matches no column; otherwise [KeyError] when one of the
    integer or binary columns of the schema is not a column of the table. *)
Theorem repair_raises (df : DataFrame) :
  df_wf df →
  (rows df ≠ [] → [] ∈ one_hot_cols (columns df) → repair df = Raise ValueError) ∧
  (rows df = [] ∨ Forall (λ g, g ≠ []) (one_hot_cols (columns df)) →
   ¬ Forall (λ c, c ∈ columns df) (integer_cols ++ binary_cols) →
   repair df = Raise KeyError).
Proof.
  intros Hwf. split.
  - intros Hne Hin. unfold repair, repair_one_hot.
    rewrite (fold_one_hot_empty_group (columns df)); try assumption; [reflexivity|].
    apply one_hot_cols_subseteq.
  - intros Hstage Hmiss. unfold repair, repair_integer, repair_binary.
    destruct (repair_one_hot_stage df Hwf Hstage) as (df1 & -> & Hc1 & Hwf1).
    cbn [mbind result_bind].
    destruct (decide (Forall (λ c, c ∈ columns df1) integer_cols)) as [Hint|Hint].
    + destruct (fold_df_map_col_total round0 integer_cols df1 Hint Hwf1)
        as (df2 & -> & Hc2 & Hwf2).
      cbn [mbind result_bind]. apply fold_df_map_col_missing; [exact Hwf2|].
      rewrite Hc2. intros Hbin. apply Hmiss. apply Forall_app.
      rewrite <- Hc1. auto.
    + now rewrite fold_df_map_col_missing.
Qed.

Lemma repair_raises_witness :
  df_wf (mk_frame ["age"; "bmi"]%string [[50; 28]]%Q) ∧
  (rows (mk_frame ["age"; "bmi"]%string [[50; 28]]%Q) ≠ [] →
   [] ∈ one_hot_cols (columns (mk_frame ["age"; "bmi"]%string [[50; 28]]%Q)) →
   repair (mk_frame ["age"; "bmi"]%string [[50; 28]]%Q) = Raise ValueError) ∧
  (rows (mk_frame ["age"; "bmi"]%string [[50; 28]]%Q) = [] ∨
   Forall (λ g, g ≠ [])
     (one_hot_cols (columns (mk_frame ["age"; "bmi"]%string [[50; 28]]%Q))) →
   ¬ Forall (λ c, c ∈ columns (mk_frame ["age"; "bmi"]%string [[50; 28]]%Q))
       (integer_cols ++ binary_cols) →
   repair (mk_frame ["age"; "bmi"]%string [[50; 28]]%Q) = Raise KeyError).
Proof.
  assert (Hwf : df_wf (mk_frame ["age"; "bmi"]%string [[50; 28]]%Q)).
  { unfold df_wf. apply (bool_decide_unpack _). vm_compute. exact I. }
  split; [exact Hwf|]. exact (repair_raises _ Hwf).
Defined.

(** X8 — on such a frame [repair] returns a frame exactly when the integer
    and binary columns of the schema are columns of the table and, unless
    the table has no row, every one-hot prefix matches at least one
    column.  A table without rows is returned as it is. *)
Theorem repair_succeeds_iff (df : DataFrame) :
  df_wf df →
  ((∃ df', repair df = Ok df') ↔
   Forall (λ c, c ∈ columns df) (integer_cols ++ binary_cols) ∧
   (rows df = [] ∨ Forall (λ g, g ≠ []) (one_hot_cols (columns df)))) ∧
  (rows df = [] → (∃ df', repair df = Ok df') → repair df = Ok df).
Proof.
  intros Hwf.
  assert (Hiff : (∃ df', repair df = Ok df') ↔
            Forall (λ c, c ∈ columns df) (integer_cols ++ binary_cols) ∧
            (rows df = [] ∨ Forall (λ g, g ≠ []) (one_hot_cols (columns df)))).
  { split.
    - intros [df' Hrun].
      assert (Hstage : rows df = [] ∨ Forall (λ g, g ≠ []) (one_hot_cols (columns df))).
      { destruct (rows df) as [|r rs] eqn:Hrows; [now left | right].
        apply Forall_forall. intros g Hg ->.
        unfold repair, repair_one_hot in Hrun.
        rewrite (fold_one_hot_empty_group (columns df)) in Hrun; try discriminate.
        - exact Hwf.
        - now rewrite Hrows.
        - apply one_hot_cols_subseteq.
        - exact Hg. }
      split; [|exact Hstage].
      destruct (decide (Forall (λ c, c ∈ columns df) (integer_cols ++ binary_cols)))
        as [Hall|Hno]; [exact Hall|].
      unfold repair, repair_integer, repair_binary in Hrun.
      destruct (repair_one_hot_stage df Hwf Hstage) as (df1 & Hrun1 & Hc1 & Hwf1).
      rewrite Hrun1 in Hrun. cbn [mbind result_bind] in Hrun.
      destruct (decide (Forall (λ c, c ∈ columns df1) integer_cols)) as [Hint|Hint].
      + destruct (fold_df_map_col_total round0 integer_cols df1 Hint Hwf1)
          as (df2 & Hrun2 & Hc2 & Hwf2).
        rewrite Hrun2 in Hrun. cbn [mbind result_bind] in Hrun.
        rewrite fold_df_map_col_missing in Hrun; [discriminate | exact Hwf2 |].
        rewrite Hc2. intros Hbin. apply Hno. apply Forall_app. rewrite <- Hc1. auto.
      + rewrite fold_df_map_col_missing in Hrun; [discriminate | exact Hwf1 | exact Hint].
    - intros [Hall Hstage]. apply Forall_app in Hall as [Hint Hbin].
      unfold repair, repair_integer, repair_binary.
      destruct (repair_one_hot_stage df Hwf Hstage) as (df1 & -> & Hc1 & Hwf1).
      cbn [mbind result_bind].
      destruct (fold_df_map_col_total round0 integer_cols df1) as (df2 & -> & Hc2 & Hwf2);
        [now rewrite Hc1 | exact Hwf1 |].
      cbn [mbind result_bind].
      destruct (fold_df_map_col_total (λ v, round0 (clip01 v)) binary_cols df2)
        as (df3 & -> & _ & _); [now rewrite Hc2, Hc1 | exact Hwf2 |].
      eauto. }
  split; [exact Hiff|].
  intros Hnil Hok. apply Hiff in Hok as [Hall _]. apply Forall_app in Hall as [Hint Hbin].
  apply repair_id; try assumption. rewrite Hnil. constructor.
Qed.

Lemma repair_succeeds_iff_witness :
  df_wf (mk_frame X_col_names [raw_cells]) ∧
  ((∃ df', repair (mk_frame X_col_names [raw_cells]) = Ok df') ↔
   Forall (λ c, c ∈ columns (mk_frame X_col_names [raw_cells]))
     (integer_cols ++ binary_cols) ∧
   (rows (mk_frame X_col_names [raw_cells]) = [] ∨
    Forall (λ g, g ≠ [])
      (one_hot_cols (columns (mk_frame X_col_names [raw_cells]))))) ∧
  (rows (mk_frame X_col_names [raw_cells]) = [] →
   (∃ df', repair (mk_frame X_col_names [raw_cells]) = Ok df') →
   repair (mk_frame X_col_names [raw_cells]) = Ok (mk_frame X_col_names [raw_cells])).
Proof.
  assert (Hwf : df_wf (mk_frame X_col_names [raw_cells])).
  { unfold df_wf. apply (bool_decide_unpack _). vm_compute. exact I. }
  split; [exact Hwf|]. exact (repair_succeeds_iff _ Hwf).
Defined.

(** X9 — [repair] keeps the columns and the number of rows, and outside
    the one-hot groups it changes a cell only by rounding: a cell of an
    integer column ([age], [bmi]) becomes the rounded raw value, a cell of
    a binary column the clipped and rounded raw value, and every other
    cell (a continuous feature such as the glucose level) is the raw
    value. *)
Theorem repair_cells (df df' : DataFrame) :
  repair df = Ok df' →
  columns df' = columns df ∧ length (rows df') = length (rows df) ∧
  ∀ i r r' c,
    rows df !! i = Some r → rows df' !! i = Some r' →
    (∀ p, p ∈ categorical → ¬ has_prefix p c) →
    r' !! c =
      if decide (c ∈ integer_cols) then round0 <$> r !! c
      else if decide (c ∈ binary_cols) then (λ v, round0 (clip01 v)) <$> r !! c
      else r !! c.
Proof.
  intros Hrun. apply repair_rows in Hrun as (Hcols & _ & _ & Hrows).
  split; [exact Hcols|]. split; [symmetry; eapply Forall2_length, Hrows|].
  intros i r r' c Hr Hr' Hc.
  pose proof (Forall2_lookup_lr _ _ _ _ _ _ Hrows Hr Hr') as Hrow.
  apply (repair_row_cells (columns df) r r' c Hrow).
  apply Forall_forall. intros g Hg Hin.
  apply one_hot_cols_elem in Hg as (p & Hp & ->).
  apply list_elem_of_filter in Hin as [Hin _]. exact (Hc p Hp Hin).
Qed.

Lemma repair_cells_witness :
  repair (mk_frame X_col_names [raw_cells])
    = Ok (mk_frame X_col_names [repaired_cells]) ∧
  columns (mk_frame X_col_names [repaired_cells])
    = columns (mk_frame X_col_names [raw_cells]) ∧
  length (rows (mk_frame X_col_names [repaired_cells]))
    = length (rows (mk_frame X_col_names [raw_cells])) ∧
  ∀ i r r' c,
    rows (mk_frame X_col_names [raw_cells]) !! i = Some r →
    rows (mk_frame X_col_names [repaired_cells]) !! i = Some r' →
    (∀ p, p ∈ categorical → ¬ has_prefix p c) →
    r' !! c =
      if decide (c ∈ integer_cols) then round0 <$> r !! c
      else if decide (c ∈ binary_cols) then (λ v, round0 (clip01 v)) <$> r !! c
      else r !! c.
Proof.
  assert (Hrun : repair (mk_frame X_col_names [raw_cells])
                 = Ok (mk_frame X_col_names [repaired_cells])).
  { vm_compute. reflexivity. }
  split; [exact Hrun|]. exact (repair_cells _ _ Hrun).
Defined.

(** ** The oversampling call of the script *)

Lemma Qeq_bool_of_eq (v c : Q) : (v == c)%Q → Qeq_bool v c = true.
Proof. apply Qeq_eq_bool. Qed.

Lemma Qeq_bool_of_neq (v c : Q) : ¬ (v == c)%Q → Qeq_bool v c = false.
Proof.
  intros H. destruct (Qeq_bool v c) eqn:E; [|reflexivity].
  apply Qeq_bool_eq in E. contradiction.
Qed.

Lemma count_eq_cons c v (y : list Q) :
  count_eq c (v :: y) = (if Qeq_bool v c then 1 else 0) + count_eq c y.
Proof. unfold count_eq. simpl. now destruct (Qeq_bool v c). Qed.

(** The counts of a list of labels that are all 0 or 1: one entry per
    class that occurs, class 0 first. *)
Lemma unique_insert_binary (y : list Q) :
  Forall (λ v, (v == 0)%Q ∨ (v == 1)%Q) y →
  ∃ k0 k1, (k0 == 0)%Q ∧ (k1 == 1)%Q ∧
    foldr unique_insert [] y =
      (if decide (count_eq 0 y = 0) then [] else [(k0, Z.of_nat (count_eq 0 y))]) ++
      (if decide (count_eq 1 y = 0) then [] else [(k1, Z.of_nat (count_eq 1 y))]).
Proof.
  induction 1 as [|v y Hv _ (k0 & k1 & Hk0 & Hk1 & IH)].
  - exists 0%Q, 1%Q. repeat split; reflexivity.
  - cbn [foldr]. rewrite IH. rewrite !count_eq_cons. destruct Hv as [Hv | Hv].
    + rewrite (Qeq_bool_of_eq v 0 Hv).
      rewrite (Qeq_bool_of_neq v 1) by (rewrite Hv; discriminate).
      destruct (decide (count_eq 0 y = 0)) as [E0|E0];
        destruct (decide (count_eq 1 y = 0)) as [E1|E1];
        destruct (decide (1 + count_eq 0 y = 0)); try lia;
        destruct (decide (0 + count_eq 1 y = 0)); try lia; cbn [app unique_insert].
      * exists v, k1. repeat split; try assumption. now rewrite E0.
      * assert (Hc : (v ?= k1)%Q = Lt) by (rewrite Hv, Hk1; reflexivity).
        rewrite Hc. exists v, k1. repeat split; try assumption. now rewrite E0.
      * assert (Hc : (v ?= k0)%Q = Eq) by (rewrite Hv, Hk0; reflexivity).
        rewrite Hc. exists k0, k1. repeat split; try assumption.
        do 3 f_equal. lia.
      * assert (Hc : (v ?= k0)%Q = Eq) by (rewrite Hv, Hk0; reflexivity).
        rewrite Hc. exists k0, k1. repeat split; try assumption.
        do 3 f_equal. lia.
    + rewrite (Qeq_bool_of_eq v 1 Hv).
      rewrite (Qeq_bool_of_neq v 0) by (rewrite Hv; discriminate).
      destruct (decide (count_eq 0 y = 0)) as [E0|E0];
        destruct (decide (count_eq 1 y = 0)) as [E1|E1];
        destruct (decide (0 + count_eq 0 y = 0)); try lia;
        destruct (decide (1 + count_eq 1 y = 0)); try lia; cbn [app unique_insert].
      * exists k0, v. repeat split; try assumption. now rewrite E1.
      * assert (Hc : (v ?= k1)%Q = Eq) by (rewrite Hv, Hk1; reflexivity).
        rewrite Hc. exists k0, k1. repeat split; try assumption.
        do 3 f_equal. lia.
      * assert (Hc : (v ?= k0)%Q = Gt) by (rewrite Hv, Hk0; reflexivity).
        rewrite Hc. cbn [unique_insert]. exists k0, v. repeat split; try assumption.
        now rewrite E1.
      * assert (Hc : (v ?= k0)%Q = Gt) by (rewrite Hv, Hk0; reflexivity).
        rewrite Hc. cbn [unique_insert].
        assert (Hc' : (v ?= k1)%Q = Eq) by (rewrite Hv, Hk1; reflexivity).
        rewrite Hc'. exists k0, k1. repeat split; try assumption.
        do 4 f_equal. lia.
Qed.

Lemma unique_counts_binary (y : list Q) :
  Forall (λ v, (v == 0)%Q ∨ (v == 1)%Q) y →
  unique_counts y =
    (if decide (count_eq 0 y = 0) then [] else [Z.of_nat (count_eq 0 y)]) ++
    (if decide (count_eq 1 y = 0) then [] else [Z.of_nat (count_eq 1 y)]).
Proof.
  intros Hy. destruct (unique_insert_binary y Hy) as (k0 & k1 & _ & _ & Hu).
  unfold unique_counts. rewrite Hu.
  destruct (decide (count_eq 0 y = 0)), (decide (count_eq 1 y = 0)); reflexivity.
Qed.

Section Oversampling.
Context `{SmoteSampler}.

(** X10 — lines 129 to 134: when the training labels are all 0 or 1 and
    either class has more than [k_neighbors] = 5 members, the call with
    twice the class frequencies succeeds and returns twice as many
    synthetic rows as there are training rows of each class, those of
    class 0 first.  The table has fewer than 2^61 rows, so that the 64-bit
    final sizes, three times the class frequencies, do not wrap around. *)
Theorem oversampling_doubles (X : list (gmap string Q)) (y : list Q) :
  length X = length y →
  (Z.of_nat (length y) < 2 ^ 61)%Z →
  Forall (λ v, (v == 0)%Q ∨ (v == 1)%Q) y →
  k_neighbors < count_eq 0 y → k_neighbors < count_eq 1 y →
  ∃ X_synthetic,
    make_synthetic_data_smote X y ((λ c, c * 2)%Z <$> unique_counts y)
      = Ok (X_synthetic,
            replicate (2 * count_eq 0 y) 0%Q ++ replicate (2 * count_eq 1 y) 1%Q) ∧
    length X_synthetic = 2 * length y.
Proof.
  intros Hlen Hrows Hy H0 H1. unfold k_neighbors in *.
  rewrite (unique_counts_binary y Hy).
  destruct (decide (count_eq 0 y = 0)); [lia|].
  destruct (decide (count_eq 1 y = 0)); [lia|].
  cbn [app fmap list_fmap].
  assert (Hc : ∀ c, count_eq c y ≤ length y).
  { intros c. unfold count_eq. apply List.filter_length_le. }
  pose proof (Hc 0%Q) as Hc0. pose proof (Hc 1%Q) as Hc1.
  destruct (make_synthetic_data_smote_Ok X y
              (Z.of_nat (count_eq 0 y) * 2) (Z.of_nat (count_eq 1 y) * 2) [] Hlen
              (class_labels_binary y Hy))
    as (Xs & Hrun & HXs).
  { unfold request_accepted, smote_accepts, int64, k_neighbors. lia. }
  { unfold request_accepted, smote_accepts, int64, k_neighbors. lia. }
  exists Xs. rewrite Hrun.
  replace (Z.to_nat (Z.of_nat (count_eq 0 y) * 2)) with (2 * count_eq 0 y) in * by lia.
  replace (Z.to_nat (Z.of_nat (count_eq 1 y) * 2)) with (2 * count_eq 1 y) in * by lia.
  split; [reflexivity|]. rewrite HXs.
  assert (Hall : count_eq 0 y + count_eq 1 y = length y); [|lia].
  clear -Hy. induction Hy as [|v y Hv _ IH]; [reflexivity|].
  rewrite !count_eq_cons. cbn [length]. destruct Hv as [Hv | Hv].
  - rewrite (Qeq_bool_of_eq v 0 Hv).
    rewrite (Qeq_bool_of_neq v 1) by (rewrite Hv; discriminate). lia.
  - rewrite (Qeq_bool_of_eq v 1 Hv).
    rewrite (Qeq_bool_of_neq v 0) by (rewrite Hv; discriminate). lia.
Qed.

(** X11 — when the training labels are all 0 or 1 and one of the two
    classes does not occur among them, [np.unique] yields fewer than two
    frequencies and the call fails with [IndexError] at
    [number_of_samples[1]] (or [number_of_samples[0]] for no labels at
    all), before SMOTE is reached. *)
Theorem oversampling_single_class (X : list (gmap string Q)) (y : list Q) :
  Forall (λ v, (v == 0)%Q ∨ (v == 1)%Q) y →
  count_eq 0 y = 0 ∨ count_eq 1 y = 0 →
  make_synthetic_data_smote X y ((λ c, c * 2)%Z <$> unique_counts y)
    = Raise IndexError.
Proof.
  intros Hy Hone. rewrite (unique_counts_binary y Hy).
  destruct (decide (count_eq 0 y = 0)), (decide (count_eq 1 y = 0));
    try lia; reflexivity.
Qed.

End Oversampling.

Lemma oversampling_doubles_witness :
  length X_700_300 = length y_700_300 ∧
  (Z.of_nat (length y_700_300) < 2 ^ 61)%Z ∧
  Forall (λ v, (v == 0)%Q ∨ (v == 1)%Q) y_700_300 ∧
  k_neighbors < count_eq 0 y_700_300 ∧ k_neighbors < count_eq 1 y_700_300 ∧
  ∃ X_synthetic,
    @make_synthetic_data_smote Reference.smote_sampler X_700_300 y_700_300
      ((λ c, c * 2)%Z <$> unique_counts y_700_300)
      = Ok (X_synthetic,
            replicate (2 * count_eq 0 y_700_300) 0%Q
              ++ replicate (2 * count_eq 1 y_700_300) 1%Q) ∧
    length X_synthetic = 2 * length y_700_300.
Proof.
  assert (Hlen : length X_700_300 = length y_700_300) by (vm_compute; reflexivity).
  assert (Hrows : (Z.of_nat (length y_700_300) < 2 ^ 61)%Z).
  { apply (bool_decide_unpack _). vm_compute. exact I. }
  assert (Hy : Forall (λ v, (v == 0)%Q ∨ (v == 1)%Q) y_700_300).
  { unfold y_700_300. apply Forall_app. split; apply Forall_replicate.
    - left. reflexivity.
    - right. reflexivity. }
  assert (H0 : k_neighbors < count_eq 0 y_700_300).
  { apply (bool_decide_unpack _). vm_compute. exact I. }
  assert (H1 : k_neighbors < count_eq 1 y_700_300).
  { apply (bool_decide_unpack _). vm_compute. exact I. }
  split; [exact Hlen|]. split; [exact Hrows|]. split; [exact Hy|].
  split; [exact H0|]. split; [exact H1|].
  exact (@oversampling_doubles Reference.smote_sampler _ _ Hlen Hrows Hy H0 H1).
Defined.

Lemma oversampling_single_class_witness :
  Forall (λ v, (v == 0)%Q ∨ (v == 1)%Q) (replicate 8 0%Q) ∧
  (count_eq 0 (replicate 8 0%Q) = 0 ∨ count_eq 1 (replicate 8 0%Q) = 0) ∧
  @make_synthetic_data_smote Reference.smote_sampler
    (replicate 8 (mk_row X_col_names raw_cells)) (replicate 8 0%Q)
    ((λ c, c * 2)%Z <$> unique_counts (replicate 8 0%Q))
    = Raise IndexError.
Proof.
  assert (Hy : Forall (λ v, (v == 0)%Q ∨ (v == 1)%Q) (replicate 8 0%Q)).
  { apply Forall_replicate. left. reflexivity. }
  assert (Hone : count_eq 0 (replicate 8 0%Q) = 0 ∨ count_eq 1 (replicate 8 0%Q) = 0).
  { right. reflexivity. }
  split; [exact Hy|]. split; [exact Hone|].
  exact (@oversampling_single_class Reference.smote_sampler _ _ Hy Hone).
Defined.

(** ** standardise_data *)

(** X12 — [standardise_data] fails with the error of the fit when the
    scaler cannot be fitted on the training set, and with [ValueError]
    when the test matrix has no row or a row of another width than the
    training rows; it fails in no other case.  Otherwise both outputs have
    as many rows as their inputs, the standardised training set is the
    same for every accepted test matrix, and for a rectangular training
    matrix standardising the training rows followed by the test rows gives
    the concatenation of the two outputs, which is the table [X_real_std]
    of line 209. *)
Theorem standardise_data_train_statistics `{StandardScaler}
    (X_train X_test : list (list Q)) :
  (∀ e, standardise_data X_train X_test = Raise e ↔
        sc_fit X_train = Raise e ∨
        ((∃ sc, sc_fit X_train = Ok sc) ∧
         ¬ transform_accepts X_train X_test ∧ e = ValueError)) ∧
  (∀ train_std test_std,
     standardise_data X_train X_test = Ok (train_std, test_std) →
     transform_accepts X_train X_test ∧
     length train_std = length X_train ∧ length test_std = length X_test ∧
     (∀ X_other, transform_accepts X_train X_other →
        ∃ other_std,
          standardise_data X_train X_other = Ok (train_std, other_std)) ∧
     (Forall (λ r, Forall (λ t, length r = length t) X_train) X_train →
      standardise_data X_train (X_train ++ X_test)
        = Ok (train_std, train_std ++ test_std))).
Proof.
  split.
  - intros e. unfold standardise_data, transform.
    destruct (sc_fit X_train) as [sc|e']; cbn [mbind result_bind].
    + destruct (decide (transform_accepts X_train X_test)) as [Hacc|Hno];
        cbn [mbind result_bind]; split.
      * discriminate.
      * intros [[=] | (_ & Hno & _)]. contradiction.
      * intros [= <-]. right. eauto.
      * intros [[=] | (_ & _ & ->)]. reflexivity.
    + split.
      * intros [= <-]. left. reflexivity.
      * intros [[= <-] | ((sc & [=]) & _)]. reflexivity.
  - intros train_std test_std Hrun.
    apply standardise_data_Ok in Hrun as (sc & Hfit & Hacc & -> & ->).
    split; [exact Hacc|].
    unfold sc_transform. rewrite !length_fmap.
    split; [reflexivity|]. split; [reflexivity|]. split.
    + intros X_other Hother. exists (sc_transform sc X_other).
      apply standardise_data_Ok. eauto.
    + intros Hrect. apply standardise_data_Ok. exists sc.
      split; [exact Hfit|]. split; [|split; [reflexivity|]].
      * destruct Hacc as [Hpos Hwidth]. split.
        -- rewrite length_app. lia.
        -- apply Forall_app. split; assumption.
      * unfold sc_transform. now rewrite fmap_app.
Qed.

Lemma standardise_data_train_statistics_witness :
  @standardise_data Reference.standard_scaler (to_numpy train_age) (to_numpy test_age)
    = Ok ([[-1]; [1]]%Q, [[3]]%Q) ∧
  transform_accepts (to_numpy train_age) [[50]; [54]]%Q ∧
  Forall (λ r, Forall (λ t, length r = length t) (to_numpy train_age))
    (to_numpy train_age) ∧
  transform_accepts (to_numpy train_age) (to_numpy test_age) ∧
  length [[-1]; [1]]%Q = length (to_numpy train_age) ∧
  length [[3]]%Q = length (to_numpy test_age) ∧
  (∃ other_std,
      @standardise_data Reference.standard_scaler (to_numpy train_age) [[50]; [54]]%Q
        = Ok ([[-1]; [1]]%Q, other_std)) ∧
  @standardise_data Reference.standard_scaler (to_numpy train_age)
      (to_numpy train_age ++ to_numpy test_age)
    = Ok ([[-1]; [1]]%Q, [[-1]; [1]]%Q ++ [[3]]%Q) ∧
  (@standardise_data Reference.standard_scaler (to_numpy train_age) []
     = Raise ValueError ↔
   @sc_fit Reference.standard_scaler (to_numpy train_age) = Raise ValueError ∨
   ((∃ sc, @sc_fit Reference.standard_scaler (to_numpy train_age) = Ok sc) ∧
    ¬ transform_accepts (to_numpy train_age) [] ∧ ValueError = ValueError)).
Proof.
  assert (Hrun : @standardise_data Reference.standard_scaler
                   (to_numpy train_age) (to_numpy test_age)
                 = Ok ([[-1]; [1]]%Q, [[3]]%Q)) by (vm_compute; reflexivity).
  assert (Hother : transform_accepts (to_numpy train_age) [[50]; [54]]%Q).
  { apply (bool_decide_unpack _). vm_compute. exact I. }
  assert (Hrect : Forall (λ r, Forall (λ t, length r = length t) (to_numpy train_age))
                    (to_numpy train_age)).
  { apply (bool_decide_unpack _). vm_compute. exact I. }
  pose proof (proj2 (@standardise_data_train_statistics Reference.standard_scaler
                       (to_numpy train_age) (to_numpy test_age)) _ _ Hrun)
    as (Hacc & Hl1 & Hl2 & Hind & Hcat).
  split; [exact Hrun|]. split; [exact Hother|]. split; [exact Hrect|].
  split; [exact Hacc|]. split; [exact Hl1|]. split; [exact Hl2|].
  split; [exact (Hind _ Hother)|]. split; [exact (Hcat Hrect)|].
  exact (proj1 (@standardise_data_train_statistics Reference.standard_scaler
                  (to_numpy train_age) []) ValueError).
Defined.

(** ** Duplicate removal on the stored distances *)

Lemma filter_zip_flags {A B} (f : A → B) (g : B → bool) (rs : list A) :
  fst <$> List.filter (λ q : A * bool, negb q.2) (zip rs (g <$> (f <$> rs)))
  = List.filter (λ r, negb (g (f r))) rs.
Proof.
  induction rs as [|r rs IH]; [reflexivity|].
  rewrite !fmap_cons. cbn [zip zip_with List.filter snd].
  destruct (g (f r)); cbn [negb]; [exact IH|]. rewrite fmap_cons. cbn [fst]. now rewrite IH.
Qed.

(** X13 — [remove_identical] needs the stored distance column
    ([KeyError] without it).  On a table whose rows all hold that column
    it keeps, in their order, exactly the rows whose stored distance is not
    below 0.001 and changes no cell; a stored distance of exactly 0.001
    stays. *)
Theorem remove_identical_keeps (df : DataFrame) :
  ("distance_to_closest_real"%string ∉ columns df →
   remove_identical df = Raise KeyError) ∧
  ("distance_to_closest_real"%string ∈ columns df → df_wf df →
   ∃ kept,
     remove_identical df = Ok {| columns := columns df; rows := kept |} ∧
     kept `sublist_of` rows df ∧
     ∀ r, r ∈ kept ↔
          r ∈ rows df ∧
          ∃ d, r !! "distance_to_closest_real"%string = Some d ∧
               (duplicate_threshold <= d)%Q).
Proof.
  split.
  - intros Hout. unfold remove_identical, df_getcol.
    destruct (decide (_ ∈ columns df)); [contradiction | reflexivity].
  - intros Hin Hwf.
    pose proof (df_wf_column df _ Hwf Hin) as Hcells.
    unfold remove_identical. rewrite (df_getcol_total df _ Hin Hcells).
    cbn [mbind result_bind]. rewrite filter_zip_flags.
    eexists. split; [reflexivity|]. split.
    + clear. induction (rows df) as [|r rs IH]; simpl; [constructor|].
      destruct (negb _); [now constructor | now apply sublist_cons].
    + intros r. rewrite list_elem_of_In, List.filter_In, <- list_elem_of_In.
      split; intros [Hr Hd]; (split; [exact Hr|]).
      * rewrite Forall_forall in Hcells. destruct (Hcells r Hr) as [d Hcell].
        exists d. split; [exact Hcell|]. rewrite Hcell in Hd. cbn in Hd.
        unfold Qlt_bool in Hd. destruct (d ?= duplicate_threshold)%Q eqn:E;
          try discriminate.
        -- apply Qeq_alt in E. rewrite E. apply Qle_refl.
        -- apply Qgt_alt in E. now apply Qlt_le_weak.
      * destruct Hd as (d & Hcell & Hd). rewrite Hcell. cbn.
        now rewrite (Qlt_bool_false _ _ Hd).
Qed.

Lemma remove_identical_keeps_witness :
  "distance_to_closest_real"%string ∈ columns distances_1000 ∧
  df_wf distances_1000 ∧
  ∃ kept,
    remove_identical distances_1000
      = Ok {| columns := columns distances_1000; rows := kept |} ∧
    kept `sublist_of` rows distances_1000 ∧
    ∀ r, r ∈ kept ↔
         r ∈ rows distances_1000 ∧
         ∃ d, r !! "distance_to_closest_real"%string = Some d ∧
              (duplicate_threshold <= d)%Q.
Proof.
  assert (Hin : "distance_to_closest_real"%string ∈ columns distances_1000).
  { apply (bool_decide_unpack _). vm_compute. exact I. }
  assert (Hwf : df_wf distances_1000).
  { unfold df_wf. apply (bool_decide_unpack _). vm_compute. exact I. }
  split; [exact Hin|]. split; [exact Hwf|].
  exact (proj2 (remove_identical_keeps distances_1000) Hin Hwf).
Defined.

(** ** Size of the trimmed table *)

(** X14 — on a table of [n] rows that hold a stored distance,
    [trim_closest] returns [n] minus a tenth of [n], rounded up, rows:
    at least one row of every non-empty table is discarded, a table with a
    single row becomes empty, and the columns are unchanged.  Without the
    distance column it raises [KeyError]. *)
Theorem trim_closest_size (df : DataFrame) :
  ("distance_to_closest_real"%string ∉ columns df →
   trim_closest df = Raise KeyError) ∧
  ("distance_to_closest_real"%string ∈ columns df → df_wf df →
   ∃ df',
     trim_closest df = Ok df' ∧ columns df' = columns df ∧
     length (rows df') = length (rows df) - (length (rows df) + 9) / 10 ∧
     (rows df ≠ [] → length (rows df') < length (rows df)) ∧
     (length (rows df) = 1 → rows df' = [])).
Proof.
  split.
  - intros Hout. unfold trim_closest, sort_values_desc, df_getcol.
    destruct (decide (_ ∈ columns df)); [contradiction | reflexivity].
  - intros Hin Hwf.
    pose proof (df_getcol_total df _ Hin (df_wf_column df _ Hwf Hin)) as Hget.
    destruct (trim_closest_spec df _ Hget) as (kept & dropped & Hrun & _ & Hlen & _).
    exists {| columns := columns df; rows := kept |}. cbn [columns rows].
    split; [exact Hrun|]. split; [reflexivity|].
    assert (Hsize : length kept = length (rows df) - (length (rows df) + 9) / 10).
    { rewrite Hlen. rewrite Z.quot_div_nonneg by lia.
      generalize (length (rows df)). intros n.
      pose proof (Z.div_mod (Z.of_nat n * 9) 10 ltac:(lia)).
      pose proof (Z.mod_pos_bound (Z.of_nat n * 9) 10 ltac:(lia)).
      pose proof (Nat.div_mod_eq (n + 9) 10).
      pose proof (Nat.mod_upper_bound (n + 9) 10 ltac:(lia)).
      lia. }
    split; [exact Hsize|]. split.
    + intros Hne. rewrite Hsize.
      assert (0 < length (rows df)) by (destruct (rows df); [congruence | simpl; lia]).
      assert (0 < (length (rows df) + 9) / 10); [|lia].
      apply Nat.div_str_pos. lia.
    + intros H1. rewrite H1 in Hsize. change (1 - (1 + 9) / 10) with 0 in Hsize.
      now destruct kept.
Qed.

Lemma trim_closest_size_witness :
  "distance_to_closest_real"%string ∈ columns distances_1000 ∧
  df_wf distances_1000 ∧
  ∃ df',
    trim_closest distances_1000 = Ok df' ∧ columns df' = columns distances_1000 ∧
    length (rows df')
      = length (rows distances_1000) - (length (rows distances_1000) + 9) / 10 ∧
    (rows distances_1000 ≠ [] → length (rows df') < length (rows distances_1000)) ∧
    (length (rows distances_1000) = 1 → rows df' = []).
Proof.
  assert (Hin : "distance_to_closest_real"%string ∈ columns distances_1000).
  { apply (bool_decide_unpack _). vm_compute. exact I. }
  assert (Hwf : df_wf distances_1000).
  { unfold df_wf. apply (bool_decide_unpack _). vm_compute. exact I. }
  split; [exact Hin|]. split; [exact Hwf|].
  exact (proj2 (trim_closest_size distances_1000) Hin Hwf).
Defined.

(** ** The split into training and test records *)

Lemma n_test_eq (n : nat) :
  Z.to_nat (Qceiling (test_size * inject_Z (Z.of_nat n))) = (n + 4) / 5.
Proof.
  unfold Qceiling, Qfloor, test_size, Qmult, Qopp, inject_Z. cbn [Qnum Qden].
  change (Z.pos (5 * 1)) with 5%Z.
  pose proof (Z.div_mod (- (1 * Z.of_nat n)) 5 ltac:(lia)).
  pose proof (Z.mod_pos_bound (- (1 * Z.of_nat n)) 5 ltac:(lia)).
  pose proof (Nat.div_mod_eq (n + 4) 5).
  pose proof (Nat.mod_upper_bound (n + 4) 5 ltac:(lia)).
  lia.
Qed.

Lemma insert_at_zip {A B} (i : nat) (x : A) (v : B) (l : list A) (k : list B) :
  length l = length k →
  insert_at i (x, v) (zip l k) = zip (insert_at i x l) (insert_at i v k).
Proof.
  intros Hlen. unfold insert_at. rewrite zip_with_take, zip_with_drop.
  rewrite (zip_with_app pair (take i l) (x :: drop i l) (take i k) (v :: drop i k));
    [reflexivity|].
  rewrite !length_take. lia.
Qed.

Lemma shuffle_zip {A B} (l : list A) : ∀ (keys : list nat) (k : list B),
  length l = length k →
  shuffle keys (zip l k) = zip (shuffle keys l) (shuffle keys k).
Proof.
  induction l as [|x l IH]; intros keys [|v k] Hlen; simpl in *; try discriminate;
    [reflexivity|].
  injection Hlen as Hlen. rewrite (IH (tail keys) k Hlen).
  rewrite length_zip_with, !shuffle_length, <- Hlen, Nat.min_id.
  apply insert_at_zip. now rewrite !shuffle_length.
Qed.

(** X15 — [train_test_split] with [test_size = 0.20] fails, with
    [ValueError], exactly when the features and the labels differ in
    number or there are fewer than two records.  Otherwise a fifth of the
    records, rounded up, forms the test partition and the rest the
    training partition; the two partitions together are the records, each
    still paired with its own label. *)
Theorem train_test_split_partition {A B}
    (keys : list nat) (X : list A) (y : list B) :
  (∀ e, train_test_split keys X y = Raise e ↔
        e = ValueError ∧ (length X ≠ length y ∨ length X ≤ 1)) ∧
  (∀ X_train X_test y_train y_test,
     train_test_split keys X y = Ok (X_train, X_test, y_train, y_test) →
     length X_test = (length X + 4) / 5 ∧
     length X_train = length X - (length X + 4) / 5 ∧
     length y_train = length X_train ∧ length y_test = length X_test ∧
     zip X y ≡ₚ zip X_test y_test ++ zip X_train y_train).
Proof.
  unfold train_test_split. rewrite n_test_eq.
  pose proof (Nat.div_mod_eq (length X + 4) 5) as Hdm.
  pose proof (Nat.mod_upper_bound (length X + 4) 5 ltac:(lia)) as Hmod.
  remember ((length X + 4) / 5) as n eqn:Hn. clear Hn.
  destruct (decide (length X = length y)) as [Hlen|Hlen].
  - destruct (decide (length X - n = 0)) as [H0|H0]; split.
    + intros e. split; [intros [= <-]; split; [reflexivity | right; lia] | ].
      intros [-> _]. reflexivity.
    + discriminate.
    + intros e. split; [discriminate|]. intros [_ [Hne | Hle]]; [contradiction | lia].
    + intros X_train X_test y_train y_test [= <- <- <- <-].
      rewrite !length_take, !length_drop, !shuffle_length.
      repeat split; try lia.
      rewrite <- zip_with_take, <- zip_with_drop, take_drop.
      rewrite <- (shuffle_zip X keys y Hlen). symmetry. apply shuffle_Permutation.
  - split.
    + intros e. split; [intros [= <-]; auto|]. intros [-> _]. reflexivity.
    + discriminate.
Qed.

Lemma train_test_split_partition_witness :
  train_test_split [3; 0; 2] [10; 11; 12; 13; 14; 15] [0; 1; 0; 1; 0; 1]
    = Ok ([14; 10; 12; 15], [11; 13], [0; 0; 0; 1], [1; 1]) ∧
  length [11; 13] = (length [10; 11; 12; 13; 14; 15] + 4) / 5 ∧
  length [14; 10; 12; 15]
    = length [10; 11; 12; 13; 14; 15] - (length [10; 11; 12; 13; 14; 15] + 4) / 5 ∧
  length [0; 0; 0; 1] = length [14; 10; 12; 15] ∧
  length [1; 1] = length [11; 13] ∧
  zip [10; 11; 12; 13; 14; 15] [0; 1; 0; 1; 0; 1]
    ≡ₚ zip [11; 13] [1; 1] ++ zip [14; 10; 12; 15] [0; 0; 0; 1].
Proof.
  assert (Hrun : train_test_split [3; 0; 2] [10; 11; 12; 13; 14; 15] [0; 1; 0; 1; 0; 1]
                 = Ok ([14; 10; 12; 15], [11; 13], [0; 0; 0; 1], [1; 1]))
    by (vm_compute; reflexivity).
  split; [exact Hrun|].
  exact (proj2 (train_test_split_partition [3; 0; 2] [10; 11; 12; 13; 14; 15]
                  [0; 1; 0; 1; 0; 1]) _ _ _ _ Hrun).
Defined.

(** ** The script on tables it cannot process *)

Lemma train_test_split_short {A B} (keys : list nat) (X : list A) (y : list B) :
  length X ≤ 1 → train_test_split keys X y = Raise ValueError.
Proof.
  intros Hshort. unfold train_test_split. rewrite n_test_eq.
  pose proof (Nat.div_mod_eq (length X + 4) 5) as Hdm.
  pose proof (Nat.mod_upper_bound (length X + 4) 5 ltac:(lia)) as Hmod.
  destruct (decide (length X = length y)); [|reflexivity].
  destruct (decide (length X - (length X + 4) / 5 = 0)); [reflexivity|lia].
Qed.

Lemma train_test_split_long {A B} (keys : list nat) (X : list A) (y : list B) :
  length X = length y → 2 ≤ length X →
  ∃ n, 0 < n < length X ∧
    train_test_split keys X y
      = Ok (drop n (shuffle keys X), take n (shuffle keys X),
            drop n (shuffle keys y), take n (shuffle keys y)).
Proof.
  intros Hlen Hlong. unfold train_test_split. rewrite n_test_eq.
  pose proof (Nat.div_mod_eq (length X + 4) 5) as Hdm.
  pose proof (Nat.mod_upper_bound (length X + 4) 5 ltac:(lia)) as Hmod.
  exists ((length X + 4) / 5).
  destruct (decide (length X = length y)); [|contradiction].
  destruct (decide (length X - (length X + 4) / 5 = 0)); [lia|].
  split; [lia|reflexivity].
Qed.

Lemma count_eq_drop_le (c : Q) (n : nat) (l : list Q) :
  count_eq c (drop n l) ≤ count_eq c l.
Proof.
  rewrite <- (take_drop n l) at 2. rewrite count_eq_app. lia.
Qed.

Section Script.
Context `{StandardScaler, NearestNeighbors, SmoteSampler}.

(** X16 — on a table with a [stroke] column and at most one record the
    script stops at [train_test_split] with [ValueError]: a fifth of the
    records, rounded up, leaves no record for training. *)
Theorem pipeline_too_few_records (rnd : Randomness) (data : DataFrame) (stroke : list Q) :
  df_getcol data "stroke" = Ok stroke →
  length (rows data) ≤ 1 →
  pipeline rnd data = Raise ValueError.
Proof.
  intros Hstroke Hshort. unfold pipeline. rewrite Hstroke. cbn [mbind result_bind].
  pose proof (proj1 (proj1 (df_getcol_Ok _ _ _) Hstroke)) as Hin.
  unfold df_drop. destruct (decide ("stroke" ∈ columns data)); [|contradiction].
  cbn [mbind result_bind rows columns].
  rewrite train_test_split_short; [reflexivity|].
  now rewrite length_fmap.
Qed.

(** X17 — on a table of at least two records whose outcomes are all 0 or
    1 and all the same, for a scaler that fits every non-empty matrix, the
    script stops with [IndexError]: the training labels have a single
    frequency and [required_smote_count[1]] does not exist. *)
Theorem pipeline_single_class (rnd : Randomness) (data : DataFrame) (stroke : list Q) :
  (∀ m, m ≠ [] → ∃ sc, sc_fit m = Ok sc) →
  df_getcol data "stroke" = Ok stroke →
  Forall (λ v, (v == 0)%Q ∨ (v == 1)%Q) stroke →
  count_eq 0 stroke = 0 ∨ count_eq 1 stroke = 0 →
  2 ≤ length (rows data) →
  pipeline rnd data = Raise IndexError.
Proof.
  intros Hfit Hstroke Hy Hone Hlong. unfold pipeline. rewrite Hstroke.
  cbn [mbind result_bind].
  pose proof (proj1 (proj1 (df_getcol_Ok _ _ _) Hstroke)) as Hin.
  pose proof (df_getcol_length _ _ _ Hstroke) as Hlen.
  unfold df_drop. destruct (decide ("stroke" ∈ columns data)); [|contradiction].
  cbn [mbind result_bind rows columns].
  destruct (train_test_split_long (rnd_split rnd)
              (delete "stroke" <$> rows data) stroke) as (n & Hn & ->).
  { now rewrite length_fmap. }
  { now rewrite length_fmap. }
  rewrite length_fmap in Hn.
  cbn [mbind result_bind].
  set (X_rows := drop n (shuffle (rnd_split rnd) (delete "stroke" <$> rows data))).
  set (y_train := drop n (shuffle (rnd_split rnd) stroke)).
  assert (Hrows : X_rows ≠ []).
  { intros Hnil. apply (f_equal length) in Hnil. unfold X_rows in Hnil.
    rewrite length_drop, shuffle_length, length_fmap in Hnil. simpl in Hnil. lia. }
  destruct (Hfit (to_numpy {| columns := filter (λ c, c ≠ "stroke") (columns data);
                             rows := X_rows |})) as (sc & Hsc).
  { unfold to_numpy. cbn [rows columns]. destruct X_rows; [contradiction|discriminate]. }
  unfold standardise_data, transform. rewrite Hsc. cbn [mbind result_bind].
  match goal with |- context [decide (transform_accepts ?a ?b)] =>
    destruct (decide (transform_accepts a b)) as [_|Hno] end.
  2: { destruct Hno. apply transform_accepts_to_numpy.
       intros Hnil. apply (f_equal length) in Hnil.
       rewrite length_take, shuffle_length, length_fmap in Hnil. simpl in Hnil. lia. }
  cbn [mbind result_bind].
  assert (Hy' : Forall (λ v, (v == 0)%Q ∨ (v == 1)%Q) y_train).
  { unfold y_train. apply Forall_drop.
    rewrite (shuffle_Permutation (rnd_split rnd) stroke). exact Hy. }
  assert (Hone' : count_eq 0 y_train = 0 ∨ count_eq 1 y_train = 0).
  { pose proof (count_eq_drop_le 0 n (shuffle (rnd_split rnd) stroke)) as H0'.
    pose proof (count_eq_drop_le 1 n (shuffle (rnd_split rnd) stroke)) as H1'.
    rewrite (count_eq_Permutation 0 _ _ (shuffle_Permutation (rnd_split rnd) stroke))
      in H0'.
    rewrite (count_eq_Permutation 1 _ _ (shuffle_Permutation (rnd_split rnd) stroke))
      in H1'.
    fold y_train in H0', H1'. lia. }
  rewrite (unique_counts_binary y_train Hy').
  destruct (decide (count_eq 0 y_train = 0)), (decide (count_eq 1 y_train = 0));
    try lia; reflexivity.
Qed.

End Script.

Lemma pipeline_too_few_records_witness :
  df_getcol (mk_frame ["age"; "stroke"] [[50; 1]]%Q) "stroke" = Ok [1%Q] ∧
  length (rows (mk_frame ["age"; "stroke"] [[50; 1]]%Q)) ≤ 1 ∧
  @pipeline Reference.standard_scaler Reference.nearest_neighbors
      Reference.smote_sampler no_draws (mk_frame ["age"; "stroke"] [[50; 1]]%Q)
    = Raise ValueError.
Proof.
  assert (Hstroke : df_getcol (mk_frame ["age"; "stroke"] [[50; 1]]%Q) "stroke"
                    = Ok [1%Q]) by (vm_compute; reflexivity).
  assert (Hshort : length (rows (mk_frame ["age"; "stroke"] [[50; 1]]%Q)) ≤ 1)
    by (simpl; lia).
  split; [exact Hstroke|]. split; [exact Hshort|].
  exact (@pipeline_too_few_records Reference.standard_scaler
           Reference.nearest_neighbors Reference.smote_sampler
           no_draws _ _ Hstroke Hshort).
Defined.

Lemma pipeline_single_class_witness :
  (∀ m, m ≠ [] → ∃ sc, @sc_fit Reference.standard_scaler m = Ok sc) ∧
  df_getcol (mk_frame ["age"; "stroke"] [[50; 0]; [54; 0]; [58; 0]]%Q) "stroke"
    = Ok [0; 0; 0]%Q ∧
  Forall (λ v, (v == 0)%Q ∨ (v == 1)%Q) [0; 0; 0]%Q ∧
  (count_eq 0 [0; 0; 0]%Q = 0 ∨ count_eq 1 [0; 0; 0]%Q = 0) ∧
  2 ≤ length (rows (mk_frame ["age"; "stroke"] [[50; 0]; [54; 0]; [58; 0]]%Q)) ∧
  @pipeline Reference.standard_scaler Reference.nearest_neighbors
      Reference.smote_sampler no_draws
      (mk_frame ["age"; "stroke"] [[50; 0]; [54; 0]; [58; 0]]%Q)
    = Raise IndexError.
Proof.
  assert (Hfit : ∀ m, m ≠ [] → ∃ sc, @sc_fit Reference.standard_scaler m = Ok sc).
  { intros [|r m] Hm; [contradiction|]. eexists. reflexivity. }
  assert (Hstroke :
    df_getcol (mk_frame ["age"; "stroke"] [[50; 0]; [54; 0]; [58; 0]]%Q) "stroke"
      = Ok [0; 0; 0]%Q) by (vm_compute; reflexivity).
  assert (Hy : Forall (λ v, (v == 0)%Q ∨ (v == 1)%Q) [0; 0; 0]%Q).
  { repeat constructor; left; reflexivity. }
  assert (Hone : count_eq 0 [0; 0; 0]%Q = 0 ∨ count_eq 1 [0; 0; 0]%Q = 0).
  { right. reflexivity. }
  assert (Hlong :
    2 ≤ length (rows (mk_frame ["age"; "stroke"] [[50; 0]; [54; 0]; [58; 0]]%Q)))
    by (simpl; lia).
  split; [exact Hfit|]. split; [exact Hstroke|]. split; [exact Hy|].
  split; [exact Hone|]. split; [exact Hlong|].
  exact (@pipeline_single_class Reference.standard_scaler
           Reference.nearest_neighbors Reference.smote_sampler
           no_draws _ _ Hfit Hstroke Hy Hone Hlong).
Defined.

(** ** Shuffling a frame *)

Lemma df_getcol_cells df col vals :
  df_getcol df col = Ok vals →
  Forall (λ r : gmap string Q, is_Some (r !! col)) (rows df) ∧
  vals = (λ r : gmap string Q, default 0%Q (r !! col)) <$> rows df.
Proof.
  rewrite df_getcol_Ok. intros [_ Hcells].
  induction Hcells as [|r v rs vs Hr _ [IH1 IH2]]; [split; [constructor|reflexivity]|].
  split.
  - constructor; [rewrite Hr; eauto | exact IH1].
  - cbn [fmap list_fmap]. rewrite Hr, IH2. reflexivity.
Qed.

(** X18 — [df.sample(frac=1.0)] only reorders the records: the frame keeps
    its columns, every column that could be read can still be read, its
    cells are the former ones in another order, and so every value occurs
    in it as often as before. *)
Theorem df_sample_frac_keeps_cells (keys : list nat) (df : DataFrame)
    (col : string) (vals : list Q) :
  df_getcol df col = Ok vals →
  columns (df_sample_frac keys df) = columns df ∧
  ∃ vals', df_getcol (df_sample_frac keys df) col = Ok vals' ∧
           vals' ≡ₚ vals ∧ ∀ c, count_eq c vals' = count_eq c vals.
Proof.
  intros Hcol. split; [reflexivity|].
  pose proof (proj1 (proj1 (df_getcol_Ok _ _ _) Hcol)) as Hin.
  destruct (df_getcol_cells _ _ _ Hcol) as [Hall ->].
  exists ((λ r : gmap string Q, default 0%Q (r !! col)) <$> shuffle keys (rows df)).
  assert (Hperm : (λ r : gmap string Q, default 0%Q (r !! col)) <$> shuffle keys (rows df)
                  ≡ₚ (λ r : gmap string Q, default 0%Q (r !! col)) <$> rows df).
  { apply fmap_Permutation, shuffle_Permutation. }
  split; [|split; [exact Hperm|]].
  - apply df_getcol_total; cbn [df_sample_frac rows columns]; [exact Hin|].
    rewrite (shuffle_Permutation keys (rows df)). exact Hall.
  - intros c. apply count_eq_Permutation, Hperm.
Qed.

Lemma df_sample_frac_keeps_cells_witness :
  df_getcol synth_age "stroke" = Ok [0; 1]%Q ∧
  columns (df_sample_frac [1] synth_age) = columns synth_age ∧
  ∃ vals', df_getcol (df_sample_frac [1] synth_age) "stroke" = Ok vals' ∧
           vals' ≡ₚ [0; 1]%Q ∧ ∀ c, count_eq c vals' = count_eq c [0; 1]%Q.
Proof.
  assert (Hcol : df_getcol synth_age "stroke" = Ok [0; 1]%Q) by (vm_compute; reflexivity).
  split; [exact Hcol|].
  exact (df_sample_frac_keeps_cells [1] synth_age "stroke" [0; 1]%Q Hcol).
Defined.
